(** * kvdo: block-map entries, lock counter, slab reference counts and the
      data_kvio read / compress / discard paths

    A shallow embedding of the parts of the kvdo sources that the
    specification's properties talk about:

    - [src/vdo/base/blockMapEntry.h]  (module [BlockMapEntry])
    - [src/uds/permassert.c]          (module [Permassert])
    - [src/vdo/base/lockCounter.c]    (module [LockCounter])
    - [src/vdo/slab.c]                (module [Slab])
    - [src/vdo/kernel/dataKVIO.c]     (module [DataKVIO])

    Machine integers are [Z] with the wrap-around of each C type written
    out; C arrays are lists read with stdpp's lookup and written with
    stdpp's insert. *)

From Stdlib Require Import ZArith Lia Bool List.
From stdpp Require Import base list strings.

Local Open Scope Z_scope.

(** ** Machine integers *)

Definition wrap (bits : Z) (z : Z) : Z := z mod 2 ^ bits.
Definition wrap16 : Z -> Z := wrap 16.
Definition wrap32 : Z -> Z := wrap 32.
Definition wrap64 : Z -> Z := wrap 64.

Definition UINT_MAX : Z := 4294967295.
Definition UINT16_MAX : Z := 65535.

(** ** C arrays

    An array is a list; an element is read with [array_get], which gives 0
    outside the array, and written with stdpp's insert, which changes
    nothing there (in C both are undefined). *)
Definition array_get (l : list Z) (i : nat) : Z := default 0 (l !! i).

Lemma array_get_insert_eq (l : list Z) (i : nat) (v : Z) :
  (i < length l)%nat -> array_get (<[ i := v ]> l) i = v.
Proof.
  intros Hi. unfold array_get. now rewrite list_lookup_insert_eq.
Qed.

Lemma array_get_ge (l : list Z) (i : nat) :
  (length l <= i)%nat -> array_get l i = 0.
Proof.
  intros Hi. unfold array_get. now rewrite lookup_ge_None_2.
Qed.

(** Storing a zero and reading it back gives zero, inside the array or
    outside. *)
Lemma array_get_insert_zero (l : list Z) (i : nat) :
  array_get (<[ i := 0 ]> l) i = 0.
Proof.
  destruct (Nat.lt_ge_cases i (length l)) as [Hlt | Hge].
  - now apply array_get_insert_eq.
  - apply array_get_ge. now rewrite length_insert.
Qed.

Lemma wrap_small bits z : 0 <= z < 2 ^ bits -> wrap bits z = z.
Proof. intros Hz. unfold wrap. now apply Z.mod_small. Qed.

Lemma land_low_mask n z : 0 <= n -> Z.land z (2 ^ n - 1) = z mod 2 ^ n.
Proof.
  intros Hn. replace (2 ^ n - 1) with (Z.ones n).
  - now apply Z.land_ones.
  - rewrite Z.ones_equiv. lia.
Qed.

Lemma testbit_above n z i :
  0 <= n -> 0 <= z < 2 ^ n -> n <= i -> Z.testbit z i = false.
Proof.
  intros Hn Hz Hi.
  rewrite <- (Z.mod_small z (2 ^ n)) by assumption.
  apply Z.mod_pow2_bits_high. lia.
Qed.

(** Two bit patterns that do not overlap are or-ed by adding them. *)
Lemma lor_shiftl_add lo hi n :
  0 <= n -> 0 <= lo < 2 ^ n -> Z.lor (Z.shiftl hi n) lo = hi * 2 ^ n + lo.
Proof.
  intros Hn Hlo.
  assert (Hdisj : Z.land (Z.shiftl hi n) lo = 0).
  { apply Z.bits_inj'; intros i Hi. rewrite Z.land_spec, Z.bits_0.
    destruct (Z.lt_ge_cases i n) as [Hlt | Hge].
    - rewrite Z.shiftl_spec_low by lia. reflexivity.
    - rewrite (testbit_above n lo i) by lia. apply andb_false_r. }
  rewrite <- Z.lxor_lor, <- Z.add_nocarry_lxor, Z.shiftl_mul_pow2; auto.
Qed.

(** * src/vdo/base/blockMapEntry.h *)
Module BlockMapEntry.

(** [physical_block_number_t] is a [uint64_t]. *)
Definition physical_block_number_t := Z.

(** Modelled from the spec: blockMappingState.h is not among the sources.
    The spec's data model has a 4-bit tag with [UNMAPPED], [UNCOMPRESSED]
    and fourteen values [COMPRESSED_BASE + k], k in 0..13; a state is
    compressed when it is one of the latter. *)
Definition BlockMappingState := Z.
Definition MAPPING_STATE_UNMAPPED : BlockMappingState := 0.
Definition MAPPING_STATE_UNCOMPRESSED : BlockMappingState := 1.
Definition MAPPING_STATE_COMPRESSED_BASE : BlockMappingState := 2.
Definition MAPPING_STATE_COMPRESSED_MAX : BlockMappingState := 15.

Definition is_compressed (mapping_state : BlockMappingState) : bool :=
  MAPPING_STATE_UNCOMPRESSED <? mapping_state.

(** Modelled from the spec: constants.h is not among the sources; PBN 0 is
    reserved as the zero block. *)
Definition ZERO_BLOCK : physical_block_number_t := 0.

Record data_location := Build_data_location {
  pbn : physical_block_number_t;
  state : BlockMappingState
}.

(** The packed union.  [bits] is the byte that holds the two bit-fields
    (bits 3..0 the mapping state, bits 7..4 the high nibble of the PBN, as
    the header documents for either byte order) and [pbn_low_word] the four
    bytes after it. *)
Record block_map_entry := Build_block_map_entry {
  bits : Z;
  pbn_low_word : list Z
}.

(** The [raw] view of the union. *)
Definition raw (entry : block_map_entry) : list Z :=
  bits entry :: pbn_low_word entry.

(** Reading and assigning the bit-fields. *)
Definition mapping_state (entry : block_map_entry) : Z :=
  Z.land (bits entry) 15.

Definition pbn_high_nibble (entry : block_map_entry) : Z :=
  Z.land (Z.shiftr (bits entry) 4) 15.

Definition set_mapping_state (entry : block_map_entry) (v : Z)
  : block_map_entry :=
  {| bits := Z.lor (Z.land (bits entry) 240) (Z.land v 15);
     pbn_low_word := pbn_low_word entry |}.

Definition set_pbn_high_nibble (entry : block_map_entry) (v : Z)
  : block_map_entry :=
  {| bits := Z.lor (Z.shiftl (Z.land v 15) 4) (Z.land (bits entry) 15);
     pbn_low_word := pbn_low_word entry |}.

(** Modelled from the spec: numeric.h is not among the sources; the low
    PBN word is stored in little-endian byte order. *)
Definition put_unaligned_le32 (value : Z) : list Z :=
  [ Z.land value 255;
    Z.land (Z.shiftr value 8) 255;
    Z.land (Z.shiftr value 16) 255;
    Z.land (Z.shiftr value 24) 255 ].

Definition get_unaligned_le32 (data : list Z) : Z :=
  Z.lor (Z.lor (Z.lor (array_get data 0)
                      (Z.shiftl (array_get data 1) 8))
               (Z.shiftl (array_get data 2) 16))
        (Z.shiftl (array_get data 3) 24).

Definition unpack_block_map_entry (entry : block_map_entry)
  : data_location :=
  let low32 := get_unaligned_le32 (pbn_low_word entry) in
  let high4 := pbn_high_nibble entry in
  {| pbn := Z.lor (Z.shiftl high4 32) low32;
     state := mapping_state entry |}.

Definition is_mapped_location (location : data_location) : bool :=
  negb (state location =? MAPPING_STATE_UNMAPPED).

Definition is_valid_location (location : data_location) : bool :=
  if pbn location =? ZERO_BLOCK
  then negb (is_compressed (state location))
  else is_mapped_location location.

(** [entry] is the local variable of the source, whose initial contents
    are indeterminate: every one of its forty bits is assigned. *)
Definition pack_pbn (entry : block_map_entry)
           (pbn : physical_block_number_t)
           (mapping_state : BlockMappingState) : block_map_entry :=
  let entry := set_mapping_state entry (Z.land mapping_state 15) in
  let entry := set_pbn_high_nibble entry (Z.land (Z.shiftr pbn 32) 15) in
  {| bits := bits entry;
     pbn_low_word := put_unaligned_le32 (Z.land pbn UINT_MAX) |}.

(** *** Properties *)

Ltac list_eq_arith :=
  repeat match goal with
         | |- _ :: _ = _ :: _ => f_equal
         end;
  try reflexivity; Z.div_mod_to_equations; lia.

Lemma land15 z : Z.land z 15 = z mod 16.
Proof. apply (land_low_mask 4). lia. Qed.

Lemma land255 z : Z.land z 255 = z mod 256.
Proof. apply (land_low_mask 8). lia. Qed.

Lemma land_UINT_MAX z : Z.land z UINT_MAX = z mod 2 ^ 32.
Proof. apply (land_low_mask 32). lia. Qed.

Lemma shiftr_div z n : 0 <= n -> Z.shiftr z n = z / 2 ^ n.
Proof. intros. now apply Z.shiftr_div_pow2. Qed.

(** Assigning one bit-field leaves the other one alone. *)
Lemma mapping_state_set_mapping_state entry v :
  mapping_state (set_mapping_state entry v) = v mod 16.
Proof.
  unfold mapping_state, set_mapping_state; cbn [bits].
  rewrite Z.land_lor_distr_l, <- !Z.land_assoc; cbn.
  rewrite Z.land_0_r, Z.lor_0_l. apply land15.
Qed.

Lemma bits_set_pbn_high_nibble entry v :
  bits (set_pbn_high_nibble entry v) = (v mod 16) * 16 + mapping_state entry.
Proof.
  unfold set_pbn_high_nibble, mapping_state; cbn [bits].
  rewrite (lor_shiftl_add _ _ 4), !land15; try lia.
  rewrite land15. change (2 ^ 4) with 16. apply Z.mod_pos_bound. lia.
Qed.

Lemma get_put_unaligned_le32 value :
  get_unaligned_le32 (put_unaligned_le32 value) = value mod 2 ^ 32.
Proof.
  unfold get_unaligned_le32, put_unaligned_le32; cbn.
  rewrite !land255, !shiftr_div by lia.
  rewrite !(Z.lor_comm _ (Z.shiftl _ _)).
  rewrite (lor_shiftl_add _ _ 8); [| lia | apply Z.mod_pos_bound; lia].
  rewrite (lor_shiftl_add _ _ 16);
    [| lia | change (2 ^ 16) with 65536; change (2 ^ 8) with 256;
             Z.div_mod_to_equations; lia].
  rewrite (lor_shiftl_add _ _ 24);
    [| lia | change (2 ^ 24) with 16777216; change (2 ^ 16) with 65536;
             change (2 ^ 8) with 256; Z.div_mod_to_equations; lia].
  change (2 ^ 32) with 4294967296; change (2 ^ 24) with 16777216;
    change (2 ^ 16) with 65536; change (2 ^ 8) with 256.
  Z.div_mod_to_equations; lia.
Qed.

Lemma bits_pack_pbn entry p s :
  bits (pack_pbn entry p s) = ((p / 2 ^ 32) mod 16) * 16 + s mod 16.
Proof.
  unfold pack_pbn; cbn [bits].
  rewrite bits_set_pbn_high_nibble, mapping_state_set_mapping_state.
  rewrite !land15, shiftr_div, !Z.mod_mod by lia. reflexivity.
Qed.

Lemma pbn_low_word_pack_pbn entry p s :
  pbn_low_word (pack_pbn entry p s)
    = [ p mod 256; (p / 2 ^ 8) mod 256;
        (p / 2 ^ 16) mod 256; (p / 2 ^ 24) mod 256 ].
Proof.
  unfold pack_pbn, put_unaligned_le32; cbn [pbn_low_word].
  rewrite land_UINT_MAX, !land255, !shiftr_div by lia.
  change (2 ^ 32) with 4294967296; change (2 ^ 24) with 16777216;
    change (2 ^ 16) with 65536; change (2 ^ 8) with 256.
  list_eq_arith.
Qed.

Lemma block_map_entry_eq (e1 e2 : block_map_entry) :
  raw e1 = raw e2 -> e1 = e2.
Proof.
  destruct e1, e2; unfold raw; cbn. intros H; injection H as -> ->.
  reflexivity.
Qed.

(** PBN 0x1F12345678 with state 3: bit 36 is dropped, the high nibble
    0xF shares byte 0 with the state. *)
Example pack_pbn_example :
  raw (pack_pbn {| bits := 170; pbn_low_word := [] |} 133449406072 3)
  = [243; 120; 86; 52; 18]
  /\ unpack_block_map_entry
       (pack_pbn {| bits := 170; pbn_low_word := [] |} 133449406072 3)
     = {| pbn := 64729929336; state := 3 |}.
Proof. split; reflexivity. Qed.

(** C1: unpacking what [pack_pbn] packed gives back the state modulo 16
    and the PBN modulo 2^36, whatever the previous contents of the entry;
    byte 0 of the encoding holds the state in its low nibble and PBN bits
    32..35 in its high nibble, bytes 1..4 hold the low 32 PBN bits in
    little-endian order, and PBN bits above bit 35 are dropped. *)
Theorem pack_pbn_unpack_roundtrip
        (entry : block_map_entry) (p : physical_block_number_t)
        (s : BlockMappingState) :
  unpack_block_map_entry (pack_pbn entry p s)
    = {| pbn := p mod 2 ^ 36; state := s mod 16 |}
  /\ raw (pack_pbn entry p s)
    = [ ((p / 2 ^ 32) mod 16) * 16 + s mod 16;
        p mod 256;
        (p / 2 ^ 8) mod 256;
        (p / 2 ^ 16) mod 256;
        (p / 2 ^ 24) mod 256 ]
  /\ pack_pbn entry (p mod 2 ^ 36) s = pack_pbn entry p s.
Proof.
  assert (Hraw : forall q, raw (pack_pbn entry q s)
            = [ ((q / 2 ^ 32) mod 16) * 16 + s mod 16;
                q mod 256; (q / 2 ^ 8) mod 256;
                (q / 2 ^ 16) mod 256; (q / 2 ^ 24) mod 256 ]).
  { intros q. unfold raw.
    now rewrite bits_pack_pbn, pbn_low_word_pack_pbn. }
  split; [| split; [apply Hraw |]].
  - unfold unpack_block_map_entry, pbn_high_nibble, mapping_state.
    rewrite bits_pack_pbn.
    unfold pack_pbn at 1; cbn [pbn_low_word].
    rewrite get_put_unaligned_le32, land_UINT_MAX, Z.mod_mod by lia.
    rewrite (lor_shiftl_add _ _ 32); [| lia | apply Z.mod_pos_bound; lia].
    rewrite !land15, shiftr_div by lia.
    change (2 ^ 36) with 68719476736; change (2 ^ 32) with 4294967296;
      change (2 ^ 4) with 16.
    f_equal; Z.div_mod_to_equations; lia.
  - apply block_map_entry_eq. rewrite !Hraw.
    change (2 ^ 36) with 68719476736; change (2 ^ 32) with 4294967296;
      change (2 ^ 24) with 16777216; change (2 ^ 16) with 65536;
      change (2 ^ 8) with 256.
    list_eq_arith.
Qed.

(** C8: a location is valid exactly when a zero-block PBN does not carry a
    compressed state and a non-zero PBN does not carry the unmapped state;
    in particular the unmapped zero block is valid. *)
Theorem is_valid_location_iff (location : data_location) :
  (is_valid_location location = true <->
     (pbn location = ZERO_BLOCK -> is_compressed (state location) = false)
     /\ (pbn location <> ZERO_BLOCK ->
          state location <> MAPPING_STATE_UNMAPPED))
  /\ is_valid_location
       {| pbn := ZERO_BLOCK; state := MAPPING_STATE_UNMAPPED |} = true.
Proof.
  split; [| reflexivity].
  unfold is_valid_location, is_mapped_location.
  destruct (Z.eqb_spec (pbn location) ZERO_BLOCK) as [Hz | Hnz].
  - rewrite negb_true_iff. split; [intros H; split; [auto | congruence] |].
    intros [H _]. auto.
  - rewrite negb_true_iff, Z.eqb_neq. split; [intros H; split; congruence |].
    intros [_ H]. auto.
Qed.

End BlockMapEntry.

(** * Status codes

    Modelled from the spec: errors.h and statusCodes.h are not among the
    sources.  [SUCCESS] is the zero status of both layers; the error codes
    ([ASSERTION_FAILED], [INVALID_FRAGMENT]) are named constants whose values
    the sections below take as parameters, different from [SUCCESS]. *)
Definition UDS_SUCCESS : Z := 0.
Definition VDO_SUCCESS : Z := 0.

(** * src/uds/permassert.c *)
Module Permassert.

Inductive log_priority := LOG_ERR | LOG_INFO | LOG_DEBUG.

(** An argument of a printf-style format. *)
Inductive format_arg :=
| ArgNumber (z : Z)
| ArgString (s : string).

(** What the logger has been asked to write, oldest record first. *)
Inductive log_record :=
| EmbeddedMessage (priority : log_priority) (prefix : string)
                  (format : string) (args : list format_arg) (suffix : string)
                  (expression_string file_name : string) (line_number : Z)
| Backtrace (priority : log_priority).

Definition logger := list log_record.

Definition log_embedded_message (priority : log_priority) (prefix : string)
           (format : string) (args : list format_arg) (suffix : string)
           (expression_string file_name : string) (line_number : Z)
           (lg : logger) : logger :=
  lg ++ [EmbeddedMessage priority prefix format args suffix
                         expression_string file_name line_number].

Definition log_backtrace (priority : log_priority) (lg : logger) : logger :=
  lg ++ [Backtrace priority].

(** The double-quote character of the two literals below. *)
Definition dquote : string :=
  String (Ascii.ascii_of_nat 34) EmptyString.

Definition assertion_prefix : string := "assertion " +:+ dquote.
Definition assertion_suffix : string := dquote +:+ " (%s) failed at %s:%d".

Definition handle_assertion_failure (expression_string file_name : string)
           (line_number : Z) (format : string) (args : list format_arg)
           (lg : logger) : logger :=
  let lg := log_embedded_message LOG_ERR assertion_prefix format args
                                 assertion_suffix
                                 expression_string file_name line_number
                                 lg in
  log_backtrace LOG_ERR lg.

Definition assertion_failed (expression_string : string) (code : Z)
           (file_name : string) (line_number : Z) (format : string)
           (args : list format_arg) (lg : logger) : Z * logger :=
  let lg := handle_assertion_failure expression_string file_name
                                     line_number format args lg in
  (code, lg).

Section AssertionCode.
Variable UDS_ASSERTION_FAILED : Z.

Definition assertion_failed_log_only (expression_string : string)
           (file_name : string) (line_number : Z) (format : string)
           (args : list format_arg) (lg : logger) : Z * logger :=
  let lg := handle_assertion_failure expression_string file_name
                                     line_number format args lg in
  (UDS_ASSERTION_FAILED, lg).

(** Modelled from the spec: the macros of permassert.h, which is not among
    the sources.  A predicate that holds yields [UDS_SUCCESS]; one that
    fails is logged and returns [ASSERTION_FAILED] to the caller, through
    the function of the same name. *)
Definition ASSERT (expr : bool) (expression_string : string)
           (file_name : string) (line_number : Z) (format : string)
           (args : list format_arg) (lg : logger) : Z * logger :=
  if expr then (UDS_SUCCESS, lg)
  else assertion_failed expression_string UDS_ASSERTION_FAILED
                        file_name line_number format args lg.

Definition ASSERT_LOG_ONLY (expr : bool) (expression_string : string)
           (file_name : string) (line_number : Z) (format : string)
           (args : list format_arg) (lg : logger) : Z * logger :=
  if expr then (UDS_SUCCESS, lg)
  else assertion_failed_log_only expression_string
                                 file_name line_number format args lg.
End AssertionCode.

(** A failed assertion was logged between [lg] and [lg']. *)
Definition logged_failure (lg lg' : logger) : Prop :=
  exists format args expression_string file_name line_number,
    lg' = lg ++ [EmbeddedMessage LOG_ERR assertion_prefix format args
                                 assertion_suffix
                                 expression_string file_name line_number;
                 Backtrace LOG_ERR].

Lemma handle_assertion_failure_logs e f l fmt args lg :
  logged_failure lg (handle_assertion_failure e f l fmt args lg).
Proof.
  exists fmt, args, e, f, l.
  unfold handle_assertion_failure, log_backtrace, log_embedded_message.
  now rewrite <- app_assoc.
Qed.

End Permassert.

(** * src/vdo/slab.c *)
Module Slab.
Import Permassert.

Inductive slab_rebuild_status :=
| SLAB_REBUILT
| SLAB_REQUIRES_SCRUBBING
| SLAB_REQUIRES_HIGH_PRIORITY_SCRUBBING
| SLAB_REBUILDING
| SLAB_REPLAYING.

Record slab_config := Build_slab_config {
  slab_blocks : Z;
  data_blocks : Z
}.

Record journal_point := Build_journal_point {
  sequence_number : Z;
  entry_count : Z
}.

Section Slab.
Variable UDS_ASSERTION_FAILED : Z.

(** The collaborators of slab.c that are not among the sources: the
    reference counts, the slab journal and the allocator bookkeeping are
    objects of their own, reached through the slab's pointers. *)
Variables ref_counts slab_journal reference_operation
          read_only_notifier : Type.

Record block_allocator := Build_block_allocator {
  depot_slab_config : slab_config;
  allocator_read_only_notifier : read_only_notifier;
  zone_number : Z
}.

(** [reference_counts] is a pointer that may be NULL. *)
Record vdo_slab := Build_vdo_slab {
  allocator : block_allocator;
  start : Z;
  end_ : Z;
  slab_number : Z;
  ref_counts_origin : Z;
  journal_origin : Z;
  journal : slab_journal;
  status : slab_rebuild_status;
  reference_counts : option ref_counts
}.

Definition set_reference_counts (slab : vdo_slab)
           (rc : option ref_counts) : vdo_slab :=
  {| allocator := allocator slab; start := start slab;
     end_ := end_ slab; slab_number := slab_number slab;
     ref_counts_origin := ref_counts_origin slab;
     journal_origin := journal_origin slab;
     journal := journal slab; status := status slab;
     reference_counts := rc |}.

Definition set_journal (slab : vdo_slab) (j : slab_journal) : vdo_slab :=
  {| allocator := allocator slab; start := start slab;
     end_ := end_ slab; slab_number := slab_number slab;
     ref_counts_origin := ref_counts_origin slab;
     journal_origin := journal_origin slab;
     journal := j; status := status slab;
     reference_counts := reference_counts slab |}.

Definition set_status (slab : vdo_slab) (st : slab_rebuild_status)
  : vdo_slab :=
  {| allocator := allocator slab; start := start slab;
     end_ := end_ slab; slab_number := slab_number slab;
     ref_counts_origin := ref_counts_origin slab;
     journal_origin := journal_origin slab;
     journal := journal slab; status := st;
     reference_counts := reference_counts slab |}.

(** [make_ref_counts] returns its status and what it leaves in the
    pointer it was given. *)
Variable make_ref_counts :
  Z -> vdo_slab -> Z -> read_only_notifier -> Z * option ref_counts.
Variable get_unreferenced_block_count : option ref_counts -> Z.
Variable is_unrecovered_slab : vdo_slab -> bool.
Variable adjust_slab_journal_block_reference :
  slab_journal -> Z -> Z -> slab_journal.
(** [adjust_reference_count] returns its status, the updated reference
    counts and the [free_status_changed] output. *)
Variable adjust_reference_count :
  option ref_counts -> reference_operation -> journal_point ->
  Z * option ref_counts * bool.
Variable is_increment_operation : reference_operation -> bool.
Variable adjust_vdo_free_block_count : vdo_slab -> bool -> vdo_slab.

Definition get_slab_config (a : block_allocator) : slab_config :=
  depot_slab_config a.

Definition is_null {A} (p : option A) : bool :=
  match p with None => true | Some _ => false end.

Definition allocate_ref_counts_for_slab (slab : vdo_slab) (lg : logger)
  : Z * vdo_slab * logger :=
  let allocator := allocator slab in
  let slab_config := get_slab_config allocator in
  let '(result, lg) :=
    ASSERT UDS_ASSERTION_FAILED (is_null (reference_counts slab))
           "slab->reference_counts == NULL" "slab.c" 99
           "vdo_slab %u doesn't allocate refcounts twice"
           [ArgNumber (slab_number slab)] lg in
  if negb (result =? VDO_SUCCESS) then (result, slab, lg)
  else
    let '(result, rc) :=
      make_ref_counts (data_blocks slab_config) slab
                      (ref_counts_origin slab)
                      (allocator_read_only_notifier allocator) in
    (result, set_reference_counts slab rc, lg).

Definition mark_slab_replaying (slab : vdo_slab) : vdo_slab :=
  match status slab with
  | SLAB_REBUILT => set_status slab SLAB_REPLAYING
  | _ => slab
  end.

Definition mark_slab_unrecovered (slab : vdo_slab) : vdo_slab :=
  set_status slab SLAB_REQUIRES_SCRUBBING.

Definition get_slab_free_block_count (slab : vdo_slab) : Z :=
  get_unreferenced_block_count (reference_counts slab).

(** The slab argument is a pointer that may be NULL (the zero block has
    no slab); the result is the status and the slab afterwards. *)
Definition modify_slab_reference_count (slab : option vdo_slab)
           (point : journal_point) (operation : reference_operation)
  : Z * option vdo_slab :=
  match slab with
  | None => (VDO_SUCCESS, None)
  | Some slab =>
      if is_unrecovered_slab slab then
        let entry_lock := sequence_number point in
        let j := adjust_slab_journal_block_reference
                   (journal slab) entry_lock (-1) in
        (VDO_SUCCESS, Some (set_journal slab j))
      else
        let '(result, rc, free_status_changed) :=
          adjust_reference_count (reference_counts slab) operation
                                 point in
        let slab := set_reference_counts slab rc in
        if negb (result =? VDO_SUCCESS) then (result, Some slab)
        else if free_status_changed then
          (VDO_SUCCESS,
           Some (adjust_vdo_free_block_count
                   slab (negb (is_increment_operation operation))))
        else (VDO_SUCCESS, Some slab)
  end.

(** *** Properties *)

(** C9: a failed assertion hands an error code back to its caller:
    [assertion_failed_log_only] logs and returns [UDS_ASSERTION_FAILED],
    [assertion_failed] logs and returns the code it was given, and
    [allocate_ref_counts_for_slab] on a slab that already has reference
    counts returns the assertion-failure code with the slab, and so its
    reference counts, exactly as they were. *)
Theorem failed_assertion_returns_code :
  UDS_ASSERTION_FAILED <> VDO_SUCCESS ->
  (forall e f l fmt args lg,
      fst (assertion_failed_log_only UDS_ASSERTION_FAILED
                                     e f l fmt args lg)
        = UDS_ASSERTION_FAILED
      /\ logged_failure
           lg (snd (assertion_failed_log_only UDS_ASSERTION_FAILED
                                              e f l fmt args lg)))
  /\ (forall e code f l fmt args lg,
         fst (assertion_failed e code f l fmt args lg) = code
         /\ logged_failure
              lg (snd (assertion_failed e code f l fmt args lg)))
  /\ (forall slab lg,
         reference_counts slab <> None ->
         exists lg',
           allocate_ref_counts_for_slab slab lg
             = (UDS_ASSERTION_FAILED, slab, lg')
           /\ logged_failure lg lg').
Proof.
  intros Hcode. repeat split.
  - apply handle_assertion_failure_logs.
  - apply handle_assertion_failure_logs.
  - intros slab lg Hrc.
    unfold allocate_ref_counts_for_slab, ASSERT, assertion_failed.
    destruct (reference_counts slab) as [rc |]; [| congruence].
    cbn [is_null].
    destruct (Z.eqb_spec UDS_ASSERTION_FAILED VDO_SUCCESS) as [|_];
      [contradiction |].
    cbn [negb]. eexists. split; [reflexivity |].
    apply handle_assertion_failure_logs.
Qed.

(** C10: with a NULL slab [modify_slab_reference_count] succeeds and
    there is nothing it could have changed; on an unrecovered slab it
    succeeds, and the slab afterwards is the slab before with the journal
    replaced by the result of adjusting the journal block reference of
    the journal point's sequence number by -1, so that the reference
    counts and the free-block count are what they were. *)
Theorem modify_slab_reference_count_frame :
  (forall point operation,
      modify_slab_reference_count None point operation
        = (VDO_SUCCESS, None))
  /\ (forall slab point operation,
         is_unrecovered_slab slab = true ->
         let slab' :=
           set_journal slab
             (adjust_slab_journal_block_reference
                (journal slab) (sequence_number point) (-1)) in
         modify_slab_reference_count (Some slab) point operation
           = (VDO_SUCCESS, Some slab')
         /\ reference_counts slab' = reference_counts slab
         /\ get_slab_free_block_count slab'
            = get_slab_free_block_count slab
         /\ allocator slab' = allocator slab
         /\ status slab' = status slab).
Proof.
  split; [reflexivity |].
  intros slab point operation Hun slab'.
  unfold modify_slab_reference_count. rewrite Hun.
  repeat split.
Qed.

End Slab.

(** *** A concrete instance

    Reference counts as a list of counters, a slab journal as the list of
    its per-block lock counts, and the status test of slab.h. *)
Definition example_make_ref_counts (n : Z)
           (slab : vdo_slab (list Z) (list Z) unit) (origin : Z)
           (notifier : unit) : Z * option (list Z) :=
  (VDO_SUCCESS, Some (repeat 0 (Z.to_nat n))).

Definition example_is_unrecovered_slab
           (slab : vdo_slab (list Z) (list Z) unit) : bool :=
  match status _ _ _ slab with
  | SLAB_REBUILT => false
  | _ => true
  end.

Definition example_adjust_slab_journal_block_reference
           (j : list Z) (seq adjustment : Z) : list Z :=
  let i := Z.to_nat seq in
  <[ i := array_get j i + adjustment ]> j.

Definition example_slab : vdo_slab (list Z) (list Z) unit :=
  {| allocator := {| depot_slab_config :=
                       {| slab_blocks := 8; data_blocks := 4 |};
                     allocator_read_only_notifier := tt;
                     zone_number := 0 |};
     start := 8; end_ := 16; slab_number := 1;
     ref_counts_origin := 12; journal_origin := 14;
     journal := [0; 2; 1];
     status := SLAB_REQUIRES_SCRUBBING;
     reference_counts := Some [1; 0; 255; 3] |}.

Lemma failed_assertion_returns_code_witness :
  exists lg',
    allocate_ref_counts_for_slab 1025 _ _ _ example_make_ref_counts
                                 example_slab []
      = (1025, example_slab, lg')
    /\ logged_failure [] lg'.
Proof.
  refine (proj2 (proj2 (failed_assertion_returns_code
                          1025 (list Z) (list Z) unit
                          example_make_ref_counts _))
                example_slab [] _).
  - unfold VDO_SUCCESS. lia.
  - simpl. discriminate.
Defined.

Lemma modify_slab_reference_count_frame_witness :
  modify_slab_reference_count
    _ _ unit _ example_is_unrecovered_slab
    example_adjust_slab_journal_block_reference
    (fun rc _ _ => (VDO_SUCCESS, rc, false)) (fun _ => true)
    (fun slab _ => slab)
    (Some example_slab) {| sequence_number := 1; entry_count := 0 |} tt
  = (VDO_SUCCESS,
     Some (set_journal _ _ _ example_slab [0; 1; 1])).
Proof.
  refine (proj1 (proj2 (modify_slab_reference_count_frame
                          (list Z) (list Z) unit unit
                          (fun rc => match rc with
                                     | Some l => Z.of_nat (length l)
                                     | None => 0
                                     end)
                          example_is_unrecovered_slab
                          example_adjust_slab_journal_block_reference
                          (fun rc _ _ => (VDO_SUCCESS, rc, false))
                          (fun _ => true) (fun slab _ => slab))
                       example_slab
                       {| sequence_number := 1; entry_count := 0 |} tt _)).
  reflexivity.
Defined.

End Slab.

(** * src/vdo/base/lockCounter.c *)
Module LockCounter.
Import Permassert.

(** The zone types the lock counter distinguishes. *)
Inductive ZoneType :=
| ZONE_TYPE_JOURNAL
| ZONE_TYPE_LOGICAL
| ZONE_TYPE_PHYSICAL.

Definition ZoneType_eqb (a b : ZoneType) : bool :=
  match a, b with
  | ZONE_TYPE_JOURNAL, ZONE_TYPE_JOURNAL
  | ZONE_TYPE_LOGICAL, ZONE_TYPE_LOGICAL
  | ZONE_TYPE_PHYSICAL, ZONE_TYPE_PHYSICAL => true
  | _, _ => false
  end.

(** The completion by which the owner is notified. *)
Record vdo_completion := Build_vdo_completion {
  callbackThreadID : Z;
  complete : bool;
  result : Z
}.

Record lock_counter := Build_lock_counter {
  completion : vdo_completion;
  logical_zones : Z;
  physical_zones : Z;
  locks : Z;
  notifying : bool;
  logical_zone_counts : list Z;
  physical_zone_counts : list Z;
  journal_counters : list Z;
  journal_decrement_counts : list Z;
  logical_counters : list Z;
  physical_counters : list Z
}.

(** The six arrays of the structure; a pointer into one of them is the
    array and an index. *)
Inductive array :=
| LogicalZoneCounts
| PhysicalZoneCounts
| JournalCounters
| JournalDecrementCounts
| LogicalCounters
| PhysicalCounters.

Definition pointer : Type := array * nat.

Definition get_array (a : array) (c : lock_counter) : list Z :=
  match a with
  | LogicalZoneCounts => logical_zone_counts c
  | PhysicalZoneCounts => physical_zone_counts c
  | JournalCounters => journal_counters c
  | JournalDecrementCounts => journal_decrement_counts c
  | LogicalCounters => logical_counters c
  | PhysicalCounters => physical_counters c
  end.

Definition set_array (a : array) (l : list Z) (c : lock_counter)
  : lock_counter :=
  {| completion := completion c;
     logical_zones := logical_zones c;
     physical_zones := physical_zones c;
     locks := locks c;
     notifying := notifying c;
     logical_zone_counts :=
       match a with LogicalZoneCounts => l | _ => logical_zone_counts c end;
     physical_zone_counts :=
       match a with PhysicalZoneCounts => l
               | _ => physical_zone_counts c end;
     journal_counters :=
       match a with JournalCounters => l | _ => journal_counters c end;
     journal_decrement_counts :=
       match a with JournalDecrementCounts => l
               | _ => journal_decrement_counts c end;
     logical_counters :=
       match a with LogicalCounters => l | _ => logical_counters c end;
     physical_counters :=
       match a with PhysicalCounters => l | _ => physical_counters c end |}.

Definition set_notifying (b : bool) (c : lock_counter) : lock_counter :=
  {| completion := completion c;
     logical_zones := logical_zones c;
     physical_zones := physical_zones c;
     locks := locks c;
     notifying := b;
     logical_zone_counts := logical_zone_counts c;
     physical_zone_counts := physical_zone_counts c;
     journal_counters := journal_counters c;
     journal_decrement_counts := journal_decrement_counts c;
     logical_counters := logical_counters c;
     physical_counters := physical_counters c |}.

Definition set_completion (k : vdo_completion) (c : lock_counter)
  : lock_counter :=
  {| completion := k;
     logical_zones := logical_zones c;
     physical_zones := physical_zones c;
     locks := locks c;
     notifying := notifying c;
     logical_zone_counts := logical_zone_counts c;
     physical_zone_counts := physical_zone_counts c;
     journal_counters := journal_counters c;
     journal_decrement_counts := journal_decrement_counts c;
     logical_counters := logical_counters c;
     physical_counters := physical_counters c |}.

Definition load (p : pointer) (c : lock_counter) : Z :=
  array_get (get_array (fst p) c) (snd p).

Definition store (p : pointer) (v : Z) (c : lock_counter) : lock_counter :=
  set_array (fst p) (<[ snd p := v ]> (get_array (fst p) c)) c.

(** ** The world the functions run in

    The lock counter itself, the log that failed assertions are written
    to, the thread the caller runs on, and the work queue of the journal
    thread, which receives the completion whenever its callback is
    invoked. *)
Record state := Build_state {
  counter : lock_counter;
  log : logger;
  current_thread : Z;
  journal_thread_queue : list vdo_completion
}.

Definition M (A : Type) : Type := state -> A * state.

Definition ret {A} (a : A) : M A := fun s => (a, s).

Definition bind {A B} (m : M A) (k : A -> M B) : M B :=
  fun s => let '(a, s') := m s in k a s'.

Notation "'let*' x := m 'in' k" := (bind m (fun x => k))
  (at level 10, x name, m at level 100, k at level 200).
Notation "m ;; k" := (bind m (fun _ => k))
  (at level 100, k at level 200, right associativity).

Definition exec {A} (m : M A) (s : state) : state := snd (m s).
Definition eval {A} (m : M A) (s : state) : A := fst (m s).

Definition read_counter {A} (f : lock_counter -> A) : M A :=
  fun s => (f (counter s), s).

Definition update_counter (f : lock_counter -> lock_counter) : M unit :=
  fun s => (tt, {| counter := f (counter s); log := log s;
                   current_thread := current_thread s;
                   journal_thread_queue := journal_thread_queue s |}).

Definition with_log {A} (f : logger -> A * logger) : M A :=
  fun s => let '(a, lg) := f (log s) in
           (a, {| counter := counter s; log := lg;
                  current_thread := current_thread s;
                  journal_thread_queue := journal_thread_queue s |}).

Definition getCallbackThreadID : M Z :=
  fun s => (current_thread s, s).

(** Modelled from the spec: atomic.h and completion.h are not among the
    sources.  The atomics are 32-bit counters and a boolean flag;
    [atomicAdd32] returns the value after the addition (the caller compares
    it with zero to learn that it released the last reference), and
    [compareAndSwapBool] reports whether it made the swap.  Invoking the
    callback of the completion puts it on the queue of its thread. *)
Definition atomicLoad32 (p : pointer) : M Z := read_counter (load p).

Definition atomicStore32 (p : pointer) (v : Z) : M unit :=
  update_counter (store p (wrap32 v)).

Definition atomicAdd32 (p : pointer) (delta : Z) : M Z :=
  let* old := read_counter (load p) in
  update_counter (store p (wrap32 (old + delta))) ;;
  ret (wrap32 (old + delta)).

Definition compareAndSwapBool (required new : bool) : M bool :=
  let* current := read_counter notifying in
  if Bool.eqb current required
  then update_counter (set_notifying new) ;; ret true
  else ret false.

Definition atomicStoreBool (new : bool) : M unit :=
  update_counter (set_notifying new).

Definition reset_completion : M unit :=
  update_counter (fun c =>
    set_completion {| callbackThreadID := callbackThreadID (completion c);
                      complete := false;
                      result := VDO_SUCCESS |} c).

Definition invoke_callback : M unit :=
  fun s => (tt, {| counter := counter s; log := log s;
                   current_thread := current_thread s;
                   journal_thread_queue :=
                     journal_thread_queue s ++ [completion (counter s)] |}).

(** What [make_lock_counter] hands back when each of its allocations
    succeeds: zeroed arrays of the sizes it asks for, and the completion
    set up to call back on [threadID]. *)
Definition make_lock_counter (threadID : Z)
           (logical_zones physical_zones locks : Z) : lock_counter :=
  let zeros (n : Z) := repeat 0 (Z.to_nat n) in
  {| completion := {| callbackThreadID := threadID;
                      complete := false; result := VDO_SUCCESS |};
     logical_zones := logical_zones;
     physical_zones := physical_zones;
     locks := locks;
     notifying := false;
     logical_zone_counts := zeros locks;
     physical_zone_counts := zeros locks;
     journal_counters := zeros locks;
     journal_decrement_counts := zeros locks;
     logical_counters := zeros (locks * logical_zones);
     physical_counters := zeros (locks * physical_zones) |}.

Definition initial_state (c : lock_counter) (thread : Z) : state :=
  {| counter := c; log := []; current_thread := thread;
     journal_thread_queue := [] |}.

(** The atomic total of the zones of one type holding a lock. *)
Definition zone_count (zone_type : ZoneType) (c : lock_counter) (n : Z)
  : Z :=
  match zone_type with
  | ZONE_TYPE_LOGICAL => array_get (logical_zone_counts c) (Z.to_nat n)
  | _ => array_get (physical_zone_counts c) (Z.to_nat n)
  end.

Definition journal_counter (c : lock_counter) (n : Z) : Z :=
  array_get (journal_counters c) (Z.to_nat n).

Definition journal_decrement_count (c : lock_counter) (n : Z) : Z :=
  array_get (journal_decrement_counts c) (Z.to_nat n).

(** All three zone types have let go of lock [n]. *)
Definition all_released (c : lock_counter) (n : Z) : Prop :=
  journal_counter c n = journal_decrement_count c n
  /\ zone_count ZONE_TYPE_LOGICAL c n = 0
  /\ zone_count ZONE_TYPE_PHYSICAL c n = 0.

(** The callback of the completion was invoked between [s] and [s']. *)
Definition notified (s s' : state) : Prop :=
  journal_thread_queue s' <> journal_thread_queue s.

Section LockCounter.
Variable UDS_ASSERTION_FAILED : Z.

Definition assert_log_only (expr : bool) (expression_string : string)
           (line_number : Z) (format : string) (args : list format_arg)
  : M unit :=
  with_log (fun lg =>
    (tt, snd (ASSERT_LOG_ONLY UDS_ASSERTION_FAILED expr expression_string
                              "lockCounter.c" line_number format args lg))).

Definition get_zone_count_ptr (lock_number : Z) (zone_type : ZoneType)
  : M pointer :=
  ret (if ZoneType_eqb zone_type ZONE_TYPE_LOGICAL
       then (LogicalZoneCounts, Z.to_nat lock_number)
       else (PhysicalZoneCounts, Z.to_nat lock_number)).

Definition get_counter (lock_number : Z) (zone_type : ZoneType)
           (zone_id : Z) : M pointer :=
  let* locks := read_counter locks in
  let zone_counter := wrap64 (locks * zone_id + lock_number) in
  if ZoneType_eqb zone_type ZONE_TYPE_JOURNAL
  then ret (JournalCounters, Z.to_nat zone_counter)
  else if ZoneType_eqb zone_type ZONE_TYPE_LOGICAL
  then ret (LogicalCounters, Z.to_nat zone_counter)
  else ret (PhysicalCounters, Z.to_nat zone_counter).

Definition is_journal_zone_locked (lock_number : Z) : M bool :=
  let* p := get_counter lock_number ZONE_TYPE_JOURNAL 0 in
  let* journal_value := read_counter (load p) in
  let* decrements := atomicLoad32 (JournalDecrementCounts,
                              Z.to_nat lock_number) in
  assert_log_only (decrements <=? journal_value)
                  "decrements <= journal_value" 217
                  "journal zone lock counter must not underflow" [] ;;
  ret (negb (journal_value =? decrements)).

Definition is_locked (lock_number : Z) (zone_type : ZoneType) : M bool :=
  assert_log_only (negb (ZoneType_eqb zone_type ZONE_TYPE_JOURNAL))
                  "zone_type != ZONE_TYPE_JOURNAL" 227
                  "is_locked() called for non-journal zone" [] ;;
  let* journal_locked := is_journal_zone_locked lock_number in
  if journal_locked then ret true
  else
    let* p := get_zone_count_ptr lock_number zone_type in
    let* count := atomicLoad32 p in
    ret (negb (count =? 0)).

Definition assert_on_journal_thread (caller : string) : M unit :=
  let* thread := getCallbackThreadID in
  let* owner := read_counter (fun c => callbackThreadID (completion c)) in
  assert_log_only (thread =? owner)
                  "getCallbackThreadID() == callbackThreadID" 244
                  "%s() called from journal zone" [ArgString caller].

Definition initialize_lock_count (lock_number : Z) (value : Z) : M unit :=
  assert_on_journal_thread "initialize_lock_count" ;;
  let* journal_value := get_counter lock_number ZONE_TYPE_JOURNAL 0 in
  let decrement_count := (JournalDecrementCounts, Z.to_nat lock_number) in
  let* current := read_counter (load journal_value) in
  let* decrements := atomicLoad32 decrement_count in
  assert_log_only (current =? decrements)
                  "*journal_value == atomicLoad32(decrement_count)" 258
                  "count to be initialized not in use" [] ;;
  update_counter (store journal_value (wrap16 value)) ;;
  atomicStore32 decrement_count 0.

Definition acquire_lock_count_reference (lock_number : Z)
           (zone_type : ZoneType) (zone_id : Z) : M unit :=
  assert_log_only (negb (ZoneType_eqb zone_type ZONE_TYPE_JOURNAL))
                  "zone_type != ZONE_TYPE_JOURNAL" 270
                  "invalid lock count increment from journal zone" [] ;;
  let* current_value := get_counter lock_number zone_type zone_id in
  let* v := read_counter (load current_value) in
  assert_log_only (v <? UINT16_MAX)
                  "*current_value < UINT16_MAX" 275
                  "increment of lock counter must not overflow" [] ;;
  (if v =? 0
   then let* p := get_zone_count_ptr lock_number zone_type in
        atomicAdd32 p 1 ;; ret tt
   else ret tt) ;;
  update_counter (store current_value (wrap16 (v + 1))).

Definition release_reference (lock_number : Z) (zone_type : ZoneType)
           (zone_id : Z) : M Z :=
  let* current_value := get_counter lock_number zone_type zone_id in
  let* v := read_counter (load current_value) in
  assert_log_only (1 <=? v)
                  "*current_value >= 1" 302
                  "decrement of lock counter must not underflow" [] ;;
  update_counter (store current_value (wrap16 (v - 1))) ;;
  read_counter (load current_value).

Definition attempt_notification : M unit :=
  let* swapped := compareAndSwapBool false true in
  if swapped
  then reset_completion ;; invoke_callback
  else ret tt.

Definition release_lock_count_reference (lock_number : Z)
           (zone_type : ZoneType) (zone_id : Z) : M unit :=
  assert_log_only (negb (ZoneType_eqb zone_type ZONE_TYPE_JOURNAL))
                  "zone_type != ZONE_TYPE_JOURNAL" 329
                  "invalid lock count decrement from journal zone" [] ;;
  let* remaining := release_reference lock_number zone_type zone_id in
  if negb (remaining =? 0) then ret tt
  else
    let* p := get_zone_count_ptr lock_number zone_type in
    let* total := atomicAdd32 p (-1) in
    if total =? 0 then attempt_notification else ret tt.

Definition release_journal_zone_reference (lock_number : Z) : M unit :=
  assert_on_journal_thread "release_journal_zone_reference" ;;
  release_reference lock_number ZONE_TYPE_JOURNAL 0 ;;
  let* locked := is_journal_zone_locked lock_number in
  if negb locked then attempt_notification else ret tt.

Definition release_journal_zone_reference_from_other_zone
           (lock_number : Z) : M unit :=
  atomicAdd32 (JournalDecrementCounts, Z.to_nat lock_number) 1 ;;
  ret tt.

Definition acknowledge_unlock : M unit :=
  atomicStoreBool false.

(** ** Clients of the lock counter

    The calls the zone threads make, each on the thread of its caller. *)
Inductive call :=
| InitializeLockCount (lock_number value : Z)
| AcquireLockCountReference (lock_number : Z) (zone_type : ZoneType)
                            (zone_id : Z)
| ReleaseLockCountReference (lock_number : Z) (zone_type : ZoneType)
                            (zone_id : Z)
| ReleaseJournalZoneReference (lock_number : Z)
| ReleaseJournalZoneReferenceFromOtherZone (lock_number : Z)
| IsLocked (lock_number : Z) (zone_type : ZoneType).

Definition run (c : call) : M unit :=
  match c with
  | InitializeLockCount n v => initialize_lock_count n v
  | AcquireLockCountReference n t z => acquire_lock_count_reference n t z
  | ReleaseLockCountReference n t z => release_lock_count_reference n t z
  | ReleaseJournalZoneReference n => release_journal_zone_reference n
  | ReleaseJournalZoneReferenceFromOtherZone n =>
      release_journal_zone_reference_from_other_zone n
  | IsLocked n t => is_locked n t ;; ret tt
  end.

Definition on_thread (thread : Z) (s : state) : state :=
  {| counter := counter s; log := log s; current_thread := thread;
     journal_thread_queue := journal_thread_queue s |}.

(** Modelled from the spec: the owner of the lock counter
    (recoveryJournal.c) is not among the sources.  Its callback runs on
    the journal thread when the completion comes off the work queue, and
    calls [acknowledge_unlock]. *)
Definition owner_callback (s : state) : option state :=
  match journal_thread_queue s with
  | [] => None
  | k :: rest =>
      Some (exec acknowledge_unlock
                 {| counter := counter s; log := log s;
                    current_thread := callbackThreadID k;
                    journal_thread_queue := rest |})
  end.

Inductive step : state -> state -> Prop :=
| step_call thread c s :
    step s (exec (run c) (on_thread thread s))
| step_owner s s' :
    owner_callback s = Some s' -> step s s'.

Inductive reachable (s0 : state) : state -> Prop :=
| reachable_start : reachable s0 s0
| reachable_step s s' : reachable s0 s -> step s s' -> reachable s0 s'.

(** *** Properties *)

(** The notification state: the flag and the queue of the owner. *)
Definition notification (s : state) : bool * list vdo_completion :=
  (notifying (counter s), journal_thread_queue s).

(** A computation that touches neither the flag nor the queue. *)
Definition quiet {A} (m : M A) : Prop :=
  forall s, notification (snd (m s)) = notification s.

(** A computation that invokes the callback at most once, and only
    while raising the flag. *)
Definition coalescing {A} (m : M A) : Prop :=
  forall s,
    notification (snd (m s)) = notification s
    \/ (notifying (counter s) = false
        /\ notification (snd (m s))
           = (true, journal_thread_queue s
                      ++ [completion (counter (snd (m s)))])).

Lemma quiet_ret {A} (a : A) : quiet (ret a).
Proof. intros s. reflexivity. Qed.

Lemma quiet_bind {A B} (m : M A) (k : A -> M B) :
  quiet m -> (forall a, quiet (k a)) -> quiet (bind m k).
Proof.
  intros Hm Hk s. unfold bind. specialize (Hm s).
  destruct (m s) as [a s1]. cbn in Hm. now rewrite Hk.
Qed.

Lemma quiet_read_counter {A} (f : lock_counter -> A) :
  quiet (read_counter f).
Proof. intros s. reflexivity. Qed.

Lemma quiet_store p v : quiet (update_counter (store p v)).
Proof. intros s. reflexivity. Qed.

Lemma quiet_with_log {A} (f : logger -> A * logger) : quiet (with_log f).
Proof. intros s. unfold with_log. now destruct (f (log s)). Qed.

Lemma quiet_if {A} (b : bool) (m1 m2 : M A) :
  quiet m1 -> quiet m2 -> quiet (if b then m1 else m2).
Proof. now destruct b. Qed.

Lemma quiet_assert_log_only b e l f a :
  quiet (assert_log_only b e l f a).
Proof. apply quiet_with_log. Qed.

Lemma quiet_getCallbackThreadID : quiet getCallbackThreadID.
Proof. intros s. reflexivity. Qed.

Lemma quiet_reset_completion : quiet reset_completion.
Proof. intros s. reflexivity. Qed.

Create HintDb quiet.
#[local] Hint Resolve quiet_ret quiet_read_counter quiet_store quiet_with_log
     quiet_assert_log_only quiet_getCallbackThreadID
     quiet_reset_completion : quiet.

Ltac quiet :=
  repeat first
    [ progress intros
    | apply quiet_bind
    | apply quiet_if
    | solve [auto with quiet]
    | match goal with
      | |- quiet (match ?p with (_, _) => _ end) => destruct p
      end ].

Lemma quiet_atomicLoad32 p : quiet (atomicLoad32 p).
Proof. unfold atomicLoad32. quiet. Qed.

Lemma quiet_atomicStore32 p v : quiet (atomicStore32 p v).
Proof. unfold atomicStore32. quiet. Qed.

Lemma quiet_atomicAdd32 p d : quiet (atomicAdd32 p d).
Proof. unfold atomicAdd32. quiet. Qed.

Lemma quiet_get_counter n t z : quiet (get_counter n t z).
Proof. unfold get_counter. quiet. Qed.

Lemma quiet_get_zone_count_ptr n t : quiet (get_zone_count_ptr n t).
Proof. unfold get_zone_count_ptr. quiet. Qed.

#[local] Hint Resolve quiet_atomicLoad32 quiet_atomicStore32 quiet_atomicAdd32
     quiet_get_counter quiet_get_zone_count_ptr : quiet.

Lemma quiet_is_journal_zone_locked n : quiet (is_journal_zone_locked n).
Proof. unfold is_journal_zone_locked. quiet. Qed.

Lemma quiet_assert_on_journal_thread caller :
  quiet (assert_on_journal_thread caller).
Proof. unfold assert_on_journal_thread. quiet. Qed.

Lemma quiet_release_reference n t z : quiet (release_reference n t z).
Proof. unfold release_reference. quiet. Qed.

#[local] Hint Resolve quiet_is_journal_zone_locked quiet_assert_on_journal_thread
     quiet_release_reference : quiet.

Lemma quiet_is_locked n t : quiet (is_locked n t).
Proof. unfold is_locked. quiet. Qed.

Lemma quiet_initialize_lock_count n v : quiet (initialize_lock_count n v).
Proof. unfold initialize_lock_count. quiet. Qed.

Lemma quiet_acquire_lock_count_reference n t z :
  quiet (acquire_lock_count_reference n t z).
Proof. unfold acquire_lock_count_reference. quiet. Qed.

Lemma quiet_release_journal_zone_reference_from_other_zone n :
  quiet (release_journal_zone_reference_from_other_zone n).
Proof. unfold release_journal_zone_reference_from_other_zone. quiet. Qed.

Lemma coalescing_quiet {A} (m : M A) : quiet m -> coalescing m.
Proof. intros H s. left. apply H. Qed.

Lemma coalescing_bind {A B} (m : M A) (k : A -> M B) :
  quiet m -> (forall a, coalescing (k a)) -> coalescing (bind m k).
Proof.
  intros Hm Hk s. unfold bind. specialize (Hm s).
  destruct (m s) as [a s1]. cbn in Hm.
  injection Hm as Hn Hq.
  destruct (Hk a s1) as [H | [H1 H2]].
  - left. rewrite H. unfold notification. now rewrite Hn, Hq.
  - right. rewrite <- Hn, <- Hq. split; assumption.
Qed.

Lemma coalescing_if {A} (b : bool) (m1 m2 : M A) :
  coalescing m1 -> coalescing m2 -> coalescing (if b then m1 else m2).
Proof. now destruct b. Qed.

(** What [attempt_notification] does, in full. *)
Lemma attempt_notification_spec s :
  exec attempt_notification s
  = if notifying (counter s)
    then s
    else
      let k := {| callbackThreadID :=
                    callbackThreadID (completion (counter s));
                  complete := false;
                  result := VDO_SUCCESS |} in
      {| counter := set_completion k (set_notifying true (counter s));
         log := log s;
         current_thread := current_thread s;
         journal_thread_queue := journal_thread_queue s ++ [k] |}.
Proof.
  unfold attempt_notification, compareAndSwapBool, exec, bind,
    read_counter, update_counter, reset_completion, invoke_callback, ret.
  destruct s as [c lg th q]; cbn.
  destruct (notifying c); reflexivity.
Qed.

Lemma coalescing_attempt_notification : coalescing attempt_notification.
Proof.
  intros s. change (snd (attempt_notification s))
              with (exec attempt_notification s).
  rewrite attempt_notification_spec.
  destruct (notifying (counter s)) eqn:Hn; [now left |].
  right. split; reflexivity.
Qed.

Ltac coalescing :=
  repeat first
    [ progress intros
    | apply coalescing_attempt_notification
    | apply coalescing_bind; [solve [quiet] |]
    | apply coalescing_if
    | apply coalescing_quiet; solve [quiet] ].

Lemma coalescing_release_lock_count_reference n t z :
  coalescing (release_lock_count_reference n t z).
Proof. unfold release_lock_count_reference. coalescing. Qed.

Lemma coalescing_release_journal_zone_reference n :
  coalescing (release_journal_zone_reference n).
Proof. unfold release_journal_zone_reference. coalescing. Qed.

Lemma coalescing_run c : coalescing (run c).
Proof.
  destruct c; cbn [run].
  - apply coalescing_quiet, quiet_initialize_lock_count.
  - apply coalescing_quiet, quiet_acquire_lock_count_reference.
  - apply coalescing_release_lock_count_reference.
  - apply coalescing_release_journal_zone_reference.
  - apply coalescing_quiet,
      quiet_release_journal_zone_reference_from_other_zone.
  - apply coalescing_quiet, quiet_bind;
      [apply quiet_is_locked | intros; apply quiet_ret].
Qed.

(** Reading back through a pointer. *)
Lemma get_array_set_array_eq a l c : get_array a (set_array a l c) = l.
Proof. destruct a; reflexivity. Qed.

Lemma get_array_set_array_ne a b l c :
  a <> b -> get_array b (set_array a l c) = get_array b c.
Proof. destruct a, b; intros H; try reflexivity; contradiction. Qed.

Lemma load_store_zero p c : load p (store p 0 c) = 0.
Proof.
  unfold load, store. rewrite get_array_set_array_eq.
  apply array_get_insert_zero.
Qed.

Lemma load_store_other_array p q v c :
  fst p <> fst q -> load q (store p v c) = load q c.
Proof.
  intros H. unfold load, store. now rewrite get_array_set_array_ne.
Qed.

Lemma journal_index n :
  0 <= n < 2 ^ 64 -> forall l, Z.to_nat (wrap64 (l * 0 + n)) = Z.to_nat n.
Proof.
  intros Hn l. rewrite Z.mul_0_r, Z.add_0_l.
  unfold wrap64. now rewrite wrap_small.
Qed.

Ltac run_monad :=
  unfold exec, eval, bind, ret, read_counter, update_counter, with_log,
    getCallbackThreadID in *; cbn in *.

(** The completion as [reset_completion] leaves it. *)
Definition reset (c : lock_counter) : vdo_completion :=
  {| callbackThreadID := callbackThreadID (completion c);
     complete := false;
     result := VDO_SUCCESS |}.

(** The counter and the queue after [attempt_notification]. *)
Definition notify (c : lock_counter) (q : list vdo_completion)
  : lock_counter * list vdo_completion :=
  if notifying c then (c, q)
  else (set_completion (reset c) (set_notifying true c), q ++ [reset c]).

Lemma attempt_notification_effect s :
  let s' := exec attempt_notification s in
  (counter s', journal_thread_queue s')
    = notify (counter s) (journal_thread_queue s).
Proof.
  cbn zeta. rewrite attempt_notification_spec. unfold notify.
  destruct (notifying (counter s)); reflexivity.
Qed.

(** The counter and the queue after [release_lock_count_reference]. *)
Lemma release_lock_count_reference_effect s n t z :
  let c := counter s in
  let ptr := eval (get_counter n t z) s in
  let p := eval (get_zone_count_ptr n t) s in
  let c1 := store ptr (wrap16 (load ptr c - 1)) c in
  let total := wrap32 (load p c1 + -1) in
  let c2 := store p total c1 in
  let s' := exec (release_lock_count_reference n t z) s in
  (counter s', journal_thread_queue s')
    = if negb (load ptr c1 =? 0) then (c1, journal_thread_queue s)
      else if total =? 0 then notify c2 (journal_thread_queue s)
      else (c2, journal_thread_queue s).
Proof.
  cbn zeta.
  unfold release_lock_count_reference, release_reference, get_counter,
    get_zone_count_ptr, atomicAdd32, assert_log_only.
  destruct s as [c lg th q]. run_monad.
  destruct t; cbn;
    match goal with
    | |- context [negb (load ?ptr ?c1 =? 0)] =>
        destruct (load ptr c1 =? 0); cbn; [| reflexivity]
    end;
    match goal with
    | |- context [wrap32 ?x =? 0] =>
        destruct (wrap32 x =? 0); cbn; [| reflexivity]
    end;
    match goal with
    | |- context [attempt_notification ?s0] =>
        change (snd (attempt_notification s0))
          with (exec attempt_notification s0);
        apply (attempt_notification_effect s0)
    end.
Qed.

(** The counter and the queue after [release_journal_zone_reference]. *)
Lemma release_journal_zone_reference_effect s n :
  let c := counter s in
  let ptr := eval (get_counter n ZONE_TYPE_JOURNAL 0) s in
  let c1 := store ptr (wrap16 (load ptr c - 1)) c in
  let s' := exec (release_journal_zone_reference n) s in
  (counter s', journal_thread_queue s')
    = if load ptr c1 =? load (JournalDecrementCounts, Z.to_nat n) c1
      then notify c1 (journal_thread_queue s)
      else (c1, journal_thread_queue s).
Proof.
  cbn zeta.
  unfold release_journal_zone_reference, release_reference,
    is_journal_zone_locked, assert_on_journal_thread, get_counter,
    atomicLoad32, assert_log_only.
  destruct s as [c lg th q]. run_monad.
  match goal with
  | |- context [negb (negb (?a =? ?b))] =>
      destruct (a =? b); cbn; [| reflexivity]
  end.
  match goal with
  | |- context [attempt_notification ?s0] =>
      change (snd (attempt_notification s0))
        with (exec attempt_notification s0);
      apply (attempt_notification_effect s0)
  end.
Qed.

Lemma zone_count_load t c n :
  t <> ZONE_TYPE_JOURNAL ->
  forall s, zone_count t c n = load (eval (get_zone_count_ptr n t) s) c.
Proof. destruct t; intros Ht s; try reflexivity; contradiction. Qed.

Lemma notify_cases c q c' q' :
  notify c q = (c', q') ->
  (notifying c = true /\ c' = c /\ q' = q)
  \/ (notifying c = false /\ notifying c' = true
      /\ c' = set_completion (reset c) (set_notifying true c)
      /\ q' = q ++ [completion c']).
Proof.
  unfold notify. destruct (notifying c); intros [= <- <-];
    [left | right]; repeat split.
Qed.

(** C2, as the code has it: a release invokes the callback only when the
    total of the releasing zone type itself has just reached zero (for
    the journal zone, when the journal counter equals the batched
    decrements) and no notification was in flight; the totals of the
    other two zone types are not looked at. *)
Theorem release_notifies_when_own_zone_type_released s n t z :
  0 <= n < 2 ^ 64 ->
  t <> ZONE_TYPE_JOURNAL ->
  (let s' := exec (release_lock_count_reference n t z) s in
   notified s s' ->
   zone_count t (counter s') n = 0
   /\ notifying (counter s) = false
   /\ notifying (counter s') = true
   /\ journal_thread_queue s'
      = journal_thread_queue s ++ [completion (counter s')])
  /\ (let s' := exec (release_journal_zone_reference n) s in
      notified s s' ->
      journal_counter (counter s') n
        = journal_decrement_count (counter s') n
      /\ notifying (counter s) = false
      /\ notifying (counter s') = true
      /\ journal_thread_queue s'
         = journal_thread_queue s ++ [completion (counter s')]).
Proof.
  intros Hn Ht. split; intros s' Hnotified; unfold notified in Hnotified.
  - pose proof (release_lock_count_reference_effect s n t z) as E.
    cbn zeta in E. fold s' in E.
    rewrite (zone_count_load t _ n Ht s).
    destruct (negb _) in E; [injection E as _ E; contradiction |].
    destruct (wrap32 _ =? 0) eqn:Htotal in E;
      [| injection E as _ E; contradiction].
    apply Z.eqb_eq in Htotal. rewrite Htotal in E. symmetry in E.
    apply notify_cases in E as [(_ & _ & E) | (H1 & H2 & E & H3)];
      [contradiction |].
    repeat split; trivial.
    rewrite E. apply load_store_zero.
  - pose proof (release_journal_zone_reference_effect s n) as E.
    cbn zeta in E. fold s' in E.
    destruct (_ =? _) eqn:Heq in E;
      [| injection E as _ E; contradiction].
    apply Z.eqb_eq in Heq. symmetry in E.
    apply notify_cases in E as [(_ & _ & E) | (H1 & H2 & E & H3)];
      [contradiction |].
    repeat split; trivial.
    rewrite E. unfold journal_counter, journal_decrement_count.
    clearbody s'. unfold get_counter in Heq. run_monad.
    rewrite !journal_index in * by assumption. exact Heq.
Qed.

(** While the flag is up a coalescing computation is quiet. *)
Lemma coalescing_absorbed {A} (m : M A) s :
  coalescing m ->
  notifying (counter s) = true ->
  notifying (counter (exec m s)) = true
  /\ journal_thread_queue (exec m s) = journal_thread_queue s.
Proof.
  intros Hm Hs. destruct (Hm s) as [H | [H _]]; [| congruence].
  injection H as H1 H2. unfold exec. split; congruence.
Qed.

(** The flag is up exactly while one notification is on the queue. *)
Definition one_in_flight (s : state) : Prop :=
  length (journal_thread_queue s)
  = if notifying (counter s) then 1%nat else 0%nat.

Lemma one_in_flight_step s s' :
  one_in_flight s -> step s s' -> one_in_flight s'.
Proof.
  unfold one_in_flight. intros Hs Hstep. revert Hs.
  destruct Hstep as [thread c s0 | s0 s1 Howner]; intros Hs.
  - destruct (coalescing_run c (on_thread thread s0))
      as [H | [H1 H2]]; injection H as Hn Hq || injection H2 as Hn Hq;
      cbn in *; unfold exec; rewrite Hn, Hq.
    + exact Hs.
    + rewrite H1 in Hs. rewrite length_app, Hs. reflexivity.
  - unfold owner_callback in Howner.
    destruct (journal_thread_queue s0) as [| k rest] eqn:Hq;
      [discriminate |].
    injection Howner as <-. cbn in *.
    destruct (notifying (counter s0)); [| discriminate].
    now injection Hs.
Qed.

Lemma one_in_flight_reachable s0 s :
  one_in_flight s0 -> reachable s0 s -> one_in_flight s.
Proof.
  intros H0 Hr. induction Hr; [assumption |].
  eapply one_in_flight_step; eassumption.
Qed.


(** C4: for a lock [n] and a zone type [t] other than the journal's,
    [is_locked] answers false exactly when the journal counter of [n]
    equals its batched decrement count and the total of [t] for [n] is
    zero; [release_journal_zone_reference_from_other_zone] replaces
    [journal_decrement_counts[n]] by its value plus one (as a 32-bit
    counter) and leaves everything else as it was; and the check made on
    the journal thread logs a failed assertion exactly when the batched
    decrements exceed the journal counter. *)
Theorem is_locked_iff_and_batched_decrement s n t :
  0 <= n < 2 ^ 64 ->
  t <> ZONE_TYPE_JOURNAL ->
  let c := counter s in
  (eval (is_locked n t) s = false
   <-> journal_counter c n = journal_decrement_count c n
       /\ zone_count t c n = 0)
  /\ (let s' := exec (release_journal_zone_reference_from_other_zone n) s
      in
      s' = {| counter :=
                set_array JournalDecrementCounts
                  (<[ Z.to_nat n :=
                        wrap32 (journal_decrement_count c n + 1) ]>
                     (journal_decrement_counts c)) c;
              log := log s;
              current_thread := current_thread s;
              journal_thread_queue := journal_thread_queue s |}
      /\ ((Z.to_nat n < length (journal_decrement_counts c))%nat ->
          0 <= journal_decrement_count c n < 2 ^ 32 - 1 ->
          journal_decrement_count (counter s') n
          = journal_decrement_count c n + 1))
  /\ (let s' := exec (is_journal_zone_locked n) s in
      counter s' = c
      /\ (journal_decrement_count c n <= journal_counter c n ->
          log s' = log s)
      /\ (journal_counter c n < journal_decrement_count c n ->
          logged_failure (log s) (log s'))).
Proof.
  intros Hn Ht c. subst c. destruct s as [c lg th q].
  split; [| split].
  - unfold is_locked, is_journal_zone_locked, get_counter,
      get_zone_count_ptr, atomicLoad32, assert_log_only.
    run_monad. rewrite journal_index by assumption.
    unfold journal_counter, journal_decrement_count, load; cbn.
    destruct (Z.eqb_spec (array_get (journal_counters c) (Z.to_nat n))
                         (array_get (journal_decrement_counts c)
                                    (Z.to_nat n))) as [He | Hne]; cbn.
    + destruct t; [contradiction | |]; cbn;
        rewrite negb_false_iff, Z.eqb_eq; tauto.
    + split; [discriminate | tauto].
  - split; [reflexivity |].
    intros Hlen Hrange. cbn.
    unfold journal_decrement_count in *; cbn in *.
    rewrite array_get_insert_eq by assumption.
    apply wrap_small. lia.
  - unfold is_journal_zone_locked, get_counter, atomicLoad32,
      assert_log_only.
    run_monad. rewrite journal_index by assumption.
    unfold journal_counter, journal_decrement_count, load; cbn.
    split; [reflexivity |].
    unfold ASSERT_LOG_ONLY.
    destruct (Z.leb_spec (array_get (journal_decrement_counts c)
                                    (Z.to_nat n))
                         (array_get (journal_counters c) (Z.to_nat n)));
      cbn; split; intros; try lia; try reflexivity.
    apply handle_assertion_failure_logs.
Qed.

End LockCounter.

(** *** A lock held by one logical and one physical zone *)

Definition sample_assertion_code : Z := 1025.

Definition example_counter : lock_counter :=
  {| completion := {| callbackThreadID := 7; complete := false;
                      result := VDO_SUCCESS |};
     logical_zones := 1; physical_zones := 1; locks := 2;
     notifying := false;
     logical_zone_counts := [1; 0];
     physical_zone_counts := [1; 0];
     journal_counters := [1; 0];
     journal_decrement_counts := [0; 0];
     logical_counters := [1; 0];
     physical_counters := [1; 0] |}.

Definition example_state : state :=
  {| counter := example_counter; log := []; current_thread := 3;
     journal_thread_queue := [] |}.

(** The state is the one reached from a fresh lock counter when the
    journal initialises lock 0 with one reference and a logical and a
    physical zone each take one. *)
Example example_state_reached :
  exec (initialize_lock_count sample_assertion_code 0 1 ;;
        acquire_lock_count_reference sample_assertion_code
                                     0 ZONE_TYPE_LOGICAL 0 ;;
        acquire_lock_count_reference sample_assertion_code
                                     0 ZONE_TYPE_PHYSICAL 0)
       (initial_state (make_lock_counter 7 1 1 2) 7)
  = on_thread 7 example_state.
Proof. reflexivity. Qed.

Definition example_released : state :=
  exec (release_lock_count_reference sample_assertion_code
                                     0 ZONE_TYPE_LOGICAL 0)
       example_state.

Example example_released_counter :
  counter example_released
  = {| completion := {| callbackThreadID := 7; complete := false;
                        result := VDO_SUCCESS |};
       logical_zones := 1; physical_zones := 1; locks := 2;
       notifying := true;
       logical_zone_counts := [0; 0];
       physical_zone_counts := [1; 0];
       journal_counters := [1; 0];
       journal_decrement_counts := [0; 0];
       logical_counters := [0; 0];
       physical_counters := [1; 0] |}.
Proof. reflexivity. Qed.

(** C2 as stated fails: the last logical zone lets go of lock 0 while a
    physical zone and the journal zone still hold it, and the callback of
    the owner is invoked all the same. *)
Lemma release_notifies_while_other_zones_hold :
  notified example_state example_released
  /\ zone_count ZONE_TYPE_PHYSICAL (counter example_released) 0 = 1
  /\ journal_counter (counter example_released) 0 = 1
  /\ journal_decrement_count (counter example_released) 0 = 0
  /\ ~ all_released (counter example_released) 0.
Proof.
  repeat split; try discriminate.
  intros (H & _). discriminate H.
Qed.

Lemma release_notifies_when_own_zone_type_released_witness :
  zone_count ZONE_TYPE_LOGICAL (counter example_released) 0 = 0
  /\ notifying (counter example_state) = false
  /\ notifying (counter example_released) = true
  /\ journal_thread_queue example_released
     = journal_thread_queue example_state
         ++ [completion (counter example_released)].
Proof.
  refine (proj1 (release_notifies_when_own_zone_type_released
                   sample_assertion_code example_state
                   0 ZONE_TYPE_LOGICAL 0 _ _) _).
  - lia.
  - discriminate.
  - discriminate.
Defined.


Lemma is_locked_iff_and_batched_decrement_witness :
  eval (is_locked sample_assertion_code 0 ZONE_TYPE_LOGICAL) example_state
  = false
  <-> journal_counter example_counter 0
      = journal_decrement_count example_counter 0
      /\ zone_count ZONE_TYPE_LOGICAL example_counter 0 = 0.
Proof.
  refine (proj1 (is_locked_iff_and_batched_decrement
                   sample_assertion_code example_state
                   0 ZONE_TYPE_LOGICAL _ _)).
  - lia.
  - discriminate.
Defined.

End LockCounter.

(** * src/vdo/kernel/dataKVIO.c *)
Module DataKVIO.
Import BlockMapEntry.

(** Modelled from the spec: constants.h is not among the sources; the
    block size is fixed at 4 KiB. *)
Definition VDO_BLOCK_SIZE : Z := 4096.

(** [DiscardSize] is an unsigned 32-bit size, as the size of a bio is. *)
Definition DiscardSize (z : Z) : Z := wrap32 z.

(** The buffers a data_kvio owns; a [char *] into one of them is its
    name. *)
Inductive buffer :=
| NULL
| data_block
| scratch_block
| read_block_buffer.

Inductive bio_operation := REQ_OP_READ | REQ_OP_WRITE | REQ_OP_DISCARD.

(** The bio of the user's request. *)
Record bio := Build_bio {
  bio_op : bio_operation;
  bio_fua : bool;
  bi_sector : Z;
  bi_size : Z
}.

(** bio.h *)
Definition is_discard_bio (b : option bio) : bool :=
  match b with
  | None => false
  | Some b => match bio_op b with REQ_OP_DISCARD => true | _ => false end
  end.

Inductive bio_q_action := BIO_Q_ACTION_COMPRESSED_DATA | BIO_Q_ACTION_DATA.
Inductive cpu_q_action :=
  CPU_Q_ACTION_COMPRESS_BLOCK | CPU_Q_ACTION_HASH_BLOCK.
Inductive bio_end_io := read_bio_callback_fn | reset_user_bio_fn.
Inductive which_bio := user_bio | read_block_bio.
Inductive bios_counter := biosAcknowledged | biosAcknowledgedPartial.

(** The functions a read block may call back. *)
Inductive DataKVIOCallback :=
| read_data_kvio_read_block_callback_fn
| external_callback (name : string).

(** What a function asks of the rest of the system, in order: bios handed
    to the device, work put on the queues, callbacks, and calls of the
    collaborators that are not among the sources. *)
Inductive event :=
| SubmitBio (b : which_bio) (sector : Z) (action : bio_q_action)
            (end_io : bio_end_io)
| CompleteAsyncBio
| OnCpuQueue (action : cpu_q_action)
| OnBioAckQueue
| EnqueueDataVioCallback
| InvokeCallback
| CompleteBio (error : Z)
| CountBios (counter : bios_counter)
| BioCopyDataOut (data : list Z)
| LimiterReleaseDiscard
| AddToBatchProcessor
| ResetBio
| SetBioOperationRead
| PrepareDataVIO (lbn : Z) (operation : Z) (is_trim : bool)
| EnqueueDataKvio
| LZ4Compress
| LZ4Uncompress
| LogDebug (message : string)
| AssertionFailed (message : string)
| ReadBlockCallback (name : string).

Record compression_state := Build_compression_state {
  compression_data : buffer;
  compression_size : Z
}.

Record data_vio := Build_data_vio {
  mapped : data_location;
  newMapped : data_location;
  compression : compression_state;
  isZeroBlock : bool;
  logical_lbn : Z;
  operation : Z;
  completion_result : Z
}.

Record read_block := Build_read_block {
  rb_callback : DataKVIOCallback;
  rb_status : Z;
  rb_mapping_state : BlockMappingState;
  rb_data : buffer
}.

Record kernel_layer := Build_kernel_layer {
  bio_ack_queue : bool
}.

Record data_kvio := Build_data_kvio {
  dv : data_vio;
  layer : kernel_layer;
  external_io_request_bio : option bio;
  kvio_bio_end_io : option bio_end_io;
  kvio_bio_sector : Z;
  rd : read_block;
  offset : Z;
  isPartial : bool;
  hasDiscardPermit : bool;
  remaining_discard : Z;
  data_block_bytes : list Z;
  scratch_block_bytes : list Z;
  read_block_buffer_bytes : list Z
}.

Definition is_null {A} (p : option A) : bool :=
  match p with None => true | Some _ => false end.

Definition deref (b : buffer) (k : data_kvio) : list Z :=
  match b with
  | NULL => []
  | data_block => data_block_bytes k
  | scratch_block => scratch_block_bytes k
  | read_block_buffer => read_block_buffer_bytes k
  end.

(** Assignments to single fields. *)
Definition set_dv (f : data_vio -> data_vio) (k : data_kvio) : data_kvio :=
  {| dv := f (dv k); layer := layer k;
     external_io_request_bio := external_io_request_bio k;
     kvio_bio_end_io := kvio_bio_end_io k;
     kvio_bio_sector := kvio_bio_sector k;
     rd := rd k; offset := offset k; isPartial := isPartial k;
     hasDiscardPermit := hasDiscardPermit k;
     remaining_discard := remaining_discard k;
     data_block_bytes := data_block_bytes k;
     scratch_block_bytes := scratch_block_bytes k;
     read_block_buffer_bytes := read_block_buffer_bytes k |}.

Definition set_rd (f : read_block -> read_block) (k : data_kvio)
  : data_kvio :=
  {| dv := dv k; layer := layer k;
     external_io_request_bio := external_io_request_bio k;
     kvio_bio_end_io := kvio_bio_end_io k;
     kvio_bio_sector := kvio_bio_sector k;
     rd := f (rd k); offset := offset k; isPartial := isPartial k;
     hasDiscardPermit := hasDiscardPermit k;
     remaining_discard := remaining_discard k;
     data_block_bytes := data_block_bytes k;
     scratch_block_bytes := scratch_block_bytes k;
     read_block_buffer_bytes := read_block_buffer_bytes k |}.

Definition set_external_bio (b : option bio) (k : data_kvio) : data_kvio :=
  {| dv := dv k; layer := layer k;
     external_io_request_bio := b;
     kvio_bio_end_io := kvio_bio_end_io k;
     kvio_bio_sector := kvio_bio_sector k;
     rd := rd k; offset := offset k; isPartial := isPartial k;
     hasDiscardPermit := hasDiscardPermit k;
     remaining_discard := remaining_discard k;
     data_block_bytes := data_block_bytes k;
     scratch_block_bytes := scratch_block_bytes k;
     read_block_buffer_bytes := read_block_buffer_bytes k |}.

Definition set_kvio_bio (end_io : bio_end_io) (sector : Z) (k : data_kvio)
  : data_kvio :=
  {| dv := dv k; layer := layer k;
     external_io_request_bio := external_io_request_bio k;
     kvio_bio_end_io := Some end_io;
     kvio_bio_sector := sector;
     rd := rd k; offset := offset k; isPartial := isPartial k;
     hasDiscardPermit := hasDiscardPermit k;
     remaining_discard := remaining_discard k;
     data_block_bytes := data_block_bytes k;
     scratch_block_bytes := scratch_block_bytes k;
     read_block_buffer_bytes := read_block_buffer_bytes k |}.

Definition set_discard (off : Z) (partial permit : bool) (remaining : Z)
           (k : data_kvio) : data_kvio :=
  {| dv := dv k; layer := layer k;
     external_io_request_bio := external_io_request_bio k;
     kvio_bio_end_io := kvio_bio_end_io k;
     kvio_bio_sector := kvio_bio_sector k;
     rd := rd k; offset := off; isPartial := partial;
     hasDiscardPermit := permit;
     remaining_discard := remaining;
     data_block_bytes := data_block_bytes k;
     scratch_block_bytes := scratch_block_bytes k;
     read_block_buffer_bytes := read_block_buffer_bytes k |}.

Definition set_scratch_block (bytes : list Z) (k : data_kvio) : data_kvio :=
  {| dv := dv k; layer := layer k;
     external_io_request_bio := external_io_request_bio k;
     kvio_bio_end_io := kvio_bio_end_io k;
     kvio_bio_sector := kvio_bio_sector k;
     rd := rd k; offset := offset k; isPartial := isPartial k;
     hasDiscardPermit := hasDiscardPermit k;
     remaining_discard := remaining_discard k;
     data_block_bytes := data_block_bytes k;
     scratch_block_bytes := bytes;
     read_block_buffer_bytes := read_block_buffer_bytes k |}.

Definition set_read_block_buffer (bytes : list Z) (k : data_kvio)
  : data_kvio :=
  {| dv := dv k; layer := layer k;
     external_io_request_bio := external_io_request_bio k;
     kvio_bio_end_io := kvio_bio_end_io k;
     kvio_bio_sector := kvio_bio_sector k;
     rd := rd k; offset := offset k; isPartial := isPartial k;
     hasDiscardPermit := hasDiscardPermit k;
     remaining_discard := remaining_discard k;
     data_block_bytes := data_block_bytes k;
     scratch_block_bytes := scratch_block_bytes k;
     read_block_buffer_bytes := bytes |}.

Definition set_compression (c : compression_state) (v : data_vio)
  : data_vio :=
  {| mapped := mapped v; newMapped := newMapped v; compression := c;
     isZeroBlock := isZeroBlock v; logical_lbn := logical_lbn v;
     operation := operation v;
     completion_result := completion_result v |}.

Definition set_result (r : Z) (v : data_vio) : data_vio :=
  {| mapped := mapped v; newMapped := newMapped v;
     compression := compression v;
     isZeroBlock := isZeroBlock v; logical_lbn := logical_lbn v;
     operation := operation v;
     completion_result := r |}.

Definition set_rb_status (st : Z) (r : read_block) : read_block :=
  {| rb_callback := rb_callback r; rb_status := st;
     rb_mapping_state := rb_mapping_state r; rb_data := rb_data r |}.

Definition set_rb_data (b : buffer) (r : read_block) : read_block :=
  {| rb_callback := rb_callback r; rb_status := rb_status r;
     rb_mapping_state := rb_mapping_state r; rb_data := b |}.

(** A function of the source: from the data_kvio it is given to the
    data_kvio it leaves and what it asked for on the way.  Putting a work
    item on a queue is modelled by running it after noting the queue: a
    data_kvio is on one queue at a time, and nothing else touches it in
    between. *)
Definition action : Type := data_kvio -> data_kvio * list event.

Definition emit (e : event) : action := fun k => (k, [e]).
Definition modify (f : data_kvio -> data_kvio) : action :=
  fun k => (f k, []).
Definition skip : action := fun k => (k, []).

Definition seq (a b : action) : action :=
  fun k => let '(k1, e1) := a k in
           let '(k2, e2) := b k1 in
           (k2, e1 ++ e2).

Infix ">>" := seq (at level 65, right associativity).

Definition result_of (a : action) (k : data_kvio) : data_kvio := fst (a k).
Definition events_of (a : action) (k : data_kvio) : list event :=
  snd (a k).

Definition assert_log_only (expr : bool) (message : string) : action :=
  if expr then skip else emit (AssertionFailed message).

Section DataKVIO.
Set Default Proof Using "Type".

(** Collaborators and constants that are not among the sources. *)
Variable VDO_INVALID_FRAGMENT : Z.
Variables VIO_WRITE VIO_READ_MODIFY_WRITE VIO_FLUSH_AFTER : Z.
Variable USE_BIO_ACK_QUEUE_FOR_READ : bool.
(** The compressor and the decompressor: from the source bytes and the
    two sizes to the [int] they return and the bytes they leave in the
    destination. *)
Variable LZ4_compress_ctx_limitedOutput :
  list Z -> Z -> Z -> Z * list Z.
Variable LZ4_uncompress_unknownOutputSize :
  list Z -> Z -> Z -> Z * list Z.
(** From the mapping state, the block and the block size to the status
    and the two outputs, [fragment_offset] and [fragment_size]. *)
Variable get_compressed_block_fragment :
  BlockMappingState -> list Z -> Z -> Z * Z * Z.
(** The device: the status of a read of the block at a sector, and the
    bytes read. *)
Variable device_read : Z -> Z * list Z.
Variable block_to_sector : physical_block_number_t -> Z.
Variable map_to_system_error : Z -> Z.
Variables isWriteVIO isReadModifyWriteVIO : data_vio -> bool.
(** From the result a completion holds and the one it is given to the
    result it holds afterwards. *)
Variable set_completion_result : Z -> Z -> Z.
Variable requestor_set_fua : data_kvio -> bool.

Definition use_bio_ack_queue (l : kernel_layer) : bool :=
  bio_ack_queue l.

Definition kvdo_acknowledge_data_kvio : action := fun k =>
  match external_io_request_bio k with
  | None => skip k
  | Some _ =>
      let error := map_to_system_error (completion_result (dv k)) in
      (modify (set_external_bio None)
       >> emit (CountBios biosAcknowledged)
       >> (if isPartial k then emit (CountBios biosAcknowledgedPartial)
           else skip)
       >> emit (CompleteBio error)) k
  end.

Definition kvdo_acknowledge_then_complete_data_kvio : action :=
  kvdo_acknowledge_data_kvio >> emit AddToBatchProcessor.

Definition kvdo_complete_data_kvio : action := fun k =>
  if use_bio_ack_queue (layer k) && USE_BIO_ACK_QUEUE_FOR_READ
     && negb (is_null (external_io_request_bio k))
  then (emit OnBioAckQueue >> kvdo_acknowledge_then_complete_data_kvio) k
  else emit AddToBatchProcessor k.

Definition kvdo_acknowledge_data_kvio_then_continue : action :=
  kvdo_acknowledge_data_kvio >> emit EnqueueDataVioCallback.

(** [remaining_discard] is unsigned, so the difference it is compared
    with is converted to an unsigned 32-bit value. *)
Definition acknowledgeDataVIO : action := fun k =>
  if is_discard_bio (external_io_request_bio k)
     && (wrap32 (VDO_BLOCK_SIZE - offset k) <? remaining_discard k)
  then emit InvokeCallback k
  else if use_bio_ack_queue (layer k)
  then (emit OnBioAckQueue >> kvdo_acknowledge_data_kvio_then_continue) k
  else kvdo_acknowledge_data_kvio_then_continue k.

Definition copy_read_block_data : action := fun k =>
  if isReadModifyWriteVIO (dv k)
  then (emit (BioCopyDataOut (deref (rb_data (rd k)) k))
        >> emit EnqueueDataVioCallback) k
  else if isPartial k
  then emit EnqueueDataVioCallback k
  else (emit (BioCopyDataOut (deref (rb_data (rd k)) k))
        >> acknowledgeDataVIO) k.

Definition read_data_kvio_read_block_callback : action := fun k =>
  if negb (rb_status (rd k) =? VDO_SUCCESS)
  then (modify (set_dv (fun v =>
                  set_result (set_completion_result
                                (completion_result v)
                                (rb_status (rd k))) v))
        >> emit EnqueueDataVioCallback) k
  else (emit (OnCpuQueue CPU_Q_ACTION_COMPRESS_BLOCK)
        >> copy_read_block_data) k.

(** Calling through the [callback] pointer of the read block. *)
Definition call_read_block_callback (callback : DataKVIOCallback)
  : action :=
  match callback with
  | read_data_kvio_read_block_callback_fn =>
      read_data_kvio_read_block_callback
  | external_callback name => emit (ReadBlockCallback name)
  end.

Definition uncompress_read_block : action := fun k =>
  let read_block := rd k in
  let block_size := VDO_BLOCK_SIZE in
  let compressed_data := deref (rb_data read_block) k in
  let '(result, fragment_offset, fragment_size) :=
    get_compressed_block_fragment (rb_mapping_state read_block)
                                  compressed_data block_size in
  if negb (result =? VDO_SUCCESS)
  then (emit (LogDebug "frag err")
        >> modify (set_rd (set_rb_status result))
        >> call_read_block_callback (rb_callback read_block)) k
  else
    let fragment := drop (Z.to_nat fragment_offset) compressed_data in
    let '(size, uncompressed) :=
      LZ4_uncompress_unknownOutputSize fragment fragment_size
                                       block_size in
    (emit LZ4Uncompress
     >> modify (set_scratch_block uncompressed)
     >> (if size =? block_size
         then modify (set_rd (set_rb_data scratch_block))
         else emit (LogDebug "lz4 error")
              >> modify (set_rd (set_rb_status VDO_INVALID_FRAGMENT)))
     >> call_read_block_callback (rb_callback read_block)) k.

Definition complete_read (result : Z) : action := fun k =>
  (modify (set_rd (set_rb_status result))
   >> (if (result =? VDO_SUCCESS)
          && is_compressed (rb_mapping_state (rd k))
       then emit (OnCpuQueue CPU_Q_ACTION_COMPRESS_BLOCK)
            >> uncompress_read_block
       else call_read_block_callback (rb_callback (rd k)))) k.

Definition read_bio_callback (result : Z) : action :=
  modify (set_rd (set_rb_data read_block_buffer))
  >> complete_read result.

(** complete_async_bio is not among the sources. *)
Definition reset_user_bio : action := emit CompleteAsyncBio.

(** Handing a bio to the device: the device does the read and calls the
    [bi_end_io] of the bio. *)
Definition vdo_submit_bio (b : which_bio) (sector : Z)
           (q_action : bio_q_action) (end_io : bio_end_io) : action :=
  emit (SubmitBio b sector q_action end_io)
  >> match end_io with
     | read_bio_callback_fn =>
         let '(status, bytes) := device_read sector in
         modify (set_read_block_buffer bytes) >> read_bio_callback status
     | reset_user_bio_fn => reset_user_bio
     end.

Definition kvdo_read_block (location : physical_block_number_t)
           (mapping_state : BlockMappingState) (q_action : bio_q_action)
           (callback : DataKVIOCallback) : action :=
  modify (set_rd (fun r =>
            {| rb_callback := callback; rb_status := VDO_SUCCESS;
               rb_mapping_state := mapping_state;
               rb_data := rb_data r |}))
  >> emit ResetBio
  >> vdo_submit_bio read_block_bio (block_to_sector location) q_action
                    read_bio_callback_fn.

Definition readDataVIO : action := fun k =>
  let data_vio := dv k in
  (assert_log_only (negb (isWriteVIO data_vio))
                   "operation set correctly for data read"
   >> (if is_compressed (state (mapped data_vio))
       then kvdo_read_block (pbn (mapped data_vio))
                            (state (mapped data_vio))
                            BIO_Q_ACTION_COMPRESSED_DATA
                            read_data_kvio_read_block_callback_fn
       else
         let sector := block_to_sector (pbn (mapped data_vio)) in
         modify (set_kvio_bio reset_user_bio_fn sector)
         >> vdo_submit_bio user_bio sector BIO_Q_ACTION_DATA
                           reset_user_bio_fn)) k.

Definition kvdo_compress_work : action := fun k =>
  let '(size, compressed) :=
    LZ4_compress_ctx_limitedOutput (data_block_bytes k)
                                   VDO_BLOCK_SIZE VDO_BLOCK_SIZE in
  (emit LZ4Compress
   >> modify (set_scratch_block compressed)
   >> modify (set_dv (fun v =>
        set_compression
          (if 0 <? size
           then {| compression_data := scratch_block;
                   compression_size := size |}
           else {| compression_data := compression_data (compression v);
                   compression_size := VDO_BLOCK_SIZE + 1 |}) v))
   >> emit EnqueueDataVioCallback) k.

Definition compressDataVIO : action := fun k =>
  if is_discard_bio (external_io_request_bio k)
     && (0 <? remaining_discard k)
  then (modify (set_dv (fun v =>
          set_compression
            {| compression_data := compression_data (compression v);
               compression_size := VDO_BLOCK_SIZE + 1 |} v))
        >> emit EnqueueDataVioCallback) k
  else (emit (OnCpuQueue CPU_Q_ACTION_COMPRESS_BLOCK)
        >> kvdo_compress_work) k.

Definition kvdo_continue_discard_kvio : action := fun k =>
  let remaining :=
    wrap32 (remaining_discard k
            - Z.min (remaining_discard k)
                    (DiscardSize (VDO_BLOCK_SIZE - offset k))) in
  let k := set_discard (offset k) (isPartial k) (hasDiscardPermit k)
                       remaining k in
  if negb (completion_result (dv k) =? VDO_SUCCESS) || (remaining =? 0)
  then
    ((if hasDiscardPermit k
      then emit LimiterReleaseDiscard
           >> modify (set_discard (offset k) (isPartial k) false
                                  remaining)
      else skip)
     >> kvdo_complete_data_kvio) k
  else
    let partial := remaining <? VDO_BLOCK_SIZE in
    let operation :=
      if partial then VIO_READ_MODIFY_WRITE else VIO_WRITE in
    let operation :=
      if requestor_set_fua k then Z.lor operation VIO_FLUSH_AFTER
      else operation in
    (emit ResetBio
     >> modify (set_discard 0 partial (hasDiscardPermit k) remaining)
     >> (if partial then emit SetBioOperationRead else skip)
     >> emit (PrepareDataVIO (wrap64 (logical_lbn (dv k) + 1)) operation
                             (negb partial))
     >> emit EnqueueDataKvio) k.

(** *** Properties *)

(** An event that is not in a list written out. *)
Ltac not_in H :=
  cbn in H;
  repeat match type of H with
         | _ \/ _ => destruct H as [H | H]; [discriminate H |]
         end;
  try contradiction.

(** The two ways a data_vio leaves the compressor. *)
Definition compressed_into_scratch (k : data_kvio) : Prop :=
  compression_data (compression (dv k)) = scratch_block
  /\ 0 < compression_size (compression (dv k)) <= VDO_BLOCK_SIZE.

Definition uncompressible (k : data_kvio) : Prop :=
  compression_size (compression (dv k)) = VDO_BLOCK_SIZE + 1.

(** C5: when [compressDataVIO] and the work it launches are done, the
    data_vio is in exactly one of two conditions: compressed, with
    [compression.data] pointing at the scratch block, which holds the
    output of LZ4, and [compression.size] the positive size LZ4
    returned; or marked uncompressible by a size of
    [VDO_BLOCK_SIZE + 1], which is how it ends up when LZ4 returns
    nothing positive.  A discard with discard work remaining is marked
    uncompressible without the compressor being called. *)
Theorem compressDataVIO_outcome (k : data_kvio) :
  let lz4 := LZ4_compress_ctx_limitedOutput
               (data_block_bytes k) VDO_BLOCK_SIZE VDO_BLOCK_SIZE in
  fst lz4 <= VDO_BLOCK_SIZE ->
  let k' := result_of compressDataVIO k in
  let ev := events_of compressDataVIO k in
  (is_discard_bio (external_io_request_bio k) = true
   /\ 0 < remaining_discard k ->
   uncompressible k' /\ ev = [EnqueueDataVioCallback]
   /\ ~ In LZ4Compress ev
   /\ scratch_block_bytes k' = scratch_block_bytes k)
  /\ (~ (is_discard_bio (external_io_request_bio k) = true
         /\ 0 < remaining_discard k) ->
      ev = [OnCpuQueue CPU_Q_ACTION_COMPRESS_BLOCK; LZ4Compress;
            EnqueueDataVioCallback]
      /\ (0 < fst lz4 ->
          compression_data (compression (dv k')) = scratch_block
          /\ compression_size (compression (dv k')) = fst lz4
          /\ scratch_block_bytes k' = snd lz4)
      /\ (fst lz4 <= 0 -> uncompressible k'))
  /\ ((compressed_into_scratch k' /\ ~ uncompressible k')
      \/ (uncompressible k' /\ ~ compressed_into_scratch k')).
Proof.
  intros lz4 Hlimit k' ev. subst k' ev lz4.
  unfold result_of, events_of, compressDataVIO, kvdo_compress_work,
    compressed_into_scratch, uncompressible, seq, emit, modify;
    cbn beta.
  destruct (LZ4_compress_ctx_limitedOutput _ _ _) as [size compressed].
  cbn [fst snd] in Hlimit |- *. unfold VDO_BLOCK_SIZE in Hlimit |- *.
  destruct (is_discard_bio (external_io_request_bio k)); cbn [andb].
  1: destruct (Z.ltb_spec 0 (remaining_discard k)).
  1: { cbn. split; [intros _ | split; [intros []; split; trivial |]].
       - repeat split. intros H'. not_in H'.
       - right. split; [reflexivity | lia]. }
  all: destruct (Z.ltb_spec 0 size); cbn.
  all: split; [intros [H' H'']; try discriminate H'; lia |].
  all: split; [intros _; repeat split; trivial; lia |].
  all: first [ left; split; [split; trivial; lia | lia]
             | right; split; [reflexivity | lia] ].
Qed.

(** The user bio was completed. *)
Definition acknowledged (ev : list event) : Prop :=
  exists error, In (CompleteBio error) ev.

Lemma kvdo_acknowledge_data_kvio_events k :
  events_of kvdo_acknowledge_data_kvio k
  = match external_io_request_bio k with
    | None => []
    | Some _ =>
        CountBios biosAcknowledged
        :: (if isPartial k then [CountBios biosAcknowledgedPartial]
            else [])
        ++ [CompleteBio (map_to_system_error
                           (completion_result (dv k)))]
    end.
Proof.
  unfold events_of, kvdo_acknowledge_data_kvio, seq, emit, modify, skip.
  destruct (external_io_request_bio k); [| reflexivity].
  cbn. destruct (isPartial k); reflexivity.
Qed.

Lemma kvdo_acknowledge_data_kvio_result k :
  result_of kvdo_acknowledge_data_kvio k
  = match external_io_request_bio k with
    | None => k
    | Some _ => set_external_bio None k
    end.
Proof.
  unfold result_of, kvdo_acknowledge_data_kvio, seq, emit, modify, skip.
  destruct (external_io_request_bio k); [| reflexivity].
  cbn. destruct (isPartial k); reflexivity.
Qed.

Lemma result_of_emit_seq e a k :
  result_of (emit e >> a) k = result_of a k.
Proof. unfold seq, emit, result_of. now destruct (a k). Qed.

Lemma events_of_emit_seq e a k :
  events_of (emit e >> a) k = e :: events_of a k.
Proof. unfold seq, emit, events_of. now destruct (a k). Qed.

Lemma result_of_modify_seq f a k :
  result_of (modify f >> a) k = result_of a (f k).
Proof. unfold seq, modify, result_of. now destruct (a (f k)). Qed.

Lemma events_of_modify_seq f a k :
  events_of (modify f >> a) k = events_of a (f k).
Proof. unfold seq, modify, events_of. now destruct (a (f k)). Qed.

Lemma seq_assoc a b c k : ((a >> b) >> c) k = (a >> (b >> c)) k.
Proof.
  unfold seq. destruct (a k) as [k1 e1]. destruct (b k1) as [k2 e2].
  destruct (c k2) as [k3 e3]. now rewrite app_assoc.
Qed.

Lemma result_of_seq_assoc a b c k :
  result_of ((a >> b) >> c) k = result_of (a >> (b >> c)) k.
Proof. unfold result_of. now rewrite seq_assoc. Qed.

Lemma events_of_seq_assoc a b c k :
  events_of ((a >> b) >> c) k = events_of (a >> (b >> c)) k.
Proof. unfold events_of. now rewrite seq_assoc. Qed.

Ltac fold_actions k :=
  repeat match goal with
         | |- context [fst (?a k)] =>
             change (fst (a k)) with (result_of a k)
         | |- context [snd (?a k)] =>
             change (snd (a k)) with (events_of a k)
         end.

Ltac step_actions :=
  repeat first
    [ rewrite result_of_seq_assoc
    | rewrite events_of_seq_assoc
    | rewrite result_of_emit_seq
    | rewrite events_of_emit_seq
    | rewrite result_of_modify_seq
    | rewrite events_of_modify_seq ].

Lemma seq_events a b k :
  events_of (a >> b) k = events_of a k ++ events_of b (result_of a k).
Proof.
  unfold events_of, result_of, seq.
  destruct (a k) as [k1 e1]; cbn. now destruct (b k1).
Qed.

Lemma seq_result a b k :
  result_of (a >> b) k = result_of b (result_of a k).
Proof.
  unfold result_of, seq.
  destruct (a k) as [k1 e1]; cbn. now destruct (b k1).
Qed.

Lemma kvdo_complete_data_kvio_completes k :
  In AddToBatchProcessor (events_of kvdo_complete_data_kvio k)
  /\ remaining_discard (result_of kvdo_complete_data_kvio k)
     = remaining_discard k.
Proof.
  unfold kvdo_complete_data_kvio, kvdo_acknowledge_then_complete_data_kvio.
  unfold events_of at 1, result_of at 1. cbn beta.
  destruct (_ && _).
  - fold (events_of (emit OnBioAckQueue
                     >> kvdo_acknowledge_data_kvio
                     >> emit AddToBatchProcessor) k).
    fold (result_of (emit OnBioAckQueue
                     >> kvdo_acknowledge_data_kvio
                     >> emit AddToBatchProcessor) k).
    rewrite !seq_events, !seq_result, kvdo_acknowledge_data_kvio_result.
    split.
    + rewrite !in_app_iff. right. right. now left.
    + cbn. now destruct (external_io_request_bio k).
  - split; [now left | reflexivity].
Qed.

(** C7: for a discard, [acknowledgeDataVIO] completes the user bio only
    if what remains to be discarded ends within the block of this VIO,
    and otherwise does nothing but invoke the callback again;
    [kvdo_continue_discard_kvio] takes the part of the discard that lay
    in this block off [remaining_discard], completes the VIO exactly
    when an error was recorded or nothing remains, and otherwise
    prepares the VIO for the next logical block and puts it back on the
    request queue, without completing the user bio. *)
Theorem discard_acknowledged_when_done (k : data_kvio) :
  0 <= offset k <= VDO_BLOCK_SIZE ->
  0 <= remaining_discard k < 2 ^ 32 ->
  (is_discard_bio (external_io_request_bio k) = true ->
   (VDO_BLOCK_SIZE - offset k < remaining_discard k ->
    acknowledgeDataVIO k = (k, [InvokeCallback]))
   /\ (acknowledged (events_of acknowledgeDataVIO k) ->
       remaining_discard k <= VDO_BLOCK_SIZE - offset k)
   /\ (remaining_discard k <= VDO_BLOCK_SIZE - offset k ->
       In (CompleteBio (map_to_system_error (completion_result (dv k))))
          (events_of acknowledgeDataVIO k)))
  /\ (let k' := result_of kvdo_continue_discard_kvio k in
      let ev := events_of kvdo_continue_discard_kvio k in
      let remaining :=
        remaining_discard k
        - Z.min (remaining_discard k) (VDO_BLOCK_SIZE - offset k) in
      remaining_discard k' = remaining
      /\ (In AddToBatchProcessor ev
          <-> completion_result (dv k) <> VDO_SUCCESS \/ remaining = 0)
      /\ (~ (completion_result (dv k) <> VDO_SUCCESS \/ remaining = 0) ->
          exists operation,
            In (PrepareDataVIO (wrap64 (logical_lbn (dv k) + 1))
                               operation
                               (negb (remaining <? VDO_BLOCK_SIZE))) ev
            /\ In EnqueueDataKvio ev
            /\ offset k' = 0
            /\ isPartial k' = (remaining <? VDO_BLOCK_SIZE)
            /\ ~ acknowledged ev)).
Proof.
  intros Hoff Hrem.
  assert (Hw : wrap32 (VDO_BLOCK_SIZE - offset k)
               = VDO_BLOCK_SIZE - offset k).
  { apply wrap_small. unfold VDO_BLOCK_SIZE in *. lia. }
  split.
  - intros Hdiscard. unfold acknowledged, events_of, acknowledgeDataVIO.
    rewrite Hdiscard, Hw. cbn [andb].
    destruct (Z.ltb_spec (VDO_BLOCK_SIZE - offset k)
                         (remaining_discard k)) as [Hlt | Hge].
    + split; [reflexivity |]. split; [| lia].
      intros [e [He | []]]. discriminate He.
    + split; [lia |]. split; [trivial |]. intros _.
      destruct (external_io_request_bio k) as [b |] eqn:Hbio;
        [| discriminate].
      unfold kvdo_acknowledge_data_kvio_then_continue.
      destruct (use_bio_ack_queue (layer k)).
      * fold (events_of (emit OnBioAckQueue
                         >> kvdo_acknowledge_data_kvio
                         >> emit EnqueueDataVioCallback) k).
        rewrite !seq_events, kvdo_acknowledge_data_kvio_events.
        cbn [result_of emit fst]. rewrite Hbio.
        rewrite !in_app_iff. right. left. right.
        rewrite in_app_iff. right. now left.
      * fold (events_of (kvdo_acknowledge_data_kvio
                         >> emit EnqueueDataVioCallback) k).
        rewrite !seq_events, kvdo_acknowledge_data_kvio_events, Hbio.
        rewrite !in_app_iff. left. right.
        rewrite in_app_iff. right. now left.
  - cbn zeta.
    unfold result_of, events_of, kvdo_continue_discard_kvio, DiscardSize.
    rewrite Hw.
    set (remaining := remaining_discard k
                      - Z.min (remaining_discard k)
                              (VDO_BLOCK_SIZE - offset k)).
    assert (Hr : wrap32 remaining = remaining).
    { apply wrap_small. subst remaining. unfold VDO_BLOCK_SIZE in *.
      lia. }
    rewrite Hr. cbn [completion_result dv set_discard hasDiscardPermit].
    assert (Hcomplete :
      forall a k0,
        remaining_discard (result_of a k0) = remaining ->
        remaining_discard (fst ((a >> kvdo_complete_data_kvio) k0))
        = remaining
        /\ In AddToBatchProcessor
              (snd ((a >> kvdo_complete_data_kvio) k0))).
    { intros a k0 Ha.
      fold (result_of (a >> kvdo_complete_data_kvio) k0).
      fold (events_of (a >> kvdo_complete_data_kvio) k0).
      rewrite seq_result, seq_events, in_app_iff.
      destruct (kvdo_complete_data_kvio_completes (result_of a k0))
        as [H1 H2].
      split; [congruence | now right]. }
    destruct (Z.eqb_spec (completion_result (dv k)) VDO_SUCCESS)
      as [Hok | Herr]; cbn [negb orb].
    1: destruct (Z.eqb_spec remaining 0) as [Hz | Hnz].
    1, 3: match goal with
          | |- context [fst ((?a >> kvdo_complete_data_kvio) ?k0)] =>
              destruct (Hcomplete a k0) as [H1 H2];
              [destruct (hasDiscardPermit k); reflexivity |]
          end;
          split; [exact H1 |];
          (split; [split; [auto | intros _; exact H2] |]);
          intros Hn; exfalso; apply Hn; auto.
    destruct (remaining <? VDO_BLOCK_SIZE),
             (requestor_set_fua _); cbn.
    all: split; [reflexivity |].
    all: split;
      [split; [intros H; not_in H
              | intros [H | H]; contradiction] |].
    all: intros _; eexists; repeat split; cbn; auto 8.
    all: intros [e H]; not_in H.
Qed.

(** Acknowledging leaves the read block and the buffers alone. *)
Definition same_read (k k' : data_kvio) : Prop :=
  rd k' = rd k /\ scratch_block_bytes k' = scratch_block_bytes k
  /\ dv k' = dv k.

Lemma same_read_refl k : same_read k k.
Proof. repeat split. Qed.

Lemma kvdo_acknowledge_data_kvio_same k :
  same_read k (result_of kvdo_acknowledge_data_kvio k).
Proof.
  rewrite kvdo_acknowledge_data_kvio_result.
  destruct (external_io_request_bio k); repeat split.
Qed.

Lemma acknowledgeDataVIO_same k :
  same_read k (result_of acknowledgeDataVIO k).
Proof.
  unfold result_of, acknowledgeDataVIO,
    kvdo_acknowledge_data_kvio_then_continue.
  destruct (_ && _); [apply same_read_refl |].
  destruct (use_bio_ack_queue (layer k)).
  - fold (result_of (emit OnBioAckQueue
                     >> kvdo_acknowledge_data_kvio
                     >> emit EnqueueDataVioCallback) k).
    rewrite !seq_result. apply kvdo_acknowledge_data_kvio_same.
  - fold (result_of (kvdo_acknowledge_data_kvio
                     >> emit EnqueueDataVioCallback) k).
    rewrite !seq_result. apply kvdo_acknowledge_data_kvio_same.
Qed.

Lemma copy_read_block_data_same k :
  same_read k (result_of copy_read_block_data k).
Proof.
  unfold result_of, copy_read_block_data.
  destruct (isReadModifyWriteVIO (dv k)); [apply same_read_refl |].
  destruct (isPartial k); [apply same_read_refl |].
  match goal with
  | |- same_read _ (fst ((?a >> ?b) k)) =>
      fold (result_of (a >> b) k)
  end.
  rewrite seq_result. apply (acknowledgeDataVIO_same k).
Qed.

(** The callback of a read block whose read went well hands the data
    on; the callback of one whose read failed records the status in the
    completion and copies nothing. *)
Lemma read_data_kvio_read_block_callback_ok k :
  rb_status (rd k) = VDO_SUCCESS ->
  same_read k (result_of read_data_kvio_read_block_callback k).
Proof.
  intros Hok. unfold result_of, read_data_kvio_read_block_callback.
  rewrite Hok. cbn [Z.eqb VDO_SUCCESS negb].
  match goal with
  | |- same_read _ (fst ((?a >> ?b) k)) =>
      fold (result_of (a >> b) k)
  end.
  rewrite seq_result. apply (copy_read_block_data_same k).
Qed.

Lemma read_data_kvio_read_block_callback_failed k :
  rb_status (rd k) <> VDO_SUCCESS ->
  read_data_kvio_read_block_callback k
  = (set_dv (set_result (set_completion_result
                           (completion_result (dv k))
                           (rb_status (rd k)))) k,
     [EnqueueDataVioCallback]).
Proof.
  intros Hfailed. unfold read_data_kvio_read_block_callback.
  destruct (Z.eqb_spec (rb_status (rd k)) VDO_SUCCESS); [contradiction |].
  reflexivity.
Qed.

(** Modelled from the spec: get_compressed_block_fragment
    (compressedBlock.c) is not among the sources.  A compressed block whose
    header is malformed is rejected with [INVALID_FRAGMENT], and that is
    the only way the header check fails. *)
Definition rejects_with_invalid_fragment
           (f : BlockMappingState -> list Z -> Z -> Z * Z * Z) : Prop :=
  forall mapping_state block block_size,
    fst (fst (f mapping_state block block_size)) = VDO_SUCCESS
    \/ fst (fst (f mapping_state block block_size)) = VDO_INVALID_FRAGMENT.

Hypothesis fragment_status :
  rejects_with_invalid_fragment get_compressed_block_fragment.
Hypothesis invalid_fragment_is_error :
  VDO_INVALID_FRAGMENT <> VDO_SUCCESS.

(** What [uncompress_read_block] leaves behind when it calls back the
    reader of a compressed block. *)
Lemma uncompress_read_block_spec k :
  rb_callback (rd k) = read_data_kvio_read_block_callback_fn ->
  rb_status (rd k) = VDO_SUCCESS ->
  let block := deref (rb_data (rd k)) k in
  let frag := get_compressed_block_fragment
                (rb_mapping_state (rd k)) block VDO_BLOCK_SIZE in
  let lz4 := LZ4_uncompress_unknownOutputSize
               (drop (Z.to_nat (snd (fst frag))) block) (snd frag)
               VDO_BLOCK_SIZE in
  let k' := result_of uncompress_read_block k in
  let ev := events_of uncompress_read_block k in
  rb_mapping_state (rd k') = rb_mapping_state (rd k)
  /\ (fst (fst frag) <> VDO_SUCCESS \/ fst lz4 <> VDO_BLOCK_SIZE ->
   rb_status (rd k') = VDO_INVALID_FRAGMENT
   /\ completion_result (dv k')
      = set_completion_result (completion_result (dv k))
                              VDO_INVALID_FRAGMENT
   /\ (forall data, ~ In (BioCopyDataOut data) ev)
   /\ ~ acknowledged ev)
  /\ (fst (fst frag) = VDO_SUCCESS /\ fst lz4 = VDO_BLOCK_SIZE ->
      rb_status (rd k') = VDO_SUCCESS
      /\ rb_data (rd k') = scratch_block
      /\ scratch_block_bytes k' = snd lz4
      /\ completion_result (dv k') = completion_result (dv k)).
Proof using Type*.
  intros Hcb Hst block frag lz4 k' ev. subst k' ev.
  unfold result_of, events_of, uncompress_read_block.
  fold block. fold frag.
  pose proof (fragment_status (rb_mapping_state (rd k)) block
                              VDO_BLOCK_SIZE) as Hfrag.
  fold frag in Hfrag.
  destruct frag as [[result fragment_offset] fragment_size] eqn:Efrag.
  cbn [fst snd] in *. rewrite Hcb. cbn [call_read_block_callback].
  destruct (Z.eqb_spec result VDO_SUCCESS) as [Hr | Hr]; cbn [negb].
  - fold lz4. destruct lz4 as [size uncompressed] eqn:Elz4.
    cbn [fst snd] in *.
    destruct (Z.eqb_spec size VDO_BLOCK_SIZE) as [Hs | Hs].
    + fold_actions k. step_actions.
      set (k1 := set_rd (set_rb_data scratch_block)
                        (set_scratch_block uncompressed k)).
      destruct (read_data_kvio_read_block_callback_ok k1 Hst)
        as (Hrd & Hscratch & Hdv).
      rewrite Hrd, Hscratch, Hdv.
      split; [reflexivity |].
      split; [intros [H | H]; contradiction |]. intros _.
      repeat split. exact Hst.
    + fold_actions k. step_actions. unfold result_of, events_of.
      rewrite read_data_kvio_read_block_callback_failed
        by (cbn; exact invalid_fragment_is_error).
      cbn. split; [reflexivity |].
      split; [intros _ | intros [_ H]; contradiction].
      repeat split.
      * intros data H; not_in H.
      * intros [e H]; not_in H.
  - destruct Hfrag as [Hfrag | Hfrag]; [contradiction |]. subst result.
    fold_actions k. step_actions. unfold result_of, events_of.
    rewrite read_data_kvio_read_block_callback_failed
      by (cbn; exact invalid_fragment_is_error).
    cbn. split; [reflexivity |].
    split; [intros _ | intros [H _]; contradiction].
    repeat split.
    + intros data H; not_in H.
    + intros [e H]; not_in H.
Qed.

Lemma events_of_assert_log_only b message k e :
  In e (events_of (assert_log_only b message) k) ->
  e = AssertionFailed message.
Proof. destruct b; cbn; intros H; [destruct H | destruct H as [<- | []]]; reflexivity. Qed.

Lemma result_of_assert_log_only b message k :
  result_of (assert_log_only b message) k = k.
Proof. now destruct b. Qed.

(** A read that failed on the device goes straight to the callback. *)
Lemma complete_read_failed status k :
  rb_callback (rd k) = read_data_kvio_read_block_callback_fn ->
  status <> VDO_SUCCESS ->
  complete_read status k
  = (set_dv (set_result (set_completion_result
                           (completion_result (dv k)) status))
            (set_rd (set_rb_status status) k),
     [EnqueueDataVioCallback]).
Proof.
  intros Hcb Hst. unfold complete_read.
  destruct (Z.eqb_spec status VDO_SUCCESS); [contradiction |].
  cbn [andb]. rewrite Hcb. cbn [call_read_block_callback].
  unfold seq, modify.
  rewrite read_data_kvio_read_block_callback_failed by (cbn; assumption).
  reflexivity.
Qed.

(** A compressed block that was read goes to the CPU queue to be
    uncompressed. *)
Lemma complete_read_compressed k :
  is_compressed (rb_mapping_state (rd k)) = true ->
  complete_read VDO_SUCCESS k
  = (result_of uncompress_read_block
               (set_rd (set_rb_status VDO_SUCCESS) k),
     OnCpuQueue CPU_Q_ACTION_COMPRESS_BLOCK
     :: events_of uncompress_read_block
                  (set_rd (set_rb_status VDO_SUCCESS) k)).
Proof.
  intros Hc. unfold complete_read. rewrite Hc. cbn [Z.eqb VDO_SUCCESS andb].
  unfold seq, modify, emit, result_of, events_of.
  now destruct (uncompress_read_block _).
Qed.

(** The compressed path of [readDataVIO], up to the point where the
    device has read the block into the buffer of the read block. *)
Definition read_block_filled (k : data_kvio) (bytes : list Z)
  : data_kvio :=
  set_rd (set_rb_data read_block_buffer)
    (set_read_block_buffer bytes
       (set_rd (fun r =>
                  {| rb_callback := read_data_kvio_read_block_callback_fn;
                     rb_status := VDO_SUCCESS;
                     rb_mapping_state := state (mapped (dv k));
                     rb_data := rb_data r |}) k)).

Lemma readDataVIO_compressed k status bytes :
  is_compressed (state (mapped (dv k))) = true ->
  device_read (block_to_sector (pbn (mapped (dv k)))) = (status, bytes) ->
  readDataVIO k
  = (result_of (complete_read status) (read_block_filled k bytes),
     events_of (assert_log_only (negb (isWriteVIO (dv k)))
                                "operation set correctly for data read")
               k
     ++ ResetBio
     :: SubmitBio read_block_bio (block_to_sector (pbn (mapped (dv k))))
                  BIO_Q_ACTION_COMPRESSED_DATA read_bio_callback_fn
     :: events_of (complete_read status) (read_block_filled k bytes)).
Proof.
  intros Hc Hdev.
  rewrite (surjective_pairing (readDataVIO k)).
  unfold readDataVIO. cbn beta zeta. rewrite Hc.
  fold_actions k.
  rewrite !seq_events, !seq_result, !result_of_assert_log_only.
  unfold kvdo_read_block, vdo_submit_bio. step_actions.
  rewrite Hdev. unfold read_bio_callback. step_actions.
  reflexivity.
Qed.


End DataKVIO.

(** *** A concrete instance

    A run-length code stands in for LZ4: a block of equal bytes is
    compressed to the byte and the length, anything else is left
    uncompressed. *)
Definition sample_invalid_fragment : Z := 2001.

Definition example_compress (source : list Z) (isize max_output : Z)
  : Z * list Z :=
  match source with
  | [] => (0, [])
  | b :: rest =>
      if forallb (Z.eqb b) rest
      then (2, [b; Z.of_nat (length source)])
      else (0, [])
  end.

Definition example_uncompress (source : list Z) (isize max_output : Z)
  : Z * list Z :=
  match source with
  | b :: n :: _ =>
      if n <=? max_output then (n, repeat b (Z.to_nat n)) else (-1, [])
  | _ => (-1, [])
  end.

Definition example_fragment (mapping_state : BlockMappingState)
           (block : list Z) (block_size : Z) : Z * Z * Z :=
  if is_compressed mapping_state
  then (VDO_SUCCESS, 0, 2)
  else (sample_invalid_fragment, 0, 0).

Definition example_device_read (sector : Z) : Z * list Z :=
  (VDO_SUCCESS, [171; 4096]).

Definition example_is_write (v : data_vio) : bool :=
  Z.testbit (operation v) 1.

Definition example_is_read_modify_write (v : data_vio) : bool :=
  Z.land (operation v) 3 =? 3.

Definition example_set_completion_result (current new : Z) : Z :=
  if current =? VDO_SUCCESS then new else current.

Definition example_requestor_set_fua (k : data_kvio) : bool :=
  match external_io_request_bio k with
  | Some b => bio_fua b
  | None => false
  end.

Definition example_data_vio : data_vio :=
  {| mapped := {| pbn := 5; state := MAPPING_STATE_COMPRESSED_BASE |};
     newMapped := {| pbn := 0; state := MAPPING_STATE_UNMAPPED |};
     compression := {| compression_data := NULL; compression_size := 0 |};
     isZeroBlock := false; logical_lbn := 7; operation := 1;
     completion_result := VDO_SUCCESS |}.

Definition example_kvio (b : bio) (remaining : Z) : data_kvio :=
  {| dv := example_data_vio;
     layer := {| bio_ack_queue := false |};
     external_io_request_bio := Some b;
     kvio_bio_end_io := None; kvio_bio_sector := 0;
     rd := {| rb_callback := external_callback "none";
              rb_status := VDO_SUCCESS;
              rb_mapping_state := MAPPING_STATE_UNMAPPED;
              rb_data := NULL |};
     offset := 0; isPartial := false; hasDiscardPermit := true;
     remaining_discard := remaining;
     data_block_bytes := repeat 171 4096;
     scratch_block_bytes := [];
     read_block_buffer_bytes := [] |}.

Definition example_read_bio : bio :=
  {| bio_op := REQ_OP_READ; bio_fua := false; bi_sector := 56;
     bi_size := 4096 |}.

Definition example_write_bio : bio :=
  {| bio_op := REQ_OP_WRITE; bio_fua := false; bi_sector := 56;
     bi_size := 4096 |}.

Definition example_discard_bio : bio :=
  {| bio_op := REQ_OP_DISCARD; bio_fua := false; bi_sector := 56;
     bi_size := 10240 |}.

Lemma compressDataVIO_outcome_witness :
  let k' := result_of (compressDataVIO example_compress)
                      (example_kvio example_write_bio 0) in
  compression_data (compression (dv k')) = scratch_block
  /\ compression_size (compression (dv k')) = 2
  /\ scratch_block_bytes k' = [171; 4096].
Proof.
  refine (proj1 (proj2 (proj1 (proj2
           (compressDataVIO_outcome example_compress
              (example_kvio example_write_bio 0) _)) _)) _).
  - vm_compute. discriminate.
  - intros [H _]. discriminate H.
  - vm_compute. reflexivity.
Defined.


Lemma discard_acknowledged_when_done_witness :
  let k := example_kvio example_discard_bio 10240 in
  acknowledgeDataVIO (fun r => - r) k = (k, [InvokeCallback])
  /\ remaining_discard
       (result_of (kvdo_continue_discard_kvio 2 3 8 false (fun r => - r)
                                              example_requestor_set_fua) k)
     = 6144.
Proof.
  pose proof (discard_acknowledged_when_done
                2 3 8 false (fun r => - r) example_requestor_set_fua
                (example_kvio example_discard_bio 10240)) as H.
  destruct H as [Hack Hcontinue].
  - cbn. unfold VDO_BLOCK_SIZE. lia.
  - cbn. lia.
  - split.
    + apply (proj1 (Hack eq_refl)). cbn. unfold VDO_BLOCK_SIZE. lia.
    + exact (proj1 Hcontinue).
Defined.

End DataKVIO.

(** * src/vdo/base/lockCounter.c: laws of the counters *)
Module LockCounterLaws.
Import Permassert LockCounter.

(** The array of per-zone counters and the array of totals of a zone
    type, as [get_counter] and [get_zone_count_ptr] choose them. *)
Definition counters_of (t : ZoneType) : array :=
  match t with
  | ZONE_TYPE_JOURNAL => JournalCounters
  | ZONE_TYPE_LOGICAL => LogicalCounters
  | ZONE_TYPE_PHYSICAL => PhysicalCounters
  end.

Definition totals_of (t : ZoneType) : array :=
  match t with
  | ZONE_TYPE_LOGICAL => LogicalZoneCounts
  | _ => PhysicalZoneCounts
  end.

Definition counter_pointer (c : lock_counter) (n : Z) (t : ZoneType)
           (z : Z) : pointer :=
  (counters_of t, Z.to_nat (wrap64 (locks c * z + n))).

Definition total_pointer (n : Z) (t : ZoneType) : pointer :=
  (totals_of t, Z.to_nat n).

Definition in_array (p : pointer) (c : lock_counter) : Prop :=
  (snd p < length (get_array (fst p) c))%nat.

(** The lock counter after [acquire_lock_count_reference]. *)
Definition acquired (c : lock_counter) (n : Z) (t : ZoneType) (z : Z)
  : lock_counter :=
  let ptr := counter_pointer c n t z in
  let p := total_pointer n t in
  let v := load ptr c in
  let c1 := if v =? 0 then store p (wrap32 (load p c + 1)) c else c in
  store ptr (wrap16 (v + 1)) c1.

Definition zones_of (t : ZoneType) (c : lock_counter) : Z :=
  match t with
  | ZONE_TYPE_LOGICAL => logical_zones c
  | _ => physical_zones c
  end.

(** The number of zones below [zones] that satisfy [held]. *)
Fixpoint count_holders (held : nat -> bool) (zones : nat) : nat :=
  match zones with
  | O => O
  | S z => ((if held z then 1 else 0) + count_holders held z)%nat
  end.

(** Zone [z] of type [t] holds lock [n]: its counter is not zero. *)
Definition holds (c : lock_counter) (n : Z) (t : ZoneType) (z : nat)
  : bool :=
  negb (load (counter_pointer c n t (Z.of_nat z)) c =? 0).

Definition holders (c : lock_counter) (n : Z) (t : ZoneType) : nat :=
  count_holders (holds c n t) (Z.to_nat (zones_of t c)).

(** The arrays of a zone type have the sizes [make_lock_counter] gives
    them, and the index of a counter fits the 64 bits of a
    [BlockCount]. *)
Record well_sized (t : ZoneType) (c : lock_counter) : Prop :=
  Build_well_sized {
    ws_locks : 0 <= locks c;
    ws_zones : 0 <= zones_of t c < 2 ^ 32;
    ws_index : locks c * zones_of t c <= 2 ^ 64;
    ws_counters :
      length (get_array (counters_of t) c)
      = Z.to_nat (locks c * zones_of t c);
    ws_totals :
      length (get_array (totals_of t) c) = Z.to_nat (locks c)
  }.

(** The total of a zone type for each lock is the number of zones of the
    type that hold the lock. *)
Definition consistent (t : ZoneType) (c : lock_counter) : Prop :=
  forall n, 0 <= n < locks c ->
            load (total_pointer n t) c = Z.of_nat (holders c n t).

(** Every counter of the zone type holds a [uint16_t]. *)
Definition bounded_list (l : list Z) : Prop :=
  forall i, (i < length l)%nat -> 0 <= array_get l i <= UINT16_MAX.

Definition bounded (t : ZoneType) (c : lock_counter) : Prop :=
  bounded_list (get_array (counters_of t) c).

(** What the lock counter keeps for the zones of one type. *)
Record invariant (t : ZoneType) (c : lock_counter) : Prop :=
  Build_invariant {
    inv_sized : well_sized t c;
    inv_consistent : consistent t c;
    inv_bounded : bounded t c
  }.

(** The part of the lock counter that belongs to one zone type. *)
Definition same_zone_data (t : ZoneType) (c c' : lock_counter) : Prop :=
  get_array (counters_of t) c' = get_array (counters_of t) c
  /\ get_array (totals_of t) c' = get_array (totals_of t) c
  /\ locks c' = locks c
  /\ zones_of t c' = zones_of t c.

(** The log only grows. *)
Definition log_grows {A} (m : M A) : Prop :=
  forall s, exists l, log (snd (m s)) = log s ++ l.

(** The calls of zone threads, in order, each on its own thread. *)
Definition exec_calls (code : Z) (calls : list (Z * call)) (s : state)
  : state :=
  fold_left (fun s k => exec (run code (snd k)) (on_thread (fst k) s))
            calls s.

(** The indices a call passes are those of a lock and of a zone. *)
Definition in_range (c : lock_counter) (k : call) : Prop :=
  match k with
  | AcquireLockCountReference n t z
  | ReleaseLockCountReference n t z =>
      0 <= n < locks c /\ 0 <= z < zones_of t c
  | InitializeLockCount n _
  | ReleaseJournalZoneReference n
  | ReleaseJournalZoneReferenceFromOtherZone n
  | IsLocked n _ => 0 <= n < locks c
  end.

(** The releases of the journal zone's references to lock [n] among the
    calls: those the journal zone makes itself, and those other zones
    make on its behalf. *)
Fixpoint own_releases (n : Z) (calls : list (Z * call)) : Z :=
  match calls with
  | [] => 0
  | (_, ReleaseJournalZoneReference m) :: rest =>
      (if m =? n then 1 else 0) + own_releases n rest
  | _ :: rest => own_releases n rest
  end.

Fixpoint batched_releases (n : Z) (calls : list (Z * call)) : Z :=
  match calls with
  | [] => 0
  | (_, ReleaseJournalZoneReferenceFromOtherZone m) :: rest =>
      (if m =? n then 1 else 0) + batched_releases n rest
  | _ :: rest => batched_releases n rest
  end.

(** A call that releases a reference of the journal zone to lock [n]. *)
Definition journal_release (n : Z) (k : call) : Prop :=
  k = ReleaseJournalZoneReference n
  \/ k = ReleaseJournalZoneReferenceFromOtherZone n.

Section Laws.
Variable UDS_ASSERTION_FAILED : Z.
Set Default Proof Using "Type".


Ltac run_monad :=
  unfold exec, eval, bind, ret, read_counter, update_counter, with_log,
    getCallbackThreadID in *; cbn in *.

Lemma eval_get_counter s n t z :
  eval (get_counter n t z) s = counter_pointer (counter s) n t z.
Proof. destruct t; reflexivity. Qed.

Lemma eval_get_zone_count_ptr s n t :
  eval (get_zone_count_ptr n t) s = total_pointer n t.
Proof. destruct t; reflexivity. Qed.

Lemma acquire_effect s n t z :
  let s' := exec (acquire_lock_count_reference UDS_ASSERTION_FAILED n t z) s in
  counter s' = acquired (counter s) n t z
  /\ journal_thread_queue s' = journal_thread_queue s
  /\ current_thread s' = current_thread s.
Proof.
  cbn zeta.
  unfold acquire_lock_count_reference, get_counter, get_zone_count_ptr,
    atomicAdd32, assert_log_only, acquired, counter_pointer, total_pointer.
  destruct s as [c lg th q]. run_monad.
  destruct t; cbn;
    match goal with
    | |- context [load ?ptr c =? 0] => destruct (load ptr c =? 0)
    end; cbn; repeat split.
Qed.

Lemma count_holders_ext f g zones :
  (forall z, (z < zones)%nat -> f z = g z) ->
  count_holders f zones = count_holders g zones.
Proof.
  induction zones as [| k IH]; intros H; [reflexivity |].
  cbn. rewrite (H k) by lia. rewrite IH; [reflexivity |].
  intros z Hz. apply H. lia.
Qed.

Lemma count_holders_update f g zones z0 :
  (z0 < zones)%nat ->
  (forall z, (z < zones)%nat -> z <> z0 -> f z = g z) ->
  (count_holders g zones + (if f z0 then 1 else 0)
   = count_holders f zones + (if g z0 then 1 else 0))%nat.
Proof.
  induction zones as [| k IH]; intros Hz0 H; [lia |].
  cbn. destruct (Nat.eq_dec z0 k) as [-> | Hne].
  - rewrite (count_holders_ext f g k); [lia |].
    intros z Hz. apply H; lia.
  - rewrite (H k) by lia.
    assert (Hk : (z0 < k)%nat) by lia.
    specialize (IH Hk (fun z Hz Hn => H z ltac:(lia) Hn)). lia.
Qed.

Lemma count_holders_le f zones : (count_holders f zones <= zones)%nat.
Proof. induction zones; cbn; [lia |]. destruct (f zones); lia. Qed.

(** The index of a counter: no wrap-around, inside the array, and
    different for different zones or locks. *)
Lemma counter_index t c n z :
  well_sized t c -> 0 <= n < locks c -> 0 <= z < zones_of t c ->
  wrap64 (locks c * z + n) = locks c * z + n
  /\ 0 <= locks c * z + n < locks c * zones_of t c.
Proof.
  intros [Hl Hz Hi _ _] Hn Hzz.
  assert (0 <= locks c * z + n < locks c * zones_of t c) by nia.
  split; [| assumption]. apply wrap_small. lia.
Qed.

Lemma counter_pointer_in_array t c n z :
  well_sized t c -> 0 <= n < locks c -> 0 <= z < zones_of t c ->
  in_array (counter_pointer c n t z) c.
Proof.
  intros Hws Hn Hz. destruct (counter_index t c n z Hws Hn Hz) as [Hw Hr].
  unfold in_array, counter_pointer; cbn [fst snd].
  rewrite Hw, (ws_counters t c Hws). lia.
Qed.

Lemma counter_pointer_inj t c n n' z z' :
  well_sized t c ->
  0 <= n < locks c -> 0 <= z < zones_of t c ->
  0 <= n' < locks c -> 0 <= z' < zones_of t c ->
  snd (counter_pointer c n t z) = snd (counter_pointer c n' t z') ->
  n = n' /\ z = z'.
Proof.
  intros Hws Hn Hz Hn' Hz' H.
  destruct (counter_index t c n z Hws Hn Hz) as [Hw Hr].
  destruct (counter_index t c n' z' Hws Hn' Hz') as [Hw' Hr'].
  unfold counter_pointer in H; cbn [snd] in H. rewrite Hw, Hw' in H.
  apply Z2Nat.inj in H; [| lia | lia].
  assert (z = z') as ->.
  { destruct (Z.lt_trichotomy z z') as [Hlt | [Heq | Hgt]]; [| exact Heq |].
    - assert (locks c * (z + 1) <= locks c * z') by nia. lia.
    - assert (locks c * (z' + 1) <= locks c * z) by nia. lia. }
  split; [lia | reflexivity].
Qed.

Lemma count_holders_lt f zones z0 :
  (z0 < zones)%nat -> f z0 = false ->
  (count_holders f zones < zones)%nat.
Proof.
  induction zones as [| k IH]; intros Hz0 Hf; [lia |].
  cbn. destruct (Nat.eq_dec z0 k) as [-> | Hne].
  - rewrite Hf. pose proof (count_holders_le f k). lia.
  - specialize (IH ltac:(lia) Hf). destruct (f k); lia.
Qed.

Lemma count_holders_pos f zones z0 :
  (z0 < zones)%nat -> f z0 = true -> (1 <= count_holders f zones)%nat.
Proof.
  induction zones as [| k IH]; intros Hz0 Hf; [lia |].
  cbn. destruct (Nat.eq_dec z0 k) as [-> | Hne].
  - rewrite Hf. lia.
  - specialize (IH ltac:(lia) Hf). lia.
Qed.

Lemma array_get_insert_other (l : list Z) (i j : nat) (v : Z) :
  i <> j -> array_get (<[ i := v ]> l) j = array_get l j.
Proof.
  intros Hij. unfold array_get. now rewrite list_lookup_insert_ne.
Qed.

Definition b2z (b : bool) : Z := if b then 1 else 0.

(** One counter is replaced by [w] and the total of its lock moves with
    it: the totals still count the holders. *)
Lemma consistent_update t c c' n0 z0 w :
  well_sized t c -> consistent t c ->
  0 <= n0 < locks c -> 0 <= z0 < zones_of t c ->
  locks c' = locks c -> zones_of t c' = zones_of t c ->
  get_array (counters_of t) c'
  = <[ snd (counter_pointer c n0 t z0) := w ]>
      (get_array (counters_of t) c) ->
  length (get_array (totals_of t) c')
  = length (get_array (totals_of t) c) ->
  (forall n, 0 <= n < locks c -> n <> n0 ->
             load (total_pointer n t) c' = load (total_pointer n t) c) ->
  load (total_pointer n0 t) c'
  + b2z (negb (load (counter_pointer c n0 t z0) c =? 0))
  = load (total_pointer n0 t) c + b2z (negb (w =? 0)) ->
  well_sized t c' /\ consistent t c'.
Proof.
  intros Hws Hcons Hn0 Hz0 Hlocks Hzones Hcounters Hlen Hother Hsame.
  assert (Hws' : well_sized t c').
  { destruct Hws as [H1 H2 H3 H4 H5].
    constructor; rewrite ?Hlocks, ?Hzones, ?Hcounters, ?length_insert, ?Hlen;
      assumption. }
  split; [exact Hws' |].
  assert (Hz0n : (Z.to_nat z0 < Z.to_nat (zones_of t c))%nat) by lia.
  assert (Hholds : forall n z,
             0 <= n < locks c -> (z < Z.to_nat (zones_of t c))%nat ->
             (n <> n0 \/ z <> Z.to_nat z0) ->
             holds c' n t z = holds c n t z).
  { intros n z Hn Hz Hne. unfold holds, load. cbn [fst snd counter_pointer].
    rewrite Hcounters, Hlocks. rewrite array_get_insert_other; [reflexivity |].
    intros Heq.
    destruct (counter_pointer_inj t c n0 n z0 (Z.of_nat z) Hws)
      as [H1 H2]; try lia.
    exact Heq. }
  intros n Hn. rewrite Hlocks in Hn. unfold holders. rewrite Hzones.
  destruct (Z.eq_dec n n0) as [-> | Hne].
  - assert (Hupd : (count_holders (holds c' n0 t) (Z.to_nat (zones_of t c))
                    + (if holds c n0 t (Z.to_nat z0) then 1 else 0)
                    = count_holders (holds c n0 t) (Z.to_nat (zones_of t c))
                      + (if holds c' n0 t (Z.to_nat z0) then 1 else 0))%nat).
    { apply count_holders_update; [exact Hz0n |].
      intros z Hz Hzne. symmetry. apply Hholds; auto. }
    assert (Hnew : holds c' n0 t (Z.to_nat z0) = negb (w =? 0)).
    { unfold holds, load. cbn [fst snd counter_pointer].
      rewrite Hcounters, Hlocks, Z2Nat.id by lia.
      rewrite array_get_insert_eq; [reflexivity |].
      apply (counter_pointer_in_array t c n0 z0 Hws Hn0 Hz0). }
    assert (Hold : holds c n0 t (Z.to_nat z0)
                   = negb (load (counter_pointer c n0 t z0) c =? 0)).
    { unfold holds. now rewrite Z2Nat.id by lia. }
    specialize (Hcons n0 Hn). unfold holders in Hcons.
    rewrite Hnew, Hold in Hupd.
    unfold b2z in Hsame.
    destruct (negb (w =? 0)), (negb (load _ c =? 0)); lia.
  - rewrite (Hother n Hn Hne), (Hcons n Hn). unfold holders.
    f_equal. apply count_holders_ext. intros z Hz. symmetry.
    apply Hholds; auto.
Qed.

Lemma notify_arrays c q :
  let c' := fst (notify c q) in
  (forall a, get_array a c' = get_array a c)
  /\ locks c' = locks c
  /\ logical_zones c' = logical_zones c
  /\ physical_zones c' = physical_zones c.
Proof.
  unfold notify. destruct (notifying c); cbn; repeat split;
    intros []; reflexivity.
Qed.

Lemma load_ext c c' p :
  get_array (fst p) c' = get_array (fst p) c -> load p c' = load p c.
Proof. unfold load. now intros ->. Qed.

Lemma load_store_same p v c :
  in_array p c -> load p (store p v c) = v.
Proof.
  intros H. unfold load, store. rewrite get_array_set_array_eq.
  now apply array_get_insert_eq.
Qed.

Lemma load_store_other_index a i j v c :
  i <> j -> load (a, j) (store (a, i) v c) = load (a, j) c.
Proof.
  intros H. unfold load, store. cbn [fst snd].
  rewrite get_array_set_array_eq. now apply array_get_insert_other.
Qed.

Lemma in_array_store p q v c : in_array p c -> in_array p (store q v c).
Proof.
  unfold in_array, store. destruct p as [a i], q as [b j]. cbn [fst snd].
  destruct a, b; cbn; rewrite ?length_insert; trivial.
Qed.

Lemma counters_not_totals t :
  t <> ZONE_TYPE_JOURNAL -> counters_of t <> totals_of t.
Proof. destruct t; intros H; try discriminate; contradiction. Qed.

Lemma total_in_array t c n :
  well_sized t c -> 0 <= n < locks c ->
  (Z.to_nat n < length (get_array (totals_of t) c))%nat.
Proof. intros [H1 H2 H3 H4 H5] Hn. rewrite H5. lia. Qed.

Lemma holders_le t c n :
  Z.of_nat (holders c n t) <= zones_of t c \/ zones_of t c < 0.
Proof.
  unfold holders.
  pose proof (count_holders_le (holds c n t) (Z.to_nat (zones_of t c))).
  lia.
Qed.

(** The log after a call whose assertions hold. *)
Lemma acquire_log s n t z :
  t <> ZONE_TYPE_JOURNAL ->
  load (counter_pointer (counter s) n t z) (counter s) < UINT16_MAX ->
  log (exec (acquire_lock_count_reference UDS_ASSERTION_FAILED n t z) s)
  = log s.
Proof.
  intros Ht Hv. apply Z.ltb_lt in Hv.
  unfold acquire_lock_count_reference, get_counter, get_zone_count_ptr,
    atomicAdd32, LockCounter.assert_log_only, counter_pointer in *.
  destruct s as [c lg th q]. run_monad.
  destruct t; [contradiction | |]; cbn in *; rewrite Hv; cbn;
    match goal with
    | |- context [?v =? 0] => destruct (v =? 0)
    end; reflexivity.
Qed.

Lemma release_log s n t z :
  t <> ZONE_TYPE_JOURNAL ->
  1 <= load (counter_pointer (counter s) n t z) (counter s) ->
  log (exec (release_lock_count_reference UDS_ASSERTION_FAILED n t z) s)
  = log s.
Proof.
  intros Ht Hv. apply Z.leb_le in Hv.
  unfold release_lock_count_reference, release_reference, get_counter,
    get_zone_count_ptr, atomicAdd32, LockCounter.assert_log_only,
    counter_pointer in *.
  destruct s as [c lg th q]. run_monad.
  destruct t; [contradiction | |]; cbn in *; rewrite Hv; cbn;
    match goal with
    | |- context [negb (load ?ptr ?c1 =? 0)] =>
        destruct (load ptr c1 =? 0); cbn; [| reflexivity]
    end;
    match goal with
    | |- context [wrap32 ?x =? 0] =>
        destruct (wrap32 x =? 0); cbn; [| reflexivity]
    end;
    match goal with
    | |- context [attempt_notification ?s0] =>
        change (snd (attempt_notification s0))
          with (exec attempt_notification s0);
        rewrite (attempt_notification_spec s0);
        destruct (notifying (counter s0)); reflexivity
    end.
Qed.

(** While the assertions of [acquire_lock_count_reference] hold, the
    total of every lock of the zone type stays the number of zones of that
    type whose counter for the lock is not zero; the counter of the
    acquiring zone goes up by one and nothing is logged. *)
Lemma acquire_keeps_zone_totals s n t z :
  let c := counter s in
  t <> ZONE_TYPE_JOURNAL ->
  well_sized t c -> consistent t c ->
  0 <= n < locks c -> 0 <= z < zones_of t c ->
  0 <= load (counter_pointer c n t z) c < UINT16_MAX ->
  let s' := exec (acquire_lock_count_reference UDS_ASSERTION_FAILED n t z) s
  in
  well_sized t (counter s') /\ consistent t (counter s')
  /\ load (counter_pointer c n t z) (counter s')
     = load (counter_pointer c n t z) c + 1
  /\ log s' = log s.
Proof.
  intros c Ht Hws Hcons Hn Hz Hv s'.
  destruct (acquire_effect s n t z) as (Hc & _ & _). fold s' c in Hc.
  assert (Hne := counters_not_totals t Ht).
  assert (Hin := counter_pointer_in_array t c n z Hws Hn Hz).
  assert (Htin := total_in_array t c n Hws Hn).
  assert (Hw : wrap16 (load (counter_pointer c n t z) c + 1)
               = load (counter_pointer c n t z) c + 1).
  { apply wrap_small. unfold UINT16_MAX in Hv. lia. }
  assert (Hcounters :
            get_array (counters_of t) (counter s')
            = <[ snd (counter_pointer c n t z)
                 := load (counter_pointer c n t z) c + 1 ]>
                (get_array (counters_of t) c)).
  { rewrite Hc. unfold acquired. rewrite Hw. unfold store.
    cbn [fst snd counter_pointer total_pointer].
    rewrite get_array_set_array_eq.
    destruct (_ =? 0); [| reflexivity].
    now rewrite get_array_set_array_ne by auto. }
  assert (Hrest :
            well_sized t (counter s') /\ consistent t (counter s')).
  { apply (consistent_update t c (counter s') n z
             (load (counter_pointer c n t z) c + 1)); trivial.
    - rewrite Hc. unfold acquired. now destruct (_ =? 0).
    - rewrite Hc. unfold acquired. destruct t, (_ =? 0); reflexivity.
    - rewrite Hc. unfold acquired, store.
      cbn [fst snd counter_pointer total_pointer].
      rewrite get_array_set_array_ne by auto.
      destruct (_ =? 0); [| reflexivity].
      now rewrite get_array_set_array_eq, length_insert.
    - intros n' Hn' Hnn. rewrite Hc. unfold acquired.
      rewrite load_store_other_array by exact Hne.
      destruct (_ =? 0); [| reflexivity].
      unfold load, store. cbn [fst snd total_pointer].
      rewrite get_array_set_array_eq.
      apply array_get_insert_other. lia.
    - rewrite Hc. unfold acquired.
      rewrite load_store_other_array by exact Hne.
      destruct (Z.eqb_spec (load (counter_pointer c n t z) c) 0)
        as [H0 | H0].
      + unfold load at 1, store. cbn [fst snd total_pointer].
        rewrite get_array_set_array_eq, array_get_insert_eq by exact Htin.
        fold (load (total_pointer n t) c).
        rewrite (Hcons n Hn).
        assert (Hlt : (holders c n t < Z.to_nat (zones_of t c))%nat).
        { apply (count_holders_lt _ _ (Z.to_nat z)); [lia |].
          unfold holds. rewrite Z2Nat.id by lia. rewrite H0. reflexivity. }
        destruct Hws as [H1 H2 H3 H4 H5].
        unfold wrap32. rewrite wrap_small by lia.
        rewrite H0. change (b2z (negb true)) with 0.
        change (b2z (negb (0 + 1 =? 0))) with 1. lia.
      + destruct (Z.eqb_spec (load (counter_pointer c n t z) c + 1) 0);
          [lia |]. change (b2z (negb false)) with 1. lia. }
  destruct Hrest as [Hws' Hcons'].
  split; [exact Hws' | split; [exact Hcons' | split]].
  - unfold load at 1.
    change (fst (counter_pointer c n t z)) with (counters_of t).
    rewrite Hcounters. now rewrite array_get_insert_eq by exact Hin.
  - apply acquire_log; [exact Ht | apply Hv].
Qed.

(** The arrays after [release_lock_count_reference]. *)
Definition released (c : lock_counter) (n : Z) (t : ZoneType) (z : Z)
  : lock_counter :=
  let ptr := counter_pointer c n t z in
  let p := total_pointer n t in
  let c1 := store ptr (wrap16 (load ptr c - 1)) c in
  if negb (load ptr c1 =? 0) then c1
  else store p (wrap32 (load p c1 + -1)) c1.

Lemma release_effect s n t z :
  let c := counter s in
  let c' := counter (exec (release_lock_count_reference
                             UDS_ASSERTION_FAILED n t z) s) in
  (forall a, get_array a c' = get_array a (released c n t z))
  /\ locks c' = locks c
  /\ logical_zones c' = logical_zones c
  /\ physical_zones c' = physical_zones c.
Proof.
  cbn zeta.
  pose proof (release_lock_count_reference_effect
                UDS_ASSERTION_FAILED s n t z) as E.
  cbn zeta in E. rewrite eval_get_counter, eval_get_zone_count_ptr in E.
  unfold released.
  destruct (negb _).
  - injection E as -> _. repeat split.
  - destruct (_ =? 0).
    + apply (f_equal fst) in E. cbn [fst] in E. rewrite E.
      match goal with
      | |- context [notify ?c2 ?q] =>
          destruct (notify_arrays c2 q) as (A & B & C & D)
      end.
      cbn zeta in A, B, C, D. rewrite B, C, D. repeat split. exact A.
    + injection E as -> _. repeat split.
Qed.

(** While the assertions of [release_lock_count_reference] hold, the
    total of every lock of the zone type stays the number of zones of that
    type whose counter for the lock is not zero; the counter of the
    releasing zone goes down by one and nothing is logged. *)
Lemma release_keeps_zone_totals s n t z :
  let c := counter s in
  t <> ZONE_TYPE_JOURNAL ->
  well_sized t c -> consistent t c ->
  0 <= n < locks c -> 0 <= z < zones_of t c ->
  1 <= load (counter_pointer c n t z) c <= UINT16_MAX ->
  let s' := exec (release_lock_count_reference UDS_ASSERTION_FAILED n t z) s
  in
  well_sized t (counter s') /\ consistent t (counter s')
  /\ load (counter_pointer c n t z) (counter s')
     = load (counter_pointer c n t z) c - 1
  /\ log s' = log s.
Proof.
  intros c Ht Hws Hcons Hn Hz Hv s'.
  destruct (release_effect s n t z) as (Harr & Hlocks & Hlz & Hpz).
  fold s' c in Harr, Hlocks, Hlz, Hpz.
  assert (Hne := counters_not_totals t Ht).
  assert (Hin := counter_pointer_in_array t c n z Hws Hn Hz).
  assert (Htin := total_in_array t c n Hws Hn).
  assert (Hw : wrap16 (load (counter_pointer c n t z) c - 1)
               = load (counter_pointer c n t z) c - 1).
  { apply wrap_small. unfold UINT16_MAX in Hv. lia. }
  assert (Hback : load (counter_pointer c n t z)
                    (store (counter_pointer c n t z)
                       (load (counter_pointer c n t z) c - 1) c)
                  = load (counter_pointer c n t z) c - 1).
  { unfold load at 1, store. rewrite get_array_set_array_eq.
    now apply array_get_insert_eq. }
  assert (Hcounters :
            get_array (counters_of t) (counter s')
            = <[ snd (counter_pointer c n t z)
                 := load (counter_pointer c n t z) c - 1 ]>
                (get_array (counters_of t) c)).
  { rewrite Harr. unfold released. rewrite Hw.
    destruct (negb _); unfold store;
      cbn [fst snd counter_pointer total_pointer].
    - now rewrite get_array_set_array_eq.
    - rewrite get_array_set_array_ne by auto.
      now rewrite get_array_set_array_eq. }
  assert (Hrest :
            well_sized t (counter s') /\ consistent t (counter s')).
  { apply (consistent_update t c (counter s') n z
             (load (counter_pointer c n t z) c - 1)); trivial.
    - destruct t; assumption.
    - rewrite Harr. unfold released, store.
      cbn [fst snd counter_pointer total_pointer].
      destruct (negb _).
      + now rewrite get_array_set_array_ne by auto.
      + now rewrite get_array_set_array_eq, length_insert,
          get_array_set_array_ne by auto.
    - intros n' Hn' Hnn.
      rewrite (load_ext _ _ _ (Harr _)). unfold released.
      destruct (negb _).
      + now rewrite load_store_other_array by exact Hne.
      + unfold total_pointer. rewrite load_store_other_index by lia.
        now rewrite load_store_other_array by exact Hne.
    - rewrite (load_ext _ _ _ (Harr _)). unfold released.
      rewrite Hw, Hback.
      destruct (Z.eqb_spec (load (counter_pointer c n t z) c - 1) 0)
        as [H0 | H0]; cbn [negb].
      + rewrite load_store_same by (apply in_array_store; exact Htin).
        rewrite load_store_other_array by exact Hne.
        rewrite (Hcons n Hn).
        assert (Hpos : (1 <= holders c n t)%nat).
        { apply (count_holders_pos _ (Z.to_nat (zones_of t c))
                   (Z.to_nat z)); [lia |].
          unfold holds. rewrite Z2Nat.id by lia.
          destruct (Z.eqb_spec (load (counter_pointer c n t z) c) 0);
            [lia | reflexivity]. }
        pose proof (holders_le t c n) as Hle.
        destruct Hws as [H1 H2 H3 H4 H5].
        unfold wrap32. rewrite wrap_small by lia.
        destruct (Z.eqb_spec (load (counter_pointer c n t z) c) 0); [lia |].
        change (b2z (negb false)) with 1. change (b2z false) with 0. lia.
      + rewrite load_store_other_array by exact Hne.
        destruct (Z.eqb_spec (load (counter_pointer c n t z) c) 0); [lia |].
        reflexivity. }
  destruct Hrest as [Hws' Hcons'].
  split; [exact Hws' | split; [exact Hcons' | split]].
  - unfold load at 1.
    change (fst (counter_pointer c n t z)) with (counters_of t).
    rewrite Hcounters. now rewrite array_get_insert_eq by exact Hin.
  - apply release_log; [exact Ht | apply Hv].
Qed.

(** *** Counters stay 16-bit values *)

Lemma wrap16_bounded v : 0 <= wrap16 v <= UINT16_MAX.
Proof.
  unfold wrap16, wrap, UINT16_MAX.
  pose proof (Z.mod_pos_bound v (2 ^ 16) ltac:(lia)). lia.
Qed.

Lemma bounded_list_insert l i w :
  bounded_list l -> 0 <= w <= UINT16_MAX -> bounded_list (<[ i := w ]> l).
Proof.
  intros H Hw j Hj. rewrite length_insert in Hj.
  destruct (Nat.eq_dec i j) as [-> | Hne].
  - now rewrite array_get_insert_eq.
  - rewrite array_get_insert_other by exact Hne. now apply H.
Qed.

Lemma acquire_bounded s n t z :
  t <> ZONE_TYPE_JOURNAL -> bounded t (counter s) ->
  bounded t (counter (exec (acquire_lock_count_reference
                              UDS_ASSERTION_FAILED n t z) s)).
Proof.
  intros Ht Hb. destruct (acquire_effect s n t z) as (Hc & _ & _).
  cbn zeta in Hc. rewrite Hc. unfold bounded, acquired, store.
  cbn [fst snd counter_pointer total_pointer].
  rewrite get_array_set_array_eq.
  apply bounded_list_insert; [| apply wrap16_bounded].
  destruct (_ =? 0); [| exact Hb].
  rewrite get_array_set_array_ne; [exact Hb |].
  intros H. symmetry in H. now apply counters_not_totals in H.
Qed.

Lemma release_bounded s n t z :
  t <> ZONE_TYPE_JOURNAL -> bounded t (counter s) ->
  bounded t (counter (exec (release_lock_count_reference
                              UDS_ASSERTION_FAILED n t z) s)).
Proof.
  intros Ht Hb. destruct (release_effect s n t z) as (Harr & _).
  cbn zeta in Harr. unfold bounded. rewrite Harr. unfold released, store.
  cbn [fst snd counter_pointer total_pointer].
  assert (Hne : totals_of t <> counters_of t).
  { intros H. symmetry in H. now apply counters_not_totals in H. }
  destruct (negb _).
  - rewrite get_array_set_array_eq.
    apply bounded_list_insert; [exact Hb | apply wrap16_bounded].
  - rewrite get_array_set_array_ne, get_array_set_array_eq by exact Hne.
    apply bounded_list_insert; [exact Hb | apply wrap16_bounded].
Qed.

(** *** What the log tells *)

Lemma log_grows_ret {A} (a : A) : log_grows (ret a).
Proof. intros s. exists []. cbn. now rewrite app_nil_r. Qed.

Lemma log_grows_bind {A B} (m : M A) (k : A -> M B) :
  log_grows m -> (forall a, log_grows (k a)) -> log_grows (bind m k).
Proof.
  intros Hm Hk s. unfold bind. destruct (Hm s) as [l1 H1].
  destruct (m s) as [a s1]. cbn in H1.
  destruct (Hk a s1) as [l2 H2]. exists (l1 ++ l2).
  now rewrite H2, H1, app_assoc.
Qed.

Lemma log_grows_if {A} (b : bool) (m1 m2 : M A) :
  log_grows m1 -> log_grows m2 -> log_grows (if b then m1 else m2).
Proof. now destruct b. Qed.

Lemma log_grows_read_counter {A} (f : lock_counter -> A) :
  log_grows (read_counter f).
Proof. intros s. exists []. cbn. now rewrite app_nil_r. Qed.

Lemma log_grows_update_counter f : log_grows (update_counter f).
Proof. intros s. exists []. cbn. now rewrite app_nil_r. Qed.

Lemma log_grows_getCallbackThreadID : log_grows getCallbackThreadID.
Proof. intros s. exists []. cbn. now rewrite app_nil_r. Qed.

Lemma log_grows_invoke_callback : log_grows invoke_callback.
Proof. intros s. exists []. cbn. now rewrite app_nil_r. Qed.

Lemma log_grows_assert_log_only b e l f a :
  log_grows (LockCounter.assert_log_only UDS_ASSERTION_FAILED b e l f a).
Proof.
  intros s. unfold LockCounter.assert_log_only, with_log, ASSERT_LOG_ONLY,
              assertion_failed_log_only, handle_assertion_failure,
              log_backtrace, log_embedded_message.
  destruct b; cbn.
  - exists []. now rewrite app_nil_r.
  - eexists. rewrite <- app_assoc. reflexivity.
Qed.

Create HintDb log_grows.
#[local] Hint Resolve log_grows_ret log_grows_read_counter
  log_grows_update_counter log_grows_getCallbackThreadID
  log_grows_invoke_callback log_grows_assert_log_only : log_grows.

Ltac log_grows :=
  repeat first
    [ progress intros
    | apply log_grows_bind
    | apply log_grows_if
    | solve [auto with log_grows] ].

Lemma log_grows_run k : log_grows (run UDS_ASSERTION_FAILED k).
Proof.
  destruct k; cbn [run];
    unfold initialize_lock_count, acquire_lock_count_reference,
      release_lock_count_reference, release_journal_zone_reference,
      release_journal_zone_reference_from_other_zone, is_locked,
      release_reference, is_journal_zone_locked, assert_on_journal_thread,
      attempt_notification, compareAndSwapBool, reset_completion,
      get_counter, get_zone_count_ptr, atomicAdd32, atomicLoad32,
      atomicStore32;
    log_grows.
Qed.

Lemma log_unchanged (lg l : logger) : lg ++ l = lg -> l = [].
Proof.
  intros H. apply (f_equal (@length _)) in H. rewrite length_app in H.
  destruct l; [reflexivity | cbn in H; lia].
Qed.

(** A call of [acquire_lock_count_reference] that logs nothing passed
    both of its assertions. *)
Lemma acquire_log_unchanged s n t z :
  log (exec (acquire_lock_count_reference UDS_ASSERTION_FAILED n t z) s)
  = log s ->
  t <> ZONE_TYPE_JOURNAL
  /\ load (counter_pointer (counter s) n t z) (counter s) < UINT16_MAX.
Proof.
  unfold acquire_lock_count_reference, get_counter, get_zone_count_ptr,
    atomicAdd32, LockCounter.assert_log_only, counter_pointer,
    ASSERT_LOG_ONLY, assertion_failed_log_only, handle_assertion_failure,
    log_backtrace, log_embedded_message.
  destruct s as [c lg th q]. run_monad.
  destruct t; cbn;
    match goal with
    | |- context [?v <? UINT16_MAX] =>
        destruct (Z.ltb_spec v UINT16_MAX); cbn;
        destruct (v =? 0); cbn
    end;
    intros Hlog; try (split; [discriminate | assumption]);
    exfalso; rewrite <- ?app_assoc in Hlog; apply log_unchanged in Hlog;
    discriminate Hlog.
Qed.

Lemma release_log_unchanged s n t z :
  log (exec (release_lock_count_reference UDS_ASSERTION_FAILED n t z) s)
  = log s ->
  t <> ZONE_TYPE_JOURNAL
  /\ 1 <= load (counter_pointer (counter s) n t z) (counter s).
Proof.
  unfold release_lock_count_reference, release_reference, get_counter,
    get_zone_count_ptr, atomicAdd32, LockCounter.assert_log_only,
    counter_pointer, ASSERT_LOG_ONLY, assertion_failed_log_only,
    handle_assertion_failure, log_backtrace, log_embedded_message.
  destruct s as [c lg th q]. run_monad.
  destruct t; cbn;
    match goal with
    | |- context [1 <=? ?v] => destruct (Z.leb_spec 1 v); cbn
    end;
    match goal with
    | |- context [negb (load ?ptr ?c1 =? 0)] =>
        destruct (load ptr c1 =? 0); cbn
    end;
    try match goal with
    | |- context [wrap32 ?x =? 0] => destruct (wrap32 x =? 0); cbn
    end;
    try match goal with
    | |- context [attempt_notification ?s0] =>
        change (snd (attempt_notification s0))
          with (exec attempt_notification s0);
        rewrite (attempt_notification_spec s0);
        destruct (notifying (counter s0)); cbn
    end;
    intros Hlog; try (split; [discriminate | assumption]);
    exfalso; rewrite <- ?app_assoc in Hlog; apply log_unchanged in Hlog;
    discriminate Hlog.
Qed.

(** *** What a call leaves alone *)

(** The sizes the lock counter was made with. *)
Definition shape (c : lock_counter) : Z * Z * Z :=
  (locks c, logical_zones c, physical_zones c).

Definition keeps_shape {A} (m : M A) : Prop :=
  forall s, shape (counter (snd (m s))) = shape (counter s).

Lemma keeps_shape_ret {A} (a : A) : keeps_shape (ret a).
Proof. intros s. reflexivity. Qed.

Lemma keeps_shape_bind {A B} (m : M A) (k : A -> M B) :
  keeps_shape m -> (forall a, keeps_shape (k a)) -> keeps_shape (bind m k).
Proof.
  intros Hm Hk s. unfold bind. specialize (Hm s).
  destruct (m s) as [a s1]. cbn in Hm. now rewrite Hk.
Qed.

Lemma keeps_shape_if {A} (b : bool) (m1 m2 : M A) :
  keeps_shape m1 -> keeps_shape m2 -> keeps_shape (if b then m1 else m2).
Proof. now destruct b. Qed.

Lemma keeps_shape_read_counter {A} (f : lock_counter -> A) :
  keeps_shape (read_counter f).
Proof. intros s. reflexivity. Qed.

Lemma keeps_shape_store p v : keeps_shape (update_counter (store p v)).
Proof. intros s. reflexivity. Qed.

Lemma keeps_shape_set_notifying b :
  keeps_shape (update_counter (set_notifying b)).
Proof. intros s. reflexivity. Qed.

Lemma keeps_shape_reset_completion : keeps_shape reset_completion.
Proof. intros s. reflexivity. Qed.

Lemma keeps_shape_invoke_callback : keeps_shape invoke_callback.
Proof. intros s. reflexivity. Qed.

Lemma keeps_shape_getCallbackThreadID : keeps_shape getCallbackThreadID.
Proof. intros s. reflexivity. Qed.

Lemma keeps_shape_assert_log_only b e l f a :
  keeps_shape (LockCounter.assert_log_only UDS_ASSERTION_FAILED b e l f a).
Proof.
  intros s. unfold LockCounter.assert_log_only, with_log.
  now destruct (ASSERT_LOG_ONLY _ _ _ _ _ _ _ _).
Qed.

Create HintDb keeps_shape.
#[local] Hint Resolve keeps_shape_ret keeps_shape_read_counter
  keeps_shape_store keeps_shape_set_notifying keeps_shape_reset_completion
  keeps_shape_invoke_callback keeps_shape_getCallbackThreadID
  keeps_shape_assert_log_only : keeps_shape.

Ltac keeps_shape :=
  repeat first
    [ progress intros
    | apply keeps_shape_bind
    | apply keeps_shape_if
    | solve [auto with keeps_shape] ].

Lemma keeps_shape_run k : keeps_shape (run UDS_ASSERTION_FAILED k).
Proof.
  destruct k; cbn [run];
    unfold initialize_lock_count, acquire_lock_count_reference,
      release_lock_count_reference, release_journal_zone_reference,
      release_journal_zone_reference_from_other_zone, is_locked,
      release_reference, is_journal_zone_locked, assert_on_journal_thread,
      attempt_notification, compareAndSwapBool,
      get_counter, get_zone_count_ptr, atomicAdd32, atomicLoad32,
      atomicStore32;
    keeps_shape.
Qed.

Lemma zones_of_shape t c c' :
  shape c' = shape c -> locks c' = locks c /\ zones_of t c' = zones_of t c.
Proof. unfold shape. intros [= H1 H2 H3]. destruct t; cbn; auto. Qed.

Lemma in_range_shape c c' k :
  shape c' = shape c -> in_range c k -> in_range c' k.
Proof.
  intros H.
  destruct k as [n v | n t z | n t z | n | n | n t]; cbn;
    destruct (zones_of_shape ZONE_TYPE_LOGICAL c c' H) as [-> _]; trivial;
    destruct (zones_of_shape t c c' H) as [_ ->]; trivial.
Qed.

Lemma invariant_ext t c c' :
  same_zone_data t c c' -> invariant t c -> invariant t c'.
Proof.
  intros (Hc & Ht & Hl & Hz) [[H1 H2 H3 H4 H5] Hcons Hb].
  split.
  - constructor; rewrite ?Hl, ?Hz, ?Hc, ?Ht; assumption.
  - intros n Hn. rewrite Hl in Hn. specialize (Hcons n Hn).
    unfold load, holders, holds, load, counter_pointer in *.
    cbn [fst snd total_pointer] in *.
    now rewrite Hl, Hz, Hc, Ht.
  - unfold bounded. now rewrite Hc.
Qed.

(** The stores of the journal zone and of the other zone type. *)
Definition foreign (t : ZoneType) (a : array) : Prop :=
  a <> counters_of t /\ a <> totals_of t.

Lemma same_zone_data_refl t c : same_zone_data t c c.
Proof. repeat split. Qed.

Lemma same_zone_data_trans t c1 c2 c3 :
  same_zone_data t c1 c2 -> same_zone_data t c2 c3 ->
  same_zone_data t c1 c3.
Proof.
  intros (A1 & B1 & C1 & D1) (A2 & B2 & C2 & D2).
  repeat split; congruence.
Qed.

Lemma same_zone_data_store t a i v c :
  foreign t a -> same_zone_data t c (store (a, i) v c).
Proof.
  intros [H1 H2]. unfold store. cbn [fst snd].
  repeat split; try (now destruct t).
  - now apply get_array_set_array_ne.
  - now apply get_array_set_array_ne.
Qed.

Lemma same_zone_data_notify t c q : same_zone_data t c (fst (notify c q)).
Proof.
  destruct (notify_arrays c q) as (A & B & C & D). cbn zeta in *.
  repeat split; trivial. destruct t; cbn; assumption.
Qed.

(** Calls of the journal zone, queries, and calls of the zones of the
    other type leave the counters and totals of zone type [t] alone. *)
Lemma run_frames t k s :
  t <> ZONE_TYPE_JOURNAL ->
  match k with
  | AcquireLockCountReference _ t' _
  | ReleaseLockCountReference _ t' _ => t' <> t /\ t' <> ZONE_TYPE_JOURNAL
  | _ => True
  end ->
  same_zone_data t (counter s) (counter (exec (run UDS_ASSERTION_FAILED k) s)).
Proof.
  intros Ht Hk. destruct k as [n v | n t' z | n t' z | n | n | n t'];
    cbn [run].
  - unfold initialize_lock_count, assert_on_journal_thread, get_counter,
      atomicLoad32, atomicStore32, LockCounter.assert_log_only.
    destruct s as [c lg th q]. run_monad.
    eapply same_zone_data_trans; apply same_zone_data_store;
      destruct t; try contradiction; split; discriminate.
  - destruct Hk as [Hne Hj].
    destruct (acquire_effect s n t' z) as (Hc & _ & _). cbn zeta in Hc.
    rewrite Hc. unfold acquired.
    eapply same_zone_data_trans; [| apply same_zone_data_store].
    + destruct (_ =? 0); [| apply same_zone_data_refl].
      apply same_zone_data_store.
      destruct t, t'; try contradiction; split; discriminate.
    + destruct t, t'; try contradiction; split; discriminate.
  - destruct Hk as [Hne Hj].
    destruct (release_effect s n t' z) as (Harr & Hl & Hlz & Hpz).
    cbn zeta in *.
    assert (Hrel : same_zone_data t (counter s) (released (counter s) n t' z)).
    { unfold released. destruct (negb _).
      - apply same_zone_data_store.
        destruct t, t'; try contradiction; split; discriminate.
      - eapply same_zone_data_trans; apply same_zone_data_store;
          destruct t, t'; try contradiction; split; discriminate. }
    destruct Hrel as (A & B & C & D).
    repeat split; rewrite ?Harr; trivial.
    destruct t; cbn; assumption.
  - pose proof (release_journal_zone_reference_effect
                  UDS_ASSERTION_FAILED s n) as E. cbn zeta in E.
    apply (f_equal fst) in E. cbn [fst] in E.
    unfold exec in *. rewrite E.
    assert (Hstore : forall ptr v,
               ptr = eval (get_counter n ZONE_TYPE_JOURNAL 0) s ->
               same_zone_data t (counter s) (store ptr v (counter s))).
    { intros ptr v ->. rewrite eval_get_counter. unfold counter_pointer.
      apply same_zone_data_store.
      destruct t; try contradiction; split; discriminate. }
    destruct (_ =? _); cbn [fst].
    + eapply same_zone_data_trans; [apply Hstore; reflexivity |].
      apply same_zone_data_notify.
    + apply Hstore; reflexivity.
  - unfold release_journal_zone_reference_from_other_zone, atomicAdd32.
    destruct s as [c lg th q]. run_monad.
    apply same_zone_data_store.
    destruct t; try contradiction; split; discriminate.
  - unfold is_locked, is_journal_zone_locked, get_counter,
      get_zone_count_ptr, atomicLoad32, LockCounter.assert_log_only.
    destruct s as [c lg th q]. run_monad.
    match goal with
    | |- context [if ?b then _ else _] => destruct b
    end; apply same_zone_data_refl.
Qed.

Lemma ZoneType_eq_dec (a b : ZoneType) : {a = b} + {a <> b}.
Proof. decide equality. Qed.

Lemma invariant_step t th k s :
  t <> ZONE_TYPE_JOURNAL ->
  invariant t (counter s) ->
  in_range (counter s) k ->
  let s' := exec (run UDS_ASSERTION_FAILED k) (on_thread th s) in
  log s' = log s ->
  invariant t (counter s').
Proof.
  intros Ht Hinv Hk s' Hlog. subst s'.
  set (s1 := on_thread th s) in *.
  change (counter s) with (counter s1) in Hinv, Hk.
  change (log s) with (log s1) in Hlog. clearbody s1.
  destruct k as [n v | n t' z | n t' z | n | n | n t'];
    try solve [apply (invariant_ext t (counter s1)); [| exact Hinv];
               apply run_frames; trivial].
  - cbn [run] in *. apply acquire_log_unchanged in Hlog as [Hj Hv].
    destruct (ZoneType_eq_dec t' t) as [-> | Hne].
    + destruct Hk as [Hn Hz]. destruct Hinv as [Hws Hcons Hb].
      assert (H0 : 0 <= load (counter_pointer (counter s1) n t z)
                          (counter s1)).
      { apply Hb.
        apply (counter_pointer_in_array t (counter s1) n z Hws Hn Hz). }
      destruct (acquire_keeps_zone_totals s1 n t z Ht Hws Hcons Hn Hz
                  (conj H0 Hv)) as (A & B & _).
      split; trivial. exact (acquire_bounded s1 n t z Ht Hb).
    + apply (invariant_ext t (counter s1)); [| exact Hinv].
      apply (run_frames t (AcquireLockCountReference n t' z)); auto.
  - cbn [run] in *. apply release_log_unchanged in Hlog as [Hj Hv].
    destruct (ZoneType_eq_dec t' t) as [-> | Hne].
    + destruct Hk as [Hn Hz]. destruct Hinv as [Hws Hcons Hb].
      assert (H0 : load (counter_pointer (counter s1) n t z) (counter s1)
                   <= UINT16_MAX).
      { apply Hb.
        apply (counter_pointer_in_array t (counter s1) n z Hws Hn Hz). }
      destruct (release_keeps_zone_totals s1 n t z Ht Hws Hcons Hn Hz
                  (conj Hv H0)) as (A & B & _).
      split; trivial. exact (release_bounded s1 n t z Ht Hb).
    + apply (invariant_ext t (counter s1)); [| exact Hinv].
      apply (run_frames t (ReleaseLockCountReference n t' z)); auto.
Qed.

Lemma exec_calls_log_grows calls s :
  exists l, log (exec_calls UDS_ASSERTION_FAILED calls s) = log s ++ l.
Proof.
  revert s. induction calls as [| [th k] calls IH]; intros s.
  - exists []. cbn. now rewrite app_nil_r.
  - cbn [exec_calls fold_left fst snd].
    destruct (IH (exec (run UDS_ASSERTION_FAILED k) (on_thread th s)))
      as [l2 H2].
    destruct (log_grows_run k (on_thread th s)) as [l1 H1].
    exists (l1 ++ l2). unfold exec_calls in H2. rewrite H2.
    unfold exec. rewrite H1. cbn. now rewrite app_assoc.
Qed.

Lemma exec_calls_shape calls s :
  shape (counter (exec_calls UDS_ASSERTION_FAILED calls s))
  = shape (counter s).
Proof.
  revert s. induction calls as [| [th k] calls IH]; intros s;
    [reflexivity |].
  cbn [exec_calls fold_left fst snd].
  fold (exec_calls UDS_ASSERTION_FAILED calls
          (exec (run UDS_ASSERTION_FAILED k) (on_thread th s))).
  rewrite IH. apply (keeps_shape_run k (on_thread th s)).
Qed.

Lemma invariant_exec_calls t calls s :
  t <> ZONE_TYPE_JOURNAL ->
  invariant t (counter s) ->
  Forall (fun k => in_range (counter s) (snd k)) calls ->
  log (exec_calls UDS_ASSERTION_FAILED calls s) = log s ->
  invariant t (counter (exec_calls UDS_ASSERTION_FAILED calls s)).
Proof.
  intros Ht. revert s.
  induction calls as [| [th k] calls IH]; intros s Hinv Hr Hlog;
    [exact Hinv |].
  cbn [exec_calls fold_left fst snd] in *.
  set (s1 := exec (run UDS_ASSERTION_FAILED k) (on_thread th s)) in *.
  fold (exec_calls UDS_ASSERTION_FAILED calls s1) in *.
  destruct (log_grows_run k (on_thread th s)) as [l1 H1].
  fold (exec (run UDS_ASSERTION_FAILED k) (on_thread th s)) in H1.
  fold s1 in H1. cbn [on_thread log] in H1.
  destruct (exec_calls_log_grows calls s1) as [l2 H2].
  assert (Hl : l1 = [] /\ l2 = []).
  { rewrite H2, H1, <- app_assoc in Hlog. apply log_unchanged in Hlog.
    now apply app_eq_nil in Hlog. }
  destruct Hl as [-> ->]. rewrite app_nil_r in H1, H2.
  assert (Hshape : shape (counter s1) = shape (counter s)).
  { apply (keeps_shape_run k (on_thread th s)). }
  inversion Hr as [| x xs Hk Hrest]; subst.
  apply IH.
  - apply (invariant_step t th k s Ht Hinv Hk H1).
  - eapply Forall_impl; [exact Hrest |].
    intros k' Hk'. now apply (in_range_shape (counter s)).
  - exact H2.
Qed.

Lemma array_get_repeat_zero k i : array_get (repeat 0 k) i = 0.
Proof.
  unfold array_get. revert i.
  induction k as [| k IH]; intros [| i]; cbn; trivial.
Qed.

Lemma count_holders_none f zones :
  (forall z, (z < zones)%nat -> f z = false) -> count_holders f zones = 0%nat.
Proof.
  induction zones as [| k IH]; intros H; [reflexivity |].
  cbn. rewrite (H k) by lia. apply IH. intros z Hz. apply H. lia.
Qed.

(** A fresh lock counter: nobody holds a lock, every total is zero. *)
Lemma make_lock_counter_invariant threadID lz pz lk t :
  t <> ZONE_TYPE_JOURNAL ->
  0 <= lk -> 0 <= lz < 2 ^ 32 -> 0 <= pz < 2 ^ 32 ->
  lk * lz <= 2 ^ 64 -> lk * pz <= 2 ^ 64 ->
  invariant t (make_lock_counter threadID lz pz lk).
Proof.
  intros Ht Hlk Hlz Hpz Hl Hp.
  split.
  - destruct t; [contradiction | |]; constructor; cbn;
      rewrite ?repeat_length; trivial.
  - intros n Hn. unfold holders.
    rewrite count_holders_none.
    + destruct t; [contradiction | |]; cbn; apply array_get_repeat_zero.
    + intros z Hz. unfold holds.
      destruct t; [contradiction | |]; unfold load; cbn;
        now rewrite array_get_repeat_zero.
  - intros i Hi. destruct t; [contradiction | |]; cbn;
      rewrite array_get_repeat_zero; unfold UINT16_MAX; lia.
Qed.

(** X1: in every state reached from a fresh lock counter by calls of the
    zone threads that pass lock and zone numbers in range, if no
    assertion has been logged, then for each lock the atomic total of a
    zone type is the number of zones of that type whose own counter for
    the lock is not zero, and every such counter is a 16-bit value. *)
Theorem zone_totals_count_holders threadID lz pz lk thread calls t :
  t <> ZONE_TYPE_JOURNAL ->
  0 <= lk -> 0 <= lz < 2 ^ 32 -> 0 <= pz < 2 ^ 32 ->
  lk * lz <= 2 ^ 64 -> lk * pz <= 2 ^ 64 ->
  let s0 := initial_state (make_lock_counter threadID lz pz lk) thread in
  let s := exec_calls UDS_ASSERTION_FAILED calls s0 in
  Forall (fun k => in_range (counter s0) (snd k)) calls ->
  log s = [] ->
  (forall n, 0 <= n < lk ->
             zone_count t (counter s) n = Z.of_nat (holders (counter s) n t))
  /\ bounded t (counter s).
Proof.
  intros Ht Hlk Hlz Hpz Hl Hp s0 s Hr Hlog.
  assert (Hinv : invariant t (counter s)).
  { apply invariant_exec_calls; trivial.
    now apply make_lock_counter_invariant. }
  assert (Hshape : locks (counter s) = lk).
  { pose proof (exec_calls_shape calls s0) as Hs. fold s in Hs.
    unfold shape in Hs. now injection Hs as Hs _ _. }
  destruct Hinv as [Hws Hcons Hb]. split; [| exact Hb].
  intros n Hn. rewrite <- (Hcons n) by (rewrite Hshape; exact Hn).
  destruct t; [contradiction | |]; reflexivity.
Qed.

(** *** What [is_locked] tells *)

Lemma eval_is_locked s n t :
  0 <= n < 2 ^ 64 ->
  eval (is_locked UDS_ASSERTION_FAILED n t) s
  = negb (journal_counter (counter s) n
          =? journal_decrement_count (counter s) n)
    || negb (load (total_pointer n t) (counter s) =? 0).
Proof.
  intros Hn.
  unfold is_locked, is_journal_zone_locked, get_counter,
    get_zone_count_ptr, atomicLoad32, LockCounter.assert_log_only,
    total_pointer.
  destruct s as [c lg th q]. run_monad. rewrite journal_index by assumption.
  unfold journal_counter, journal_decrement_count, load; cbn.
  destruct (_ =? _); cbn; [| reflexivity].
  destruct t; reflexivity.
Qed.

Lemma count_holders_some f zones :
  (0 < count_holders f zones)%nat ->
  exists z, (z < zones)%nat /\ f z = true.
Proof.
  induction zones as [| k IH]; cbn; [lia |].
  destruct (f k) eqn:Hk.
  - intros _. exists k. split; [lia | exact Hk].
  - intros H. destruct (IH ltac:(lia)) as (z & Hz & Hf).
    exists z. split; [lia | exact Hf].
Qed.

(** X2: while the totals are in step with the counters of the zones,
    [is_locked] answers true for a lock and a zone type exactly when the
    journal zone holds the lock (its counter differs from the batched
    decrements) or the counter of some zone of that type is not zero. *)
Theorem is_locked_iff_some_zone_holds s n t :
  let c := counter s in
  t <> ZONE_TYPE_JOURNAL ->
  well_sized t c -> consistent t c ->
  0 <= n < locks c -> n < 2 ^ 64 ->
  eval (is_locked UDS_ASSERTION_FAILED n t) s = true
  <-> journal_counter c n <> journal_decrement_count c n
      \/ exists z, 0 <= z < zones_of t c
                   /\ load (counter_pointer c n t z) c <> 0.
Proof.
  intros c Ht Hws Hcons Hn Hn64.
  rewrite eval_is_locked by lia. fold c. rewrite (Hcons n Hn).
  rewrite orb_true_iff, !negb_true_iff, !Z.eqb_neq.
  split; intros [H | H]; [now left | right | now left | right].
  - unfold holders in H.
    destruct (count_holders_some (holds c n t) (Z.to_nat (zones_of t c)))
      as (z & Hz & Hf); [lia |].
    exists (Z.of_nat z). split; [lia |].
    unfold holds in Hf. now rewrite negb_true_iff, Z.eqb_neq in Hf.
  - destruct H as (z & Hz & Hv).
    assert (Hpos : (1 <= holders c n t)%nat); [| lia].
    apply (count_holders_pos _ _ (Z.to_nat z)); [lia |].
    unfold holds. rewrite Z2Nat.id by lia.
    now rewrite negb_true_iff, Z.eqb_neq.
Qed.

(** *** An acquisition undone *)

Lemma wrap_succ_pred bits v :
  0 <= v < 2 ^ bits -> wrap bits (wrap bits (v + 1) - 1) = v.
Proof.
  intros Hv. unfold wrap. rewrite Zminus_mod_idemp_l.
  replace (v + 1 - 1) with v by lia. now apply Z.mod_small.
Qed.

Lemma insert_array_get_id (l : list Z) i : <[ i := array_get l i ]> l = l.
Proof.
  apply list_insert_id'. intros Hi. unfold array_get.
  destruct (lookup_lt_is_Some_2 l i Hi) as [v ->]. reflexivity.
Qed.

Lemma array_eq_dec (a b : array) : {a = b} + {a <> b}.
Proof. decide equality. Qed.

Lemma store_load_id p c a :
  get_array a (store p (load p c) c) = get_array a c.
Proof.
  unfold store, load. destruct p as [b i]. cbn [fst snd].
  destruct (array_eq_dec b a) as [-> | Hne].
  - rewrite get_array_set_array_eq. apply insert_array_get_id.
  - now apply get_array_set_array_ne.
Qed.

Lemma get_array_store_eq a i v c :
  get_array a (store (a, i) v c) = <[ i := v ]> (get_array a c).
Proof. unfold store. cbn [fst snd]. apply get_array_set_array_eq. Qed.

Lemma get_array_store_ne a b i v c :
  a <> b -> get_array b (store (a, i) v c) = get_array b c.
Proof. intros H. unfold store. now apply get_array_set_array_ne. Qed.

Lemma store_store_load p w c a :
  get_array a (store p (load p c) (store p w c)) = get_array a c.
Proof.
  destruct p as [b i]. destruct (array_eq_dec b a) as [-> | Hne].
  - rewrite !get_array_store_eq, list_insert_insert_eq.
    apply insert_array_get_id.
  - now rewrite !get_array_store_ne.
Qed.

Lemma exec_then {A} (m : M A) (k : M unit) s :
  exec (m ;; k) s = exec k (exec m s).
Proof. unfold exec, bind. now destruct (m s). Qed.

(** X3: a zone that takes a reference to a lock and gives it back leaves
    every counter and every total of the lock counter as it found them,
    also when its counter or the total wraps around on the way. *)
Theorem acquire_release_round_trip s n t z :
  let c := counter s in
  t <> ZONE_TYPE_JOURNAL ->
  in_array (counter_pointer c n t z) c ->
  in_array (total_pointer n t) c ->
  0 <= load (counter_pointer c n t z) c <= UINT16_MAX ->
  0 <= load (total_pointer n t) c < 2 ^ 32 ->
  let s' := exec (acquire_lock_count_reference UDS_ASSERTION_FAILED n t z ;;
                  release_lock_count_reference UDS_ASSERTION_FAILED n t z) s
  in
  forall a, get_array a (counter s') = get_array a c.
Proof.
  intros c Ht Hin Htin Hv HT s' a. subst s'. rewrite exec_then.
  set (s1 := exec (acquire_lock_count_reference
                     UDS_ASSERTION_FAILED n t z) s).
  destruct (acquire_effect s n t z) as (Hc & _ & _). fold s1 c in Hc.
  destruct (release_effect s1 n t z) as (Harr & _). cbn zeta in Harr.
  rewrite Harr, Hc. clear Harr.
  assert (Hne := counters_not_totals t Ht).
  assert (Hlocks : counter_pointer (acquired c n t z) n t z
                   = counter_pointer c n t z).
  { unfold counter_pointer, acquired. now destruct (_ =? 0). }
  unfold released. rewrite Hlocks.
  set (ptr := counter_pointer c n t z) in *.
  set (p := total_pointer n t) in *.
  assert (Hptr : fst ptr <> fst p) by exact Hne.
  assert (Hptr' : fst p <> fst ptr) by (intros H; now symmetry in H).
  assert (Hload : load ptr (acquired c n t z) = wrap16 (load ptr c + 1)).
  { unfold acquired. fold ptr p. apply load_store_same.
    destruct (_ =? 0); [apply in_array_store |]; exact Hin. }
  assert (Hrt : wrap16 (wrap16 (load ptr c + 1) - 1) = load ptr c).
  { apply wrap_succ_pred. unfold UINT16_MAX in Hv. lia. }
  rewrite Hload, !Hrt.
  assert (Hin' : in_array ptr (acquired c n t z)).
  { unfold acquired. fold ptr p. apply in_array_store.
    destruct (_ =? 0); [apply in_array_store |]; exact Hin. }
  rewrite (load_store_same ptr _ _ Hin').
  unfold acquired. fold ptr p.
  destruct (Z.eqb_spec (load ptr c) 0) as [H0 | H0]; cbn [negb].
  - rewrite !(load_store_other_array ptr p) by exact Hptr.
    rewrite (load_store_same p) by exact Htin.
    assert (HrT : wrap32 (wrap32 (load p c + 1) + -1) = load p c).
    { apply wrap_succ_pred. lia. }
    rewrite HrT.
    destruct ptr as [b i], p as [b' j]. cbn [fst] in Hptr, Hptr'.
    destruct (array_eq_dec b a) as [-> | Hb].
    + rewrite get_array_store_ne by exact Hptr'.
      rewrite !get_array_store_eq, list_insert_insert_eq.
      rewrite get_array_store_ne by exact Hptr'.
      apply insert_array_get_id.
    + destruct (array_eq_dec b' a) as [-> | Hb'].
      * rewrite get_array_store_eq, !(get_array_store_ne b) by exact Hb.
        rewrite get_array_store_eq, list_insert_insert_eq.
        apply insert_array_get_id.
      * rewrite get_array_store_ne by exact Hb'.
        rewrite !(get_array_store_ne b) by exact Hb.
        now rewrite get_array_store_ne by exact Hb'.
  - apply store_store_load.
Qed.

(** *** Failed assertions *)

Lemma acquire_log_overflow s n t z :
  t <> ZONE_TYPE_JOURNAL ->
  UINT16_MAX <= load (counter_pointer (counter s) n t z) (counter s) ->
  logged_failure
    (log s)
    (log (exec (acquire_lock_count_reference UDS_ASSERTION_FAILED n t z) s)).
Proof.
  intros Ht Hv. apply Z.ltb_ge in Hv.
  unfold acquire_lock_count_reference, get_counter, get_zone_count_ptr,
    atomicAdd32, LockCounter.assert_log_only, counter_pointer,
    ASSERT_LOG_ONLY, assertion_failed_log_only in *.
  destruct s as [c lg th q]. run_monad.
  destruct t; [contradiction | |]; cbn in *; rewrite Hv; cbn;
    match goal with
    | |- context [?v =? 0] => destruct (v =? 0)
    end; apply handle_assertion_failure_logs.
Qed.

Lemma release_log_underflow s n t z :
  t <> ZONE_TYPE_JOURNAL ->
  load (counter_pointer (counter s) n t z) (counter s) < 1 ->
  logged_failure
    (log s)
    (log (exec (release_lock_count_reference UDS_ASSERTION_FAILED n t z) s)).
Proof.
  intros Ht Hv. apply Z.leb_gt in Hv.
  unfold release_lock_count_reference, release_reference, get_counter,
    get_zone_count_ptr, atomicAdd32, LockCounter.assert_log_only,
    counter_pointer, ASSERT_LOG_ONLY, assertion_failed_log_only in *.
  destruct s as [c lg th q]. run_monad.
  destruct t; [contradiction | |]; cbn in *; rewrite Hv; cbn;
    match goal with
    | |- context [negb (load ?ptr ?c1 =? 0)] =>
        destruct (load ptr c1 =? 0); cbn
    end;
    try match goal with
    | |- context [wrap32 ?x =? 0] => destruct (wrap32 x =? 0); cbn
    end;
    try match goal with
    | |- context [attempt_notification ?s0] =>
        change (snd (attempt_notification s0))
          with (exec attempt_notification s0);
        rewrite (attempt_notification_spec s0);
        destruct (notifying (counter s0)); cbn
    end;
    apply handle_assertion_failure_logs.
Qed.

(** X4: a release by a zone whose counter for the lock is already zero
    is logged as a failed assertion and made all the same: the counter
    wraps to [UINT16_MAX], so the zone now counts as a holder, while the
    total of its zone type, the other arrays, the flag and the queue of
    the owner stay as they were. *)
Theorem release_underflow_wraps s n t z :
  let c := counter s in
  let ptr := counter_pointer c n t z in
  t <> ZONE_TYPE_JOURNAL ->
  in_array ptr c ->
  load ptr c = 0 ->
  let s' := exec (release_lock_count_reference UDS_ASSERTION_FAILED n t z) s
  in
  logged_failure (log s) (log s')
  /\ counter s' = store ptr UINT16_MAX c
  /\ load ptr (counter s') = UINT16_MAX
  /\ journal_thread_queue s' = journal_thread_queue s.
Proof.
  intros c ptr Ht Hin Hv s'.
  split; [apply release_log_underflow; [exact Ht | fold c ptr; lia] |].
  pose proof (release_lock_count_reference_effect
                UDS_ASSERTION_FAILED s n t z) as E.
  cbn zeta in E. rewrite eval_get_counter in E. fold c ptr s' in E.
  rewrite Hv in E. change (wrap16 (0 - 1)) with UINT16_MAX in E.
  rewrite (load_store_same ptr UINT16_MAX c Hin) in E.
  cbn [Z.eqb UINT16_MAX negb] in E. injection E as Hc Hq.
  repeat split; trivial.
  rewrite Hc. now apply load_store_same.
Qed.

(** X5: an acquisition by a zone whose counter for the lock is already
    [UINT16_MAX] is logged as a failed assertion and made all the same:
    the counter wraps to zero, so the zone no longer counts as a holder,
    while the total of its zone type and everything else stay as they
    were. *)
Theorem acquire_overflow_wraps s n t z :
  let c := counter s in
  let ptr := counter_pointer c n t z in
  t <> ZONE_TYPE_JOURNAL ->
  in_array ptr c ->
  load ptr c = UINT16_MAX ->
  let s' := exec (acquire_lock_count_reference UDS_ASSERTION_FAILED n t z) s
  in
  logged_failure (log s) (log s')
  /\ counter s' = store ptr 0 c
  /\ load ptr (counter s') = 0
  /\ journal_thread_queue s' = journal_thread_queue s.
Proof.
  intros c ptr Ht Hin Hv s'.
  split; [apply acquire_log_overflow; [exact Ht | fold c ptr; lia] |].
  destruct (acquire_effect s n t z) as (Hc & Hq & _). fold s' c in Hc, Hq.
  unfold acquired in Hc. fold ptr in Hc. rewrite Hv in Hc.
  change (UINT16_MAX =? 0) with false in Hc.
  change (wrap16 (UINT16_MAX + 1)) with 0 in Hc.
  repeat split; trivial.
  rewrite Hc. apply load_store_zero.
Qed.

(** *** The references of the journal zone *)

Lemma own_releases_nonneg n calls : 0 <= own_releases n calls.
Proof.
  induction calls as [| [th k] calls IH]; cbn; [lia |].
  destruct k; try exact IH. destruct (_ =? n); lia.
Qed.

Lemma batched_releases_nonneg n calls : 0 <= batched_releases n calls.
Proof.
  induction calls as [| [th k] calls IH]; cbn; [lia |].
  destruct k; try exact IH. destruct (_ =? n); lia.
Qed.

Lemma release_journal_zone_reference_arrays s n :
  0 <= n < 2 ^ 64 ->
  let c := counter s in
  let ptr := (JournalCounters, Z.to_nat n) in
  forall a,
    get_array a (counter (exec (release_journal_zone_reference
                                  UDS_ASSERTION_FAILED n) s))
    = get_array a (store ptr (wrap16 (load ptr c - 1)) c).
Proof.
  intros Hn c ptr a.
  pose proof (release_journal_zone_reference_effect
                UDS_ASSERTION_FAILED s n) as E.
  cbn zeta in E. rewrite eval_get_counter in E.
  unfold counter_pointer in E. rewrite journal_index in E by exact Hn.
  cbn [counters_of] in E. fold c ptr in E.
  apply (f_equal fst) in E. cbn [fst] in E. rewrite E.
  destruct (_ =? _); cbn [fst]; [| reflexivity].
  apply notify_arrays.
Qed.

Lemma release_from_other_zone_counter s n :
  counter (exec (release_journal_zone_reference_from_other_zone n) s)
  = store (JournalDecrementCounts, Z.to_nat n)
          (wrap32 (load (JournalDecrementCounts, Z.to_nat n) (counter s)
                   + 1))
          (counter s).
Proof. reflexivity. Qed.

Lemma eval_is_journal_zone_locked s n :
  0 <= n < 2 ^ 64 ->
  eval (is_journal_zone_locked UDS_ASSERTION_FAILED n) s
  = negb (journal_counter (counter s) n
          =? journal_decrement_count (counter s) n).
Proof.
  intros Hn.
  unfold is_journal_zone_locked, get_counter, atomicLoad32,
    LockCounter.assert_log_only.
  destruct s as [c lg th q]. run_monad.
  now rewrite journal_index by assumption.
Qed.

Lemma journal_releases_counted n calls :
  0 <= n < 2 ^ 64 ->
  Forall (fun k => journal_release n (snd k)) calls ->
  forall s,
    let c := counter s in
    let s' := exec_calls UDS_ASSERTION_FAILED calls s in
    in_array (JournalCounters, Z.to_nat n) c ->
    in_array (JournalDecrementCounts, Z.to_nat n) c ->
    own_releases n calls <= journal_counter c n <= UINT16_MAX ->
    0 <= journal_decrement_count c n ->
    journal_decrement_count c n + batched_releases n calls < 2 ^ 32 ->
    journal_counter (counter s') n
    = journal_counter c n - own_releases n calls
    /\ journal_decrement_count (counter s') n
       = journal_decrement_count c n + batched_releases n calls.
Proof.
  intros Hn Hcalls.
  induction Hcalls as [| [th k] calls Hk Hrest IH]; intros s c s' Hjc Hjd
    Hown Hd Hbatched; subst c s'.
  - cbn. split; lia.
  - cbn [exec_calls fold_left fst snd].
    set (s1 := exec (run UDS_ASSERTION_FAILED k) (on_thread th s)).
    fold (exec_calls UDS_ASSERTION_FAILED calls s1).
    pose proof (own_releases_nonneg n calls) as Ho.
    pose proof (batched_releases_nonneg n calls) as Hb.
    cbn [snd] in Hk. destruct Hk as [-> | ->].
    + cbn [own_releases batched_releases] in *.
      rewrite Z.eqb_refl in *.
      assert (Harr : forall a,
                 get_array a (counter s1)
                 = get_array a
                     (store (JournalCounters, Z.to_nat n)
                        (wrap16 (journal_counter (counter s) n - 1))
                        (counter s))).
      { intros a. subst s1. cbn [run].
        now rewrite release_journal_zone_reference_arrays. }
      assert (H1 : journal_counter (counter s1) n
                   = journal_counter (counter s) n - 1).
      { unfold journal_counter at 1.
        change (journal_counters (counter s1))
          with (get_array JournalCounters (counter s1)).
        rewrite Harr, get_array_store_eq, array_get_insert_eq by exact Hjc.
        apply wrap_small. unfold UINT16_MAX in Hown. lia. }
      assert (H2 : journal_decrement_count (counter s1) n
                   = journal_decrement_count (counter s) n).
      { unfold journal_decrement_count.
        change (journal_decrement_counts (counter s1))
          with (get_array JournalDecrementCounts (counter s1)).
        now rewrite Harr, get_array_store_ne by discriminate. }
      destruct (IH s1) as [A B].
      * unfold in_array. cbn [fst snd]. rewrite Harr, get_array_store_eq.
        now rewrite length_insert.
      * unfold in_array. cbn [fst snd].
        now rewrite Harr, get_array_store_ne by discriminate.
      * rewrite H1. lia.
      * rewrite H2. lia.
      * rewrite H2. lia.
      * rewrite A, B, H1, H2. split; lia.
    + cbn [own_releases batched_releases] in *.
      rewrite Z.eqb_refl in *.
      assert (Hc : counter s1
                   = store (JournalDecrementCounts, Z.to_nat n)
                       (wrap32 (journal_decrement_count (counter s) n + 1))
                       (counter s)) by reflexivity.
      assert (H1 : journal_counter (counter s1) n
                   = journal_counter (counter s) n).
      { rewrite Hc. reflexivity. }
      assert (H2 : journal_decrement_count (counter s1) n
                   = journal_decrement_count (counter s) n + 1).
      { rewrite Hc. unfold journal_decrement_count at 1.
        change (journal_decrement_counts ?x)
          with (get_array JournalDecrementCounts x).
        rewrite get_array_store_eq, array_get_insert_eq by exact Hjd.
        apply wrap_small. lia. }
      destruct (IH s1) as [A B].
      * rewrite Hc. now apply in_array_store.
      * rewrite Hc. now apply in_array_store.
      * rewrite H1. lia.
      * rewrite H2. lia.
      * rewrite H2. lia.
      * rewrite A, B, H1, H2. split; lia.
Qed.


Lemma initialize_lock_count_counter s n v :
  0 <= n < 2 ^ 64 ->
  counter (exec (initialize_lock_count UDS_ASSERTION_FAILED n v) s)
  = store (JournalDecrementCounts, Z.to_nat n) (wrap32 0)
          (store (JournalCounters, Z.to_nat n) (wrap16 v) (counter s)).
Proof.
  intros Hn.
  unfold initialize_lock_count, assert_on_journal_thread, get_counter,
    atomicLoad32, atomicStore32, LockCounter.assert_log_only.
  destruct s as [c lg th q]. run_monad.
  now rewrite journal_index by assumption.
Qed.

(** X16: once [initialize_lock_count] has given the journal zone
    [value] references to a lock, whatever the counters of that lock
    held before, the journal zone holds the lock until exactly [value]
    releases have been made, by the journal zone itself or by other
    zones on its behalf, in any order. *)
Theorem journal_lock_held_until_released s n value thread calls :
  let c := counter s in
  let s' := exec_calls UDS_ASSERTION_FAILED
                       ((thread, InitializeLockCount n value) :: calls) s in
  0 <= n < 2 ^ 64 ->
  in_array (JournalCounters, Z.to_nat n) c ->
  in_array (JournalDecrementCounts, Z.to_nat n) c ->
  0 <= value <= UINT16_MAX ->
  Forall (fun k => journal_release n (snd k)) calls ->
  own_releases n calls <= value ->
  batched_releases n calls < 2 ^ 32 ->
  journal_counter (counter s') n = value - own_releases n calls
  /\ journal_decrement_count (counter s') n = batched_releases n calls
  /\ (eval (is_journal_zone_locked UDS_ASSERTION_FAILED n) s' = true
      <-> own_releases n calls + batched_releases n calls <> value).
Proof.
  intros c s' Hn Hjc Hjd Hv Hcalls Hown Hbatched. subst s'.
  cbn [exec_calls fold_left fst snd run].
  set (s1 := exec (initialize_lock_count UDS_ASSERTION_FAILED n value)
                  (on_thread thread s)).
  fold (exec_calls UDS_ASSERTION_FAILED calls s1).
  assert (Hc : counter s1
               = store (JournalDecrementCounts, Z.to_nat n) (wrap32 0)
                       (store (JournalCounters, Z.to_nat n) (wrap16 value)
                              c))
    by (apply (initialize_lock_count_counter (on_thread thread s) n value Hn)).
  assert (Hjc1 : in_array (JournalCounters, Z.to_nat n) (counter s1))
    by (rewrite Hc; now do 2 apply in_array_store).
  assert (Hjd1 : in_array (JournalDecrementCounts, Z.to_nat n) (counter s1))
    by (rewrite Hc; now do 2 apply in_array_store).
  assert (H1 : journal_counter (counter s1) n = value).
  { rewrite Hc. unfold journal_counter.
    change (journal_counters ?x) with (get_array JournalCounters x).
    rewrite get_array_store_ne by discriminate.
    rewrite get_array_store_eq, array_get_insert_eq by exact Hjc.
    apply wrap_small. unfold UINT16_MAX in Hv. lia. }
  assert (H2 : journal_decrement_count (counter s1) n = 0).
  { rewrite Hc. unfold journal_decrement_count.
    change (journal_decrement_counts ?x)
      with (get_array JournalDecrementCounts x).
    rewrite get_array_store_eq. apply array_get_insert_zero. }
  destruct (journal_releases_counted n calls Hn Hcalls s1 Hjc1 Hjd1)
    as [A B]; rewrite ?H1, ?H2; try lia.
  rewrite H1 in A. rewrite H2 in B.
  split; [exact A | split; [exact B |]].
  rewrite eval_is_journal_zone_locked by exact Hn.
  rewrite negb_true_iff, Z.eqb_neq, A, B. lia.
Qed.

End Laws.

(** *** The laws at work on the example counter *)

Definition example_calls : list (Z * call) :=
  [(7, InitializeLockCount 0 1);
   (3, AcquireLockCountReference 0 ZONE_TYPE_LOGICAL 0);
   (4, AcquireLockCountReference 0 ZONE_TYPE_PHYSICAL 0);
   (3, ReleaseLockCountReference 0 ZONE_TYPE_LOGICAL 0)].

Lemma zone_totals_count_holders_witness :
  let s := exec_calls sample_assertion_code example_calls
                      (initial_state (make_lock_counter 7 1 1 2) 7) in
  (forall n, 0 <= n < 2 ->
             zone_count ZONE_TYPE_PHYSICAL (counter s) n
             = Z.of_nat (holders (counter s) n ZONE_TYPE_PHYSICAL))
  /\ bounded ZONE_TYPE_PHYSICAL (counter s).
Proof.
  apply (zone_totals_count_holders sample_assertion_code 7 1 1 2 7
           example_calls ZONE_TYPE_PHYSICAL).
  - discriminate.
  - lia.
  - lia.
  - lia.
  - lia.
  - lia.
  - repeat constructor; cbn; lia.
  - reflexivity.
Defined.

Lemma example_counter_well_sized :
  well_sized ZONE_TYPE_LOGICAL example_counter.
Proof. constructor; cbn; first [lia | reflexivity]. Qed.

Lemma example_counter_consistent :
  consistent ZONE_TYPE_LOGICAL example_counter.
Proof.
  intros n Hn. cbn in Hn.
  assert (Hcases : n = 0 \/ n = 1) by lia.
  destruct Hcases as [-> | ->]; reflexivity.
Qed.

Lemma is_locked_iff_some_zone_holds_witness :
  eval (is_locked sample_assertion_code 0 ZONE_TYPE_LOGICAL) example_state
  = true
  <-> journal_counter example_counter 0
      <> journal_decrement_count example_counter 0
      \/ exists z, 0 <= z < zones_of ZONE_TYPE_LOGICAL example_counter
                   /\ load (counter_pointer example_counter 0
                                            ZONE_TYPE_LOGICAL z)
                           example_counter <> 0.
Proof.
  apply (is_locked_iff_some_zone_holds sample_assertion_code example_state
           0 ZONE_TYPE_LOGICAL).
  - discriminate.
  - exact example_counter_well_sized.
  - exact example_counter_consistent.
  - cbn. lia.
  - lia.
Defined.

Lemma acquire_release_round_trip_witness :
  let s' := exec (acquire_lock_count_reference sample_assertion_code
                                               0 ZONE_TYPE_LOGICAL 0 ;;
                  release_lock_count_reference sample_assertion_code
                                               0 ZONE_TYPE_LOGICAL 0)
                 example_state in
  get_array LogicalCounters (counter s')
  = get_array LogicalCounters example_counter
  /\ get_array LogicalZoneCounts (counter s')
     = get_array LogicalZoneCounts example_counter.
Proof.
  assert (H : forall a,
             get_array a
               (counter
                  (exec (acquire_lock_count_reference
                           sample_assertion_code 0 ZONE_TYPE_LOGICAL 0 ;;
                         release_lock_count_reference
                           sample_assertion_code 0 ZONE_TYPE_LOGICAL 0)
                        example_state))
             = get_array a example_counter).
  { apply (acquire_release_round_trip sample_assertion_code example_state
             0 ZONE_TYPE_LOGICAL 0).
    - discriminate.
    - unfold in_array. vm_compute. lia.
    - unfold in_array. vm_compute. lia.
    - vm_compute. split; discriminate.
    - vm_compute. split; [discriminate | reflexivity]. }
  split; apply H.
Defined.

Lemma release_underflow_wraps_witness :
  let ptr := counter_pointer example_counter 1 ZONE_TYPE_LOGICAL 0 in
  let s' := exec (release_lock_count_reference sample_assertion_code
                                               1 ZONE_TYPE_LOGICAL 0)
                 example_state in
  logged_failure (log example_state) (log s')
  /\ counter s' = store ptr UINT16_MAX example_counter
  /\ load ptr (counter s') = UINT16_MAX
  /\ journal_thread_queue s' = journal_thread_queue example_state.
Proof.
  apply (release_underflow_wraps sample_assertion_code example_state
           1 ZONE_TYPE_LOGICAL 0).
  - discriminate.
  - unfold in_array. vm_compute. lia.
  - reflexivity.
Defined.

(** The logical zone holds lock 0 as often as its counter can tell. *)
Definition example_full_state : state :=
  {| counter := store (LogicalCounters, 0%nat) UINT16_MAX example_counter;
     log := []; current_thread := 3; journal_thread_queue := [] |}.

Lemma acquire_overflow_wraps_witness :
  let c := counter example_full_state in
  let ptr := counter_pointer c 0 ZONE_TYPE_LOGICAL 0 in
  let s' := exec (acquire_lock_count_reference sample_assertion_code
                                               0 ZONE_TYPE_LOGICAL 0)
                 example_full_state in
  logged_failure (log example_full_state) (log s')
  /\ counter s' = store ptr 0 c
  /\ load ptr (counter s') = 0
  /\ journal_thread_queue s' = journal_thread_queue example_full_state.
Proof.
  apply (acquire_overflow_wraps sample_assertion_code example_full_state
           0 ZONE_TYPE_LOGICAL 0).
  - discriminate.
  - unfold in_array. vm_compute. lia.
  - reflexivity.
Defined.


Lemma journal_lock_held_until_released_witness :
  let calls := [(7, ReleaseJournalZoneReference 1);
                (3, ReleaseJournalZoneReferenceFromOtherZone 1)] in
  let s' := exec_calls sample_assertion_code
                       ((7, InitializeLockCount 1 3) :: calls)
                       example_state in
  journal_counter (counter s') 1 = 3 - own_releases 1 calls
  /\ journal_decrement_count (counter s') 1 = batched_releases 1 calls
  /\ (eval (is_journal_zone_locked sample_assertion_code 1) s' = true
      <-> own_releases 1 calls + batched_releases 1 calls <> 3).
Proof.
  apply (journal_lock_held_until_released
           sample_assertion_code example_state 1 3 7
           [(7, ReleaseJournalZoneReference 1);
            (3, ReleaseJournalZoneReferenceFromOtherZone 1)]).
  - lia.
  - unfold in_array. vm_compute. lia.
  - unfold in_array. vm_compute. lia.
  - unfold UINT16_MAX. lia.
  - apply List.Forall_cons; [left; reflexivity |].
    apply List.Forall_cons; [right; reflexivity |].
    apply List.Forall_nil.
  - vm_compute. discriminate.
  - vm_compute. reflexivity.
Defined.

End LockCounterLaws.

(** * More of src/vdo/base/blockMapEntry.h *)
Module BlockMapEntryLaws.
Import BlockMapEntry.

(** The five bytes of an entry as they lie in memory. *)
Definition is_byte (b : Z) : Prop := 0 <= b < 256.

Definition well_formed (entry : block_map_entry) : Prop :=
  length (pbn_low_word entry) = 4%nat /\ Forall is_byte (raw entry).

Lemma land15_byte b : is_byte b -> Z.land (Z.shiftr b 4) 15 = b / 16.
Proof.
  intros Hb. unfold is_byte in Hb. rewrite land15, shiftr_div by lia.
  change (2 ^ 4) with 16. apply Z.mod_small.
  Z.div_mod_to_equations. lia.
Qed.

Lemma get_unaligned_le32_bytes b0 b1 b2 b3 :
  is_byte b0 -> is_byte b1 -> is_byte b2 -> is_byte b3 ->
  get_unaligned_le32 [b0; b1; b2; b3]
  = b0 + 256 * b1 + 65536 * b2 + 16777216 * b3.
Proof.
  unfold is_byte. intros H0 H1 H2 H3.
  unfold get_unaligned_le32, array_get. cbn.
  rewrite !(Z.lor_comm _ (Z.shiftl _ _)).
  rewrite (lor_shiftl_add _ _ 8) by lia.
  rewrite (lor_shiftl_add _ _ 16) by lia.
  rewrite (lor_shiftl_add _ _ 24) by lia.
  lia.
Qed.

(** X7: every five-byte entry is the packing of the location it unpacks
    to: the PBN read from it has 36 bits, the state 4, and [pack_pbn]
    puts the same five bytes back, whatever the entry it writes into
    held. *)
Theorem unpack_block_map_entry_pack (entry scratch : block_map_entry) :
  well_formed entry ->
  let location := unpack_block_map_entry entry in
  0 <= pbn location < 2 ^ 36
  /\ 0 <= state location < 16
  /\ pack_pbn scratch (pbn location) (state location) = entry.
Proof.
  intros [Hlen Hbytes] location.
  destruct entry as [b low]. cbn [pbn_low_word raw bits] in *.
  destruct low as [| b0 [| b1 [| b2 [| b3 [| ? ?]]]]]; try discriminate.
  inversion Hbytes as [| ? ? Hb Hrest]; subst.
  inversion Hrest as [| ? ? Hb0 Hrest0]; subst.
  inversion Hrest0 as [| ? ? Hb1 Hrest1]; subst.
  inversion Hrest1 as [| ? ? Hb2 Hrest2]; subst.
  inversion Hrest2 as [| ? ? Hb3 _]; subst.
  assert (Hpbn : pbn location
                 = (b / 16) * 2 ^ 32
                   + (b0 + 256 * b1 + 65536 * b2 + 16777216 * b3)).
  { subst location.
    unfold unpack_block_map_entry, pbn_high_nibble. cbn [pbn bits pbn_low_word].
    rewrite land15_byte, get_unaligned_le32_bytes by assumption.
    rewrite (lor_shiftl_add _ _ 32); [reflexivity | lia |].
    unfold is_byte in *. lia. }
  assert (Hstate : state location = b mod 16).
  { subst location. unfold unpack_block_map_entry, mapping_state.
    cbn [state bits]. apply land15. }
  unfold is_byte in *.
  split; [| split].
  - rewrite Hpbn. change (2 ^ 36) with 68719476736.
    change (2 ^ 32) with 4294967296.
    Z.div_mod_to_equations. lia.
  - rewrite Hstate. Z.div_mod_to_equations. lia.
  - apply block_map_entry_eq. unfold raw.
    rewrite bits_pack_pbn, pbn_low_word_pack_pbn, Hpbn, Hstate.
    cbn [bits pbn_low_word].
    change (2 ^ 32) with 4294967296; change (2 ^ 24) with 16777216;
      change (2 ^ 16) with 65536; change (2 ^ 8) with 256.
    repeat match goal with
           | |- _ :: _ = _ :: _ => f_equal
           end;
      Z.div_mod_to_equations; lia.
Qed.

Lemma unpack_block_map_entry_pack_witness :
  let entry := {| bits := 243; pbn_low_word := [120; 86; 52; 18] |} in
  let location := unpack_block_map_entry entry in
  0 <= pbn location < 2 ^ 36
  /\ 0 <= state location < 16
  /\ pack_pbn {| bits := 170; pbn_low_word := [] |}
              (pbn location) (state location) = entry.
Proof.
  apply (unpack_block_map_entry_pack
           {| bits := 243; pbn_low_word := [120; 86; 52; 18] |}
           {| bits := 170; pbn_low_word := [] |}).
  split; [reflexivity |].
  unfold raw, is_byte. cbn [bits pbn_low_word].
  repeat (apply List.Forall_cons; [lia |]). apply List.Forall_nil.
Defined.

End BlockMapEntryLaws.

(** * More of src/vdo/kernel/dataKVIO.c *)
Module DataKVIOLaws.
Import BlockMapEntry DataKVIO.

(** ** The zero-block test *)

(** Modelled from the spec: get_unaligned belongs to the kernel, which is
    not among the sources.  It reads the bytes at an address as one word
    in the byte order of the machine; the little-endian order is taken
    here.  [word] is the value of the [bytes] bytes at [buffer]. *)
Fixpoint word (data : list Z) (buffer : nat) (bytes : nat) : Z :=
  match bytes with
  | O => 0
  | S bytes =>
      Z.lor (array_get data buffer)
            (Z.shiftl (word data (S buffer) bytes) 8)
  end.

(** [sizeof(uint64_t)] *)
Definition sizeof_uint64_t : nat := 8.

Definition get_unaligned_u64 (data : list Z) (buffer : nat) : Z :=
  word data buffer sizeof_uint64_t.

(** The loop over chunks of 64 bytes: [None] when it returns false from
    the function, otherwise where [buffer] points when it is done. *)
Fixpoint chunk_loop (chunk_count : nat) (data : list Z) (buffer : nat)
  : option nat :=
  match chunk_count with
  | O => Some buffer
  | S chunk_count =>
      let word0 := get_unaligned_u64 data buffer in
      let word1 := get_unaligned_u64 data (buffer + 1 * sizeof_uint64_t) in
      let word2 := get_unaligned_u64 data (buffer + 2 * sizeof_uint64_t) in
      let word3 := get_unaligned_u64 data (buffer + 3 * sizeof_uint64_t) in
      let word4 := get_unaligned_u64 data (buffer + 4 * sizeof_uint64_t) in
      let word5 := get_unaligned_u64 data (buffer + 5 * sizeof_uint64_t) in
      let word6 := get_unaligned_u64 data (buffer + 6 * sizeof_uint64_t) in
      let word7 := get_unaligned_u64 data (buffer + 7 * sizeof_uint64_t) in
      let or :=
        Z.lor (Z.lor (Z.lor (Z.lor (Z.lor (Z.lor (Z.lor word0 word1) word2)
                                          word3) word4) word5) word6)
              word7 in
      if negb (or =? 0) then None
      else chunk_loop chunk_count data (buffer + 8 * sizeof_uint64_t)
  end.

(** The loop over the words that are left. *)
Fixpoint word_loop (word_count : nat) (data : list Z) (buffer : nat)
  : bool :=
  match word_count with
  | O => true
  | S word_count =>
      if negb (get_unaligned_u64 data buffer =? 0) then false
      else word_loop word_count data (buffer + sizeof_uint64_t)
  end.

Definition is_zero_block (k : data_kvio) : bool :=
  let data := data_block_bytes k in
  let buffer := 0%nat in
  if negb (get_unaligned_u64 data buffer =? 0) then false
  else
    let word_count := VDO_BLOCK_SIZE / Z.of_nat sizeof_uint64_t in
    let chunk_count := word_count / 8 in
    match chunk_loop (Z.to_nat chunk_count) data buffer with
    | None => false
    | Some buffer =>
        let word_count := word_count mod 8 in
        word_loop (Z.to_nat word_count) data buffer
    end.

(** The bytes of [data] from [buffer] on, [count] of them, are zero. *)
Definition zero_range (data : list Z) (buffer count : nat) : Prop :=
  forall i, (i < count)%nat -> array_get data (buffer + i) = 0.

Lemma zero_range_split data buffer n m :
  zero_range data buffer (n + m)
  <-> zero_range data buffer n /\ zero_range data (buffer + n) m.
Proof.
  unfold zero_range. split.
  - intros H. split; intros i Hi.
    + apply H. lia.
    + rewrite <- Nat.add_assoc. apply H. lia.
  - intros [H1 H2] i Hi.
    destruct (Nat.lt_ge_cases i n) as [Hlt | Hge]; [now apply H1 |].
    replace (buffer + i)%nat with (buffer + n + (i - n))%nat by lia.
    apply H2. lia.
Qed.

Lemma word_zero data buffer bytes :
  word data buffer bytes = 0 <-> zero_range data buffer bytes.
Proof.
  revert buffer. induction bytes as [| n IH]; intros buffer; cbn [word].
  - split; [intros _ i Hi; lia | reflexivity].
  - rewrite Z.lor_eq_0_iff, Z.shiftl_eq_0_iff, IH by lia.
    change (S n) with (1 + n)%nat. rewrite zero_range_split.
    replace (buffer + 1)%nat with (S buffer) by lia.
    unfold zero_range at 2. split; intros [H1 H2]; split; trivial.
    + intros i Hi. replace (buffer + i)%nat with buffer by lia. exact H1.
    + rewrite <- (Nat.add_0_r buffer). apply H1. lia.
Qed.

Lemma get_unaligned_u64_zero data buffer :
  get_unaligned_u64 data buffer = 0 <-> zero_range data buffer 8.
Proof. apply word_zero. Qed.

Lemma chunk_zero data buffer :
  Z.lor (Z.lor (Z.lor (Z.lor (Z.lor (Z.lor (Z.lor
    (get_unaligned_u64 data buffer)
    (get_unaligned_u64 data (buffer + 1 * sizeof_uint64_t)))
    (get_unaligned_u64 data (buffer + 2 * sizeof_uint64_t)))
    (get_unaligned_u64 data (buffer + 3 * sizeof_uint64_t)))
    (get_unaligned_u64 data (buffer + 4 * sizeof_uint64_t)))
    (get_unaligned_u64 data (buffer + 5 * sizeof_uint64_t)))
    (get_unaligned_u64 data (buffer + 6 * sizeof_uint64_t)))
    (get_unaligned_u64 data (buffer + 7 * sizeof_uint64_t)) = 0
  <-> zero_range data buffer 64.
Proof.
  rewrite !Z.lor_eq_0_iff, !get_unaligned_u64_zero.
  change 64%nat with (8 + (8 + (8 + (8 + (8 + (8 + (8 + 8)))))))%nat.
  rewrite !zero_range_split. unfold sizeof_uint64_t.
  replace (buffer + 1 * 8)%nat with (buffer + 8)%nat by lia.
  replace (buffer + 2 * 8)%nat with (buffer + 8 + 8)%nat by lia.
  replace (buffer + 3 * 8)%nat with (buffer + 8 + 8 + 8)%nat by lia.
  replace (buffer + 4 * 8)%nat with (buffer + 8 + 8 + 8 + 8)%nat by lia.
  replace (buffer + 5 * 8)%nat with (buffer + 8 + 8 + 8 + 8 + 8)%nat by lia.
  replace (buffer + 6 * 8)%nat
    with (buffer + 8 + 8 + 8 + 8 + 8 + 8)%nat by lia.
  replace (buffer + 7 * 8)%nat
    with (buffer + 8 + 8 + 8 + 8 + 8 + 8 + 8)%nat by lia.
  tauto.
Qed.

Lemma chunk_loop_spec chunk_count data buffer p :
  chunk_loop chunk_count data buffer = Some p
  <-> p = (buffer + 64 * chunk_count)%nat
      /\ zero_range data buffer (64 * chunk_count).
Proof.
  revert buffer. induction chunk_count as [| n IH]; intros buffer.
  - cbn [chunk_loop]. split.
    + intros [= <-]. split; [lia | intros i Hi; lia].
    + intros [-> _]. f_equal. lia.
  - cbn [chunk_loop]. cbv zeta.
    replace (64 * S n)%nat with (64 + 64 * n)%nat by lia.
    rewrite zero_range_split.
    match goal with
    | |- context [negb (?w =? 0)] => destruct (Z.eqb_spec w 0) as [Hw | Hw]
    end; cbn [negb].
    + apply chunk_zero in Hw. unfold sizeof_uint64_t.
      change (8 * 8)%nat with 64%nat. rewrite IH.
      split; intros [Hp Hz]; (split; [lia |]); tauto.
    + split; [discriminate |].
      intros [_ [H _]]. apply chunk_zero in H. contradiction.
Qed.

Lemma word_loop_spec word_count data buffer :
  word_loop word_count data buffer = true
  <-> zero_range data buffer (8 * word_count).
Proof.
  revert buffer. induction word_count as [| n IH]; intros buffer.
  - cbn [word_loop]. split; [intros _ i Hi; lia | reflexivity].
  - cbn [word_loop].
    replace (8 * S n)%nat with (8 + 8 * n)%nat by lia.
    rewrite zero_range_split, <- get_unaligned_u64_zero.
    destruct (Z.eqb_spec (get_unaligned_u64 data buffer) 0) as [Hw | Hw];
      cbn [negb].
    + rewrite IH. unfold sizeof_uint64_t. tauto.
    + split; [discriminate | intros [H _]; contradiction].
Qed.

(** The block size in bytes, as an index. *)
Definition block_bytes : nat := Z.to_nat VDO_BLOCK_SIZE.

Lemma is_zero_block_true_iff k :
  is_zero_block k = true <-> zero_range (data_block_bytes k) 0 block_bytes.
Proof.
  unfold is_zero_block.
  change (Z.to_nat (VDO_BLOCK_SIZE / Z.of_nat sizeof_uint64_t / 8))
    with 64%nat.
  change (Z.to_nat ((VDO_BLOCK_SIZE / Z.of_nat sizeof_uint64_t) mod 8))
    with 0%nat.
  assert (Hsize : block_bytes = (64 * 64)%nat) by (vm_compute; reflexivity).
  rewrite Hsize.
  destruct (Z.eqb_spec (get_unaligned_u64 (data_block_bytes k) 0) 0)
    as [Hw | Hw]; cbn [negb].
  - destruct (chunk_loop 64 (data_block_bytes k) 0) as [p |] eqn:Hloop.
    + cbn [word_loop]. split; [intros _ | reflexivity].
      now apply chunk_loop_spec in Hloop.
    + split; [discriminate |]. intros Hz.
      assert (Hsome : chunk_loop 64 (data_block_bytes k) 0
                      = Some (0 + 64 * 64)%nat)
        by (apply chunk_loop_spec; split; [reflexivity | exact Hz]).
      congruence.
  - split; [discriminate |]. intros Hz. exfalso. apply Hw.
    apply get_unaligned_u64_zero. intros i Hi. apply Hz. lia.
Qed.

Lemma zero_range_repeat (l : list Z) :
  zero_range l 0 (length l) <-> l = repeat 0 (length l).
Proof.
  induction l as [| x l IH]; [split; [reflexivity | intros _ i Hi; cbn in Hi; lia] |].
  cbn [length repeat]. split.
  - intros H. f_equal.
    + apply (H 0%nat). lia.
    + apply IH. intros i Hi. apply (H (S i)). lia.
  - intros [= -> Hl] i Hi. destruct i as [| i]; [reflexivity |].
    apply IH in Hl. apply (Hl i). lia.
Qed.

(** X8: [is_zero_block] answers true exactly for the data block all of
    whose 4096 bytes are zero. *)
Theorem is_zero_block_iff_all_zero k :
  length (data_block_bytes k) = block_bytes ->
  is_zero_block k = true <-> data_block_bytes k = repeat 0 block_bytes.
Proof.
  intros Hlen. rewrite is_zero_block_true_iff, <- Hlen.
  apply zero_range_repeat.
Qed.

(** ** Partial writes *)

(** [memset] of [count] bytes at [buffer]. *)
Fixpoint memset (data : list Z) (buffer : nat) (value : Z) (count : nat)
  : list Z :=
  match count with
  | O => data
  | S count => memset (<[ buffer := value ]> data) (S buffer) value count
  end.

Definition set_data_block (bytes : list Z) (k : data_kvio) : data_kvio :=
  {| dv := dv k; layer := layer k;
     external_io_request_bio := external_io_request_bio k;
     kvio_bio_end_io := kvio_bio_end_io k;
     kvio_bio_sector := kvio_bio_sector k;
     rd := rd k; offset := offset k; isPartial := isPartial k;
     hasDiscardPermit := hasDiscardPermit k;
     remaining_discard := remaining_discard k;
     data_block_bytes := bytes;
     scratch_block_bytes := scratch_block_bytes k;
     read_block_buffer_bytes := read_block_buffer_bytes k |}.

Definition set_isZeroBlock (b : bool) (v : data_vio) : data_vio :=
  {| mapped := mapped v; newMapped := newMapped v;
     compression := compression v;
     isZeroBlock := b; logical_lbn := logical_lbn v;
     operation := operation v;
     completion_result := completion_result v |}.

(** What is done to [data_block_bio], the bio that wraps the data block,
    in order. *)
Inductive data_block_bio_call :=
| reset_bio
| set_bi_private_kvio
| copy_bio_operation_and_flags (from : bio)
| set_bio_operation_write.

Section PartialWrite.

(** bio.h declares [bio_copy_data_in] without a body: from the bio, the
    block and the offset in it to the block with the data of the bio
    copied in. *)
Variable bio_copy_data_in : bio -> list Z -> nat -> list Z.

(** [None] stands for the dereference of a NULL bio.  The trace record
    the function adds first feeds the tracing facility only and is left
    out. *)
Definition applyPartialWrite (k : data_kvio)
  : option (data_kvio * list data_block_bio_call) :=
  match external_io_request_bio k with
  | None => None
  | Some bio =>
      let data :=
        if negb (is_discard_bio (Some bio))
        then bio_copy_data_in bio (data_block_bytes k) (Z.to_nat (offset k))
        else memset (data_block_bytes k) (Z.to_nat (offset k)) 0
                    (Z.to_nat
                       (Z.min (remaining_discard k)
                              (DiscardSize (VDO_BLOCK_SIZE - offset k)))) in
      let k := set_data_block data k in
      let k := set_dv (set_isZeroBlock (is_zero_block k)) k in
      Some (k, [reset_bio; set_bi_private_kvio;
                copy_bio_operation_and_flags bio;
                set_bio_operation_write])
  end.

End PartialWrite.

Lemma length_memset data buffer value count :
  length (memset data buffer value count) = length data.
Proof.
  revert data buffer. induction count as [| n IH]; intros data buffer;
    cbn [memset]; [reflexivity |].
  now rewrite IH, length_insert.
Qed.

Lemma array_get_insert_ne (l : list Z) (i j : nat) (v : Z) :
  i <> j -> array_get (<[ i := v ]> l) j = array_get l j.
Proof.
  intros Hij. unfold array_get. now rewrite list_lookup_insert_ne.
Qed.

Lemma array_get_memset data buffer value count i :
  (buffer + count <= length data)%nat ->
  array_get (memset data buffer value count) i
  = if (buffer <=? i)%nat && (i <? buffer + count)%nat then value
    else array_get data i.
Proof.
  revert data buffer. induction count as [| n IH]; intros data buffer Hlen;
    cbn [memset].
  - replace (i <? buffer + 0)%nat with (i <? buffer)%nat
      by (f_equal; lia).
    destruct (Nat.leb_spec buffer i), (Nat.ltb_spec i buffer);
      try reflexivity; lia.
  - rewrite IH by (rewrite length_insert; lia).
    destruct (Nat.eq_dec i buffer) as [-> | Hne].
    + rewrite array_get_insert_eq by lia.
      destruct (Nat.leb_spec (S buffer) buffer); [lia |].
      destruct (Nat.leb_spec buffer buffer); [| lia].
      destruct (Nat.ltb_spec buffer (buffer + S n)); [| lia].
      reflexivity.
    + rewrite array_get_insert_ne by lia.
      destruct (Nat.leb_spec (S buffer) i), (Nat.ltb_spec i (S buffer + n)),
        (Nat.leb_spec buffer i), (Nat.ltb_spec i (buffer + S n));
        cbn [andb]; try reflexivity; lia.
Qed.

(** X9: for a discard, [applyPartialWrite] zeroes the part of the data
    block that the discard covers, from [offset] to the end of what
    remains to be discarded or the end of the block, whichever comes
    first, and nothing else; it records in [isZeroBlock] whether the
    block is now all zeroes, and makes the bio of the data block a
    write. *)
Theorem applyPartialWrite_discard bio_copy_data_in k :
  is_discard_bio (external_io_request_bio k) = true ->
  0 <= offset k <= VDO_BLOCK_SIZE ->
  0 <= remaining_discard k < 2 ^ 32 ->
  length (data_block_bytes k) = block_bytes ->
  let count := Z.min (remaining_discard k) (VDO_BLOCK_SIZE - offset k) in
  exists k' calls,
    applyPartialWrite bio_copy_data_in k = Some (k', calls)
    /\ offset k + count <= VDO_BLOCK_SIZE
    /\ length (data_block_bytes k') = block_bytes
    /\ (forall i, 0 <= i < VDO_BLOCK_SIZE ->
          array_get (data_block_bytes k') (Z.to_nat i)
          = if (offset k <=? i) && (i <? offset k + count) then 0
            else array_get (data_block_bytes k) (Z.to_nat i))
    /\ (isZeroBlock (dv k') = true
        <-> data_block_bytes k' = repeat 0 block_bytes)
    /\ last calls = Some set_bio_operation_write
    /\ remaining_discard k' = remaining_discard k
    /\ offset k' = offset k.
Proof.
  intros Hdiscard Hoff Hrem Hlen count.
  unfold applyPartialWrite.
  destruct (external_io_request_bio k) as [b |] eqn:Hbio; [| discriminate].
  rewrite Hdiscard. cbn [negb].
  assert (Hw : DiscardSize (VDO_BLOCK_SIZE - offset k)
               = VDO_BLOCK_SIZE - offset k).
  { apply wrap_small. unfold VDO_BLOCK_SIZE in *. lia. }
  rewrite Hw. fold count.
  assert (Hcount : 0 <= count <= VDO_BLOCK_SIZE - offset k)
    by (subst count; lia).
  assert (Hbytes : Z.of_nat block_bytes = VDO_BLOCK_SIZE) by reflexivity.
  assert (Hfit : (Z.to_nat (offset k) + Z.to_nat count
                  <= length (data_block_bytes k))%nat)
    by (rewrite Hlen; lia).
  eexists _, _. split; [reflexivity |].
  cbn [data_block_bytes set_dv set_data_block dv isZeroBlock
         set_isZeroBlock remaining_discard offset].
  split; [lia |]. split; [now rewrite length_memset |].
  split; [| split; [| repeat split]].
  - intros i Hi. rewrite array_get_memset by exact Hfit.
    destruct (Nat.leb_spec (Z.to_nat (offset k)) (Z.to_nat i)),
      (Nat.ltb_spec (Z.to_nat i) (Z.to_nat (offset k) + Z.to_nat count)),
      (Z.leb_spec (offset k) i), (Z.ltb_spec i (offset k + count));
      cbn [andb]; try reflexivity; lia.
  - rewrite is_zero_block_true_iff. cbn [data_block_bytes set_data_block].
    rewrite <- (length_memset (data_block_bytes k) (Z.to_nat (offset k)) 0
                              (Z.to_nat count)) in Hlen.
    rewrite <- Hlen. apply zero_range_repeat.
Qed.

(** ** Acknowledging the user *)

(** The functions of the source that may complete the bio of the
    user. *)
Inductive acknowledger :=
| kvdo_acknowledge_data_kvio_fn
| kvdo_acknowledge_then_complete_data_kvio_fn
| kvdo_complete_data_kvio_fn
| kvdo_acknowledge_data_kvio_then_continue_fn
| acknowledgeDataVIO_fn.

Definition is_complete_bio (e : event) : bool :=
  match e with
  | CompleteBio _ => true
  | _ => false
  end.

(** How often [complete_bio] was called. *)
Definition completions (ev : list event) : nat :=
  length (List.filter is_complete_bio ev).

Section Acknowledge.
Set Default Proof Using "Type".
Variable USE_BIO_ACK_QUEUE_FOR_READ : bool.
Variable map_to_system_error : Z -> Z.

Definition call_acknowledger (f : acknowledger) : action :=
  match f with
  | kvdo_acknowledge_data_kvio_fn =>
      kvdo_acknowledge_data_kvio map_to_system_error
  | kvdo_acknowledge_then_complete_data_kvio_fn =>
      kvdo_acknowledge_then_complete_data_kvio map_to_system_error
  | kvdo_complete_data_kvio_fn =>
      kvdo_complete_data_kvio USE_BIO_ACK_QUEUE_FOR_READ map_to_system_error
  | kvdo_acknowledge_data_kvio_then_continue_fn =>
      kvdo_acknowledge_data_kvio_then_continue map_to_system_error
  | acknowledgeDataVIO_fn => acknowledgeDataVIO map_to_system_error
  end.

(** The functions called one after the other on the same data_kvio. *)
Fixpoint call_acknowledgers (fs : list acknowledger) : action :=
  match fs with
  | [] => skip
  | f :: fs => call_acknowledger f >> call_acknowledgers fs
  end.

Lemma completions_app ev1 ev2 :
  completions (ev1 ++ ev2) = (completions ev1 + completions ev2)%nat.
Proof. unfold completions. now rewrite List.filter_app, length_app. Qed.

(** Either nothing is completed and the bio stays where it is, or the
    bio that was there is completed once and taken off the data_kvio. *)
Definition acknowledges_once (a : action) : Prop :=
  forall k,
    (completions (events_of a k) = 0%nat
     /\ external_io_request_bio (result_of a k) = external_io_request_bio k)
    \/ (completions (events_of a k) = 1%nat
        /\ external_io_request_bio k <> None
        /\ external_io_request_bio (result_of a k) = None).

Lemma acknowledges_once_acknowledge :
  acknowledges_once (kvdo_acknowledge_data_kvio map_to_system_error).
Proof.
  intros k. rewrite kvdo_acknowledge_data_kvio_events,
              kvdo_acknowledge_data_kvio_result.
  destruct (external_io_request_bio k) as [b |] eqn:Hbio.
  - right. repeat split; [| discriminate].
    destruct (isPartial k); reflexivity.
  - left. split; [reflexivity | now rewrite Hbio].
Qed.

Lemma acknowledges_once_emit e :
  is_complete_bio e = false -> acknowledges_once (emit e).
Proof. intros He k. left. cbn. unfold completions. cbn. now rewrite He. Qed.

Lemma acknowledges_once_emit_before e a :
  is_complete_bio e = false ->
  acknowledges_once a -> acknowledges_once (emit e >> a).
Proof.
  intros He Ha k. rewrite seq_events, seq_result.
  change (result_of (emit e) k) with k.
  change (events_of (emit e) k) with [e].
  rewrite completions_app.
  replace (completions [e]) with 0%nat
    by (unfold completions; cbn; now rewrite He).
  apply Ha.
Qed.

Lemma acknowledges_once_emit_after e a :
  is_complete_bio e = false ->
  acknowledges_once a -> acknowledges_once (a >> emit e).
Proof.
  intros He Ha k. rewrite seq_events, seq_result.
  change (result_of (emit e) (result_of a k)) with (result_of a k).
  change (events_of (emit e) (result_of a k)) with [e].
  rewrite completions_app.
  replace (completions [e]) with 0%nat
    by (unfold completions; cbn; now rewrite He).
  rewrite Nat.add_0_r. apply Ha.
Qed.

Lemma acknowledges_once_call f : acknowledges_once (call_acknowledger f).
Proof.
  destruct f; cbn [call_acknowledger].
  - apply acknowledges_once_acknowledge.
  - apply acknowledges_once_emit_after;
      [reflexivity | apply acknowledges_once_acknowledge].
  - intros k. unfold events_of, result_of, kvdo_complete_data_kvio.
    destruct (_ && _).
    + apply (acknowledges_once_emit_before OnBioAckQueue); [reflexivity |].
      apply acknowledges_once_emit_after;
        [reflexivity | apply acknowledges_once_acknowledge].
    + now apply (acknowledges_once_emit AddToBatchProcessor).
  - apply acknowledges_once_emit_after;
      [reflexivity | apply acknowledges_once_acknowledge].
  - intros k. unfold events_of, result_of, acknowledgeDataVIO.
    destruct (_ && _).
    + now apply (acknowledges_once_emit InvokeCallback).
    + destruct (use_bio_ack_queue (layer k)).
      * apply (acknowledges_once_emit_before OnBioAckQueue);
          [reflexivity |].
        apply acknowledges_once_emit_after;
          [reflexivity | apply acknowledges_once_acknowledge].
      * apply acknowledges_once_emit_after;
          [reflexivity | apply acknowledges_once_acknowledge].
Qed.

Lemma acknowledges_once_calls fs :
  acknowledges_once (call_acknowledgers fs).
Proof.
  induction fs as [| f fs IH]; cbn [call_acknowledgers].
  - intros k. left. split; reflexivity.
  - intros k. rewrite seq_events, seq_result, completions_app.
    destruct (acknowledges_once_call f k) as [[H1 H2] | (H1 & H2 & H3)];
      destruct (IH (result_of (call_acknowledger f) k))
        as [[G1 G2] | (G1 & G2 & G3)].
    + left. split; [lia | congruence].
    + right. repeat split; [lia | congruence | exact G3].
    + right. repeat split; [lia | exact H2 | congruence].
    + congruence.
Qed.

(** The functions that acknowledge without looking at anything but the
    bio: [kvdo_acknowledge_data_kvio], which [clean_data_kvio] calls
    before a data_kvio goes back to the pool, and the two work items
    that begin with it. *)
Definition unconditional (f : acknowledger) : bool :=
  match f with
  | kvdo_acknowledge_data_kvio_fn
  | kvdo_acknowledge_then_complete_data_kvio_fn
  | kvdo_acknowledge_data_kvio_then_continue_fn => true
  | _ => false
  end.

Lemma unconditional_completes f k :
  unconditional f = true ->
  external_io_request_bio k <> None ->
  completions (events_of (call_acknowledger f) k) = 1%nat.
Proof.
  intros Hf Hbio.
  assert (Hack : completions
                   (events_of (kvdo_acknowledge_data_kvio
                                 map_to_system_error) k) = 1%nat).
  { rewrite kvdo_acknowledge_data_kvio_events.
    destruct (external_io_request_bio k); [| contradiction].
    destruct (isPartial k); reflexivity. }
  destruct f; try discriminate Hf; cbn [call_acknowledger].
  - exact Hack.
  - unfold kvdo_acknowledge_then_complete_data_kvio.
    rewrite seq_events, completions_app, Hack. reflexivity.
  - unfold kvdo_acknowledge_data_kvio_then_continue.
    rewrite seq_events, completions_app, Hack. reflexivity.
Qed.

Lemma unconditional_calls_complete fs k :
  existsb unconditional fs = true ->
  external_io_request_bio k <> None ->
  completions (events_of (call_acknowledgers fs) k) = 1%nat.
Proof.
  revert k. induction fs as [| f fs IH]; intros k Hfs Hbio;
    [discriminate |].
  cbn [call_acknowledgers existsb] in *.
  rewrite seq_events, completions_app.
  destruct (acknowledges_once_call f k) as [[H1 H2] | (H1 & H2 & H3)];
    rewrite H1.
  - destruct (unconditional f) eqn:Hf.
    + rewrite (unconditional_completes f k Hf Hbio) in H1. discriminate.
    + cbn [orb] in Hfs. apply (IH _ Hfs). now rewrite H2.
  - destruct (acknowledges_once_calls fs (result_of (call_acknowledger f) k))
      as [[G1 G2] | (G1 & G2 & G3)]; [now rewrite G1 | contradiction].
Qed.

(** X10: however the functions that acknowledge a data_kvio are called
    on it, one after the other, the bio of the user is completed at most
    once: none of them completes anything once the bio has been taken
    off the data_kvio, and the one that completes it takes it off.  When
    [kvdo_acknowledge_data_kvio] is among the calls, as it is for every
    data_kvio that returns to the pool, a bio that was attached is
    completed exactly once. *)
Theorem user_bio_completed_at_most_once fs k :
  let ev := events_of (call_acknowledgers fs) k in
  let k' := result_of (call_acknowledgers fs) k in
  (completions ev <= 1)%nat
  /\ (external_io_request_bio k = None -> completions ev = 0%nat)
  /\ (completions ev = 1%nat -> external_io_request_bio k' = None)
  /\ (completions ev = 0%nat ->
      external_io_request_bio k' = external_io_request_bio k)
  /\ (existsb unconditional fs = true ->
      external_io_request_bio k <> None -> completions ev = 1%nat).
Proof.
  cbn zeta.
  split; [| split; [| split; [| split]]];
    try (intros; now apply unconditional_calls_complete);
    destruct (acknowledges_once_calls fs k) as [[H1 H2] | (H1 & H2 & H3)];
    rewrite H1; trivial; try lia.
  intros H. contradiction.
Qed.

End Acknowledge.

(** ** A compressed block the device fails to read *)

Section ReadError.
Set Default Proof Using "Type".
Variable VDO_INVALID_FRAGMENT : Z.
Variable LZ4_uncompress_unknownOutputSize :
  list Z -> Z -> Z -> Z * list Z.
Variable get_compressed_block_fragment :
  BlockMappingState -> list Z -> Z -> Z * Z * Z.
Variable device_read : Z -> Z * list Z.
Variable block_to_sector : physical_block_number_t -> Z.
Variable map_to_system_error : Z -> Z.
Variables isWriteVIO isReadModifyWriteVIO : data_vio -> bool.
Variable set_completion_result : Z -> Z -> Z.


End ReadError.

(** ** Dumping a data_kvio *)

(** The code of a character, written as a string of length one. *)
Definition char (c : string) : Z :=
  match c with
  | String a _ => Z.of_nat (Ascii.nat_of_ascii a)
  | EmptyString => 0
  end.

(** The string a [char] buffer holds: the characters before the first
    NUL. *)
Fixpoint c_string (buffer : list Z) : list Z :=
  match buffer with
  | [] => []
  | c :: rest => if c =? 0 then [] else c :: c_string rest
  end.

(** [next_waiter] is the [waiter.next_waiter] pointer of the allocating
    VIO and [isDuplicate] the flag of the data_vio; [buffer] is the
    [char buffer[8]] of the caller, and the result what it holds
    afterwards.  [p_flag] is an index into it. *)
Definition encode_vio_dump_flags (data_vio : data_vio)
           (next_waiter : option nat) (isDuplicate : bool)
           (buffer : list Z) : list Z :=
  let p_flag := 0%nat in
  let buffer := <[ p_flag := char " " ]> buffer in
  let p_flag := S p_flag in
  let '(buffer, p_flag) :=
    if negb (completion_result data_vio =? VDO_SUCCESS)
    then (<[ p_flag := char "R" ]> buffer, S p_flag)
    else (buffer, p_flag) in
  let '(buffer, p_flag) :=
    if negb (is_null next_waiter)
    then (<[ p_flag := char "W" ]> buffer, S p_flag)
    else (buffer, p_flag) in
  let '(buffer, p_flag) :=
    if isDuplicate
    then (<[ p_flag := char "D" ]> buffer, S p_flag)
    else (buffer, p_flag) in
  let p_flag := if (p_flag =? 1)%nat then 0%nat else p_flag in
  <[ p_flag := 0 ]> buffer.

(** The flags that apply, in the order of the source. *)
Definition dump_flags (data_vio : data_vio) (next_waiter : option nat)
           (isDuplicate : bool) : list Z :=
  (if negb (completion_result data_vio =? VDO_SUCCESS)
   then [char "R"] else [])
  ++ (if negb (is_null next_waiter) then [char "W"] else [])
  ++ (if isDuplicate then [char "D"] else []).

(** X12: whatever the buffer of eight characters held before,
    [encode_vio_dump_flags] leaves in it a NUL-terminated string: the
    empty string when no flag applies, and otherwise a space followed by
    R, W and D for those that do, in this order.  It writes to the first
    five characters at most. *)
Theorem encode_vio_dump_flags_string data_vio next_waiter isDuplicate
        buffer :
  length buffer = 8%nat ->
  let flags := dump_flags data_vio next_waiter isDuplicate in
  let out := encode_vio_dump_flags data_vio next_waiter isDuplicate buffer
  in
  length out = 8%nat
  /\ c_string out = match flags with
                    | [] => []
                    | _ => char " " :: flags
                    end
  /\ (length (c_string out) <= 4)%nat
  /\ array_get out (length (c_string out)) = 0
  /\ drop 5 out = drop 5 buffer.
Proof.
  intros Hlen.
  destruct buffer as [| b0 [| b1 [| b2 [| b3 [| b4 [| b5 [| b6 [| b7
    [| ? ?]]]]]]]]]; try discriminate Hlen.
  unfold encode_vio_dump_flags, dump_flags.
  destruct (negb (completion_result data_vio =? VDO_SUCCESS)),
    (negb (is_null next_waiter)), isDuplicate;
    repeat split; vm_compute; first [reflexivity | lia].
Qed.

(** ** The laws at work *)

(** A discard of 512 bytes at offset 1024 of a block full of 0xAB. *)
Definition example_partial_discard : data_kvio :=
  set_discard 1024 true true 512 (example_kvio example_discard_bio 512).

(** A write whose data block is all zeroes. *)
Definition example_zero_write : data_kvio :=
  set_data_block (repeat 0 block_bytes) (example_kvio example_write_bio 0).

Lemma is_zero_block_iff_all_zero_witness :
  is_zero_block example_zero_write = true
  <-> data_block_bytes example_zero_write = repeat 0 block_bytes.
Proof.
  apply (is_zero_block_iff_all_zero example_zero_write).
  vm_compute. reflexivity.
Defined.

Lemma applyPartialWrite_discard_witness :
  exists k' calls,
    applyPartialWrite (fun _ data _ => data) example_partial_discard
    = Some (k', calls)
    /\ 1024 + 512 <= VDO_BLOCK_SIZE
    /\ length (data_block_bytes k') = block_bytes
    /\ (forall i, 0 <= i < VDO_BLOCK_SIZE ->
          array_get (data_block_bytes k') (Z.to_nat i)
          = if (1024 <=? i) && (i <? 1024 + 512) then 0
            else array_get (repeat 171 4096) (Z.to_nat i))
    /\ (isZeroBlock (dv k') = true
        <-> data_block_bytes k' = repeat 0 block_bytes)
    /\ last calls = Some set_bio_operation_write
    /\ remaining_discard k' = 512
    /\ offset k' = 1024.
Proof.
  apply (applyPartialWrite_discard (fun _ data _ => data)
                                   example_partial_discard).
  - reflexivity.
  - cbn. unfold VDO_BLOCK_SIZE. lia.
  - cbn. lia.
  - vm_compute. reflexivity.
Defined.


Lemma encode_vio_dump_flags_string_witness :
  let out := encode_vio_dump_flags
               (set_result 5 example_data_vio) None true
               [88; 88; 88; 88; 88; 88; 88; 88] in
  length out = 8%nat
  /\ c_string out = [char " "; char "R"; char "D"]
  /\ (length (c_string out) <= 4)%nat
  /\ array_get out (length (c_string out)) = 0
  /\ drop 5 out = [88; 88; 88].
Proof.
  apply (encode_vio_dump_flags_string
           (set_result 5 example_data_vio) None true
           [88; 88; 88; 88; 88; 88; 88; 88]).
  reflexivity.
Defined.

End DataKVIOLaws.

(** * More of src/vdo/slab.c *)
Module SlabLaws.
Import Slab.

Section SlabBlockNumber.
Set Default Proof Using "Type".
Variables ref_counts slab_journal read_only_notifier : Type.

(** Modelled from the spec: statusCodes.h and types.h are not among the
    sources.  [VDO_OUT_OF_RANGE] is the status of a bad PBN, and
    [slab_block_number] an unsigned integer type of
    [slab_block_number_bits] bits. *)
Variable VDO_OUT_OF_RANGE : Z.
Variable slab_block_number_bits : Z.

(** [slab_block_number_ptr] is what the pointer of the caller points at;
    the result is the status and what it points at afterwards. *)
Definition slab_block_number_from_pbn
           (slab : vdo_slab ref_counts slab_journal read_only_notifier)
           (physical_block_number : Z) (slab_block_number_ptr : Z)
  : Z * Z :=
  if physical_block_number <? start _ _ _ slab
  then (VDO_OUT_OF_RANGE, slab_block_number_ptr)
  else
    let slab_block_number :=
      wrap64 (physical_block_number - start _ _ _ slab) in
    if data_blocks (get_slab_config _ (allocator _ _ _ slab))
       <=? slab_block_number
    then (VDO_OUT_OF_RANGE, slab_block_number_ptr)
    else (VDO_SUCCESS, wrap slab_block_number_bits slab_block_number).


End SlabBlockNumber.


End SlabLaws.

(** * src/uds/cachedChapterIndex.c *)
Module CachedChapterIndex.

Definition UINT64_MAX : Z := 18446744073709551615.

Section CachedChapterIndex.
Set Default Proof Using "Type".

(** The pages of a chapter are objects of other modules. *)
Variables DeltaIndexPage volume_page : Type.

Record Geometry := Build_Geometry {
  indexPagesPerChapter : Z
}.

Record chapter_counters := Build_chapter_counters {
  search_hits : Z;
  search_misses : Z;
  consecutive_misses : Z
}.

(** [index_pages] and [volume_pages] are pointers to arrays, and may be
    NULL. *)
Record cached_chapter_index := Build_cached_chapter_index {
  virtual_chapter : Z;
  index_pages_count : Z;
  index_pages : option (list DeltaIndexPage);
  volume_pages : option (list volume_page);
  counters : chapter_counters;
  skip_search : bool
}.

(** Modelled from the spec: memoryAlloc.h is not among the sources.
    [ALLOCATE] returns a status and, when that is [UDS_SUCCESS], leaves an
    array of the number of elements asked for in the pointer it was
    given. *)
Variable ALLOCATE_index_pages : Z -> Z * option (list DeltaIndexPage).
Variable ALLOCATE_volume_pages : Z -> Z * option (list volume_page).
(** From the page as it is to the status and the page as it is left. *)
Variable initializeVolumePage : Geometry -> volume_page -> Z * volume_page.
Definition set_pages (vp : option (list volume_page))
           (ip : option (list DeltaIndexPage)) (c : cached_chapter_index)
  : cached_chapter_index :=
  {| virtual_chapter := virtual_chapter c;
     index_pages_count := index_pages_count c;
     index_pages := ip; volume_pages := vp;
     counters := counters c; skip_search := skip_search c |}.

(** The loop of [initialize_cached_chapter_index] from [i] on, [fuel]
    being the number of pages still to go: the status it ends with and
    the pages as they are left.  The array has one element for each
    page, so the loop does not index outside it. *)
Fixpoint initialize_pages (geometry : Geometry) (fuel : nat) (i : nat)
         (pages : list volume_page) : Z * list volume_page :=
  match fuel with
  | O => (UDS_SUCCESS, pages)
  | S fuel =>
      match pages !! i with
      | None => (UDS_SUCCESS, pages)
      | Some page =>
          let '(result, page) := initializeVolumePage geometry page in
          let pages := <[ i := page ]> pages in
          if negb (result =? UDS_SUCCESS) then (result, pages)
          else initialize_pages geometry fuel (S i) pages
      end
  end.

Definition initialize_cached_chapter_index
           (chapter : cached_chapter_index) (geometry : Geometry)
  : Z * cached_chapter_index :=
  let chapter :=
    {| virtual_chapter := UINT64_MAX;
       index_pages_count := wrap32 (indexPagesPerChapter geometry);
       index_pages := index_pages chapter;
       volume_pages := volume_pages chapter;
       counters := counters chapter;
       skip_search := skip_search chapter |} in
  let '(result, ip) := ALLOCATE_index_pages (index_pages_count chapter) in
  let chapter := set_pages (volume_pages chapter) ip chapter in
  if negb (result =? UDS_SUCCESS) then (result, chapter)
  else
    let '(result, vp) :=
      ALLOCATE_volume_pages (index_pages_count chapter) in
    let chapter := set_pages vp (index_pages chapter) chapter in
    if negb (result =? UDS_SUCCESS) then (result, chapter)
    else
      match vp with
      | None => (UDS_SUCCESS, chapter)
      | Some pages =>
          let '(result, pages) :=
            initialize_pages geometry
                             (Z.to_nat (index_pages_count chapter)) 0
                             pages in
          (result, set_pages (Some pages) (index_pages chapter) chapter)
      end.

(** *** Properties *)

Definition initialized (geometry : Geometry) (page : volume_page)
  : volume_page :=
  snd (initializeVolumePage geometry page).

Definition initializes (geometry : Geometry) (page : volume_page) : Prop :=
  fst (initializeVolumePage geometry page) = UDS_SUCCESS.

Lemma initialize_pages_success geometry fuel i pages :
  (i + fuel = length pages)%nat ->
  Forall (initializes geometry) (drop i pages) ->
  initialize_pages geometry fuel i pages
  = (UDS_SUCCESS,
     take i pages ++ map (initialized geometry) (drop i pages)).
Proof.
  revert i pages. induction fuel as [| fuel IH]; intros i pages Hlen Hall.
  - cbn [initialize_pages]. rewrite drop_ge by lia.
    rewrite take_ge by lia. now rewrite app_nil_r.
  - cbn [initialize_pages].
    destruct (pages !! i) as [page |] eqn:Hpage.
    2: { apply lookup_ge_None in Hpage. lia. }
    rewrite (drop_S pages page i Hpage) in Hall |- *.
    inversion Hall as [| ? ? Hp Hrest]; subst.
    unfold initializes in Hp. cbn [map]. unfold initialized at 1.
    destruct (initializeVolumePage geometry page) as [result page'].
    cbn [fst snd] in *. subst result. cbn [Z.eqb UDS_SUCCESS negb].
    rewrite IH.
    + rewrite drop_insert_lt by lia.
      rewrite (take_S_r (<[ i := page' ]> pages) i page').
      * rewrite take_insert_ge by lia.
        now rewrite <- app_assoc.
      * apply list_lookup_insert_eq. apply lookup_lt_Some in Hpage. lia.
    + rewrite length_insert. lia.
    + now rewrite drop_insert_lt by lia.
Qed.

Lemma initialize_pages_failure geometry fuel i pages j page :
  (i + fuel = length pages)%nat ->
  (i <= j)%nat ->
  pages !! j = Some page ->
  ~ initializes geometry page ->
  (forall m p, (i <= m < j)%nat -> pages !! m = Some p ->
               initializes geometry p) ->
  initialize_pages geometry fuel i pages
  = (fst (initializeVolumePage geometry page),
     take i pages
     ++ map (initialized geometry) (take (j - i) (drop i pages))
     ++ initialized geometry page :: drop (S j) pages).
Proof.
  revert i pages. induction fuel as [| fuel IH];
    intros i pages Hlen Hij Hpage Hfail Hbefore.
  - apply lookup_lt_Some in Hpage. lia.
  - cbn [initialize_pages].
    destruct (pages !! i) as [page_i |] eqn:Hi.
    2: { apply lookup_ge_None in Hi. lia. }
    destruct (Nat.eq_dec i j) as [-> | Hne].
    + assert (page_i = page) by congruence. subst page_i.
      unfold initializes in Hfail. unfold initialized.
      destruct (initializeVolumePage geometry page) as [result page'].
      cbn [fst snd] in *.
      destruct (Z.eqb_spec result UDS_SUCCESS); [contradiction |].
      cbn [negb]. f_equal.
      rewrite Nat.sub_diag, take_0. cbn [map app].
      apply insert_take_drop. now apply lookup_lt_Some in Hpage.
    + assert (Hok : initializes geometry page_i)
        by (apply (Hbefore i); [lia | exact Hi]).
      unfold initializes in Hok.
      destruct (initializeVolumePage geometry page_i) as [result page']
        eqn:Hinit.
      cbn [fst] in Hok. subst result. cbn [Z.eqb UDS_SUCCESS negb].
      rewrite (IH (S i) (<[ i := page' ]> pages)).
      * f_equal.
        rewrite (take_S_r (<[ i := page' ]> pages) i page')
          by (apply list_lookup_insert_eq; apply lookup_lt_Some in Hi; lia).
        rewrite take_insert_ge by lia.
        rewrite !drop_insert_lt by lia.
        replace (j - i)%nat with (S (j - S i)) by lia.
        rewrite (drop_S pages page_i i Hi). cbn [take map].
        unfold initialized at 3. rewrite Hinit. cbn [snd].
        now rewrite <- app_assoc.
      * rewrite length_insert. lia.
      * lia.
      * rewrite list_lookup_insert_ne by lia. exact Hpage.
      * exact Hfail.
      * intros m p Hm Hp. rewrite list_lookup_insert_ne in Hp by lia.
        apply (Hbefore m); [lia | exact Hp].
Qed.

(** X14: [initialize_cached_chapter_index] marks the chapter as unused
    and, when both arrays have been allocated, initialises the volume
    pages in order and stops at the first one that cannot be
    initialised: it returns the status of that page, with the pages
    before it initialised and the pages after it as they were allocated;
    when every page can be initialised it returns [UDS_SUCCESS] with all
    of them initialised. *)
Theorem initialize_cached_chapter_index_pages chapter geometry ip pages :
  let count := wrap32 (indexPagesPerChapter geometry) in
  ALLOCATE_index_pages count = (UDS_SUCCESS, ip) ->
  ALLOCATE_volume_pages count = (UDS_SUCCESS, Some pages) ->
  length pages = Z.to_nat count ->
  let r := initialize_cached_chapter_index chapter geometry in
  virtual_chapter (snd r) = UINT64_MAX
  /\ index_pages_count (snd r) = count
  /\ index_pages (snd r) = ip
  /\ (Forall (initializes geometry) pages ->
      fst r = UDS_SUCCESS
      /\ volume_pages (snd r) = Some (map (initialized geometry) pages))
  /\ (forall j page,
         pages !! j = Some page ->
         ~ initializes geometry page ->
         Forall (initializes geometry) (take j pages) ->
         fst r = fst (initializeVolumePage geometry page)
         /\ fst r <> UDS_SUCCESS
         /\ volume_pages (snd r)
            = Some (map (initialized geometry) (take j pages)
                    ++ initialized geometry page :: drop (S j) pages)).
Proof.
  intros count Hip Hvp Hlen r. subst r.
  unfold initialize_cached_chapter_index.
  cbn [index_pages_count]. fold count. rewrite Hip.
  cbn [Z.eqb UDS_SUCCESS negb set_pages index_pages_count volume_pages
         index_pages].
  rewrite Hvp. cbn [Z.eqb UDS_SUCCESS negb].
  destruct (initialize_pages geometry (Z.to_nat count) 0 pages)
    as [result pages'] eqn:Hloop.
  cbn [fst snd virtual_chapter index_pages_count index_pages volume_pages
         set_pages].
  split; [reflexivity |]. split; [reflexivity |]. split; [reflexivity |].
  split.
  - intros Hall.
    rewrite initialize_pages_success in Hloop by (trivial; lia).
    injection Hloop as <- <-. split; reflexivity.
  - intros j page Hpage Hfail Hbefore.
    rewrite (initialize_pages_failure geometry _ 0 pages j page) in Hloop;
      trivial; try lia.
    + injection Hloop as <- <-. rewrite Nat.sub_0_r.
      split; [reflexivity |]. split; [exact Hfail | reflexivity].
    + intros m p Hm Hp. rewrite Forall_lookup in Hbefore.
      apply (Hbefore m). rewrite lookup_take_lt by lia. exact Hp.
Qed.

End CachedChapterIndex.

(** Three pages, the second of which cannot be initialised. *)
Definition example_initializeVolumePage (geometry : Geometry) (page : Z)
  : Z * Z :=
  if page =? 1 then (1030, page + 100) else (UDS_SUCCESS, page + 100).

Definition example_chapter : cached_chapter_index unit Z :=
  {| virtual_chapter := 17; index_pages_count := 0;
     index_pages := None; volume_pages := None;
     counters := {| search_hits := 4; search_misses := 2;
                    consecutive_misses := 1 |};
     skip_search := true |}.

Lemma initialize_cached_chapter_index_pages_witness :
  let r := initialize_cached_chapter_index
             unit Z
             (fun n => (UDS_SUCCESS, Some (repeat tt (Z.to_nat n))))
             (fun n => (UDS_SUCCESS, Some [0; 1; 2]))
             example_initializeVolumePage
             example_chapter {| indexPagesPerChapter := 3 |} in
  fst r = 1030
  /\ fst r <> UDS_SUCCESS
  /\ volume_pages _ _ (snd r) = Some [100; 101; 2].
Proof.
  refine (proj2 (proj2 (proj2 (proj2
           (initialize_cached_chapter_index_pages
              unit Z
              (fun n => (UDS_SUCCESS, Some (repeat tt (Z.to_nat n))))
              (fun n => (UDS_SUCCESS, Some [0; 1; 2]))
              example_initializeVolumePage
              example_chapter {| indexPagesPerChapter := 3 |}
              (Some [tt; tt; tt]) [0; 1; 2] _ _ _))))
           1%nat 1 _ _ _).
  - reflexivity.
  - reflexivity.
  - reflexivity.
  - reflexivity.
  - unfold initializes. cbn. discriminate.
  - repeat constructor.
Defined.

End CachedChapterIndex.

(** * src/uds/indexLayoutLinuxKernel.c *)
Module IndexLayout.

Section IndexLayout.
Set Default Proof Using "Type".

Variables IOFactory index_layout UdsConfiguration : Type.

(** The three variables the parameter table points at. *)
Record layout_parameters := Build_layout_parameters {
  dev : option string;
  offset : Z;
  size : Z
}.

(** The calls [make_index_layout] makes, in order.  [params] is the
    copy of the name, and [dev] points into it. *)
Inductive call :=
| call_duplicateString (name : string)
| call_parseLayoutString (params : option string)
| call_makeIOFactory (dev : option string)
| call_FREE (params : option string)
| call_make_index_layout_from_factory
    (factory : option IOFactory) (offset size : Z) (new_layout : bool)
| call_putIOFactory (factory : option IOFactory).

(** The collaborators, none of which is among the sources: each returns
    its status and what it leaves in the variables it was given
    pointers to. *)
Variable duplicateString : string -> Z * option string.
Variable parseLayoutString :
  option string -> layout_parameters -> Z * layout_parameters.
Variable makeIOFactory : option string -> Z * option IOFactory.
Variable make_index_layout_from_factory :
  option IOFactory -> Z -> Z -> bool -> UdsConfiguration
  -> Z * option index_layout.

(** [layout_ptr] is what the pointer of the caller points at; the result
    is the status, what it points at afterwards, and the calls made. *)
Definition make_index_layout (name : string) (new_layout : bool)
           (config : UdsConfiguration) (layout_ptr : option index_layout)
  : Z * option index_layout * list call :=
  let table := {| dev := None; offset := 0; size := 0 |} in
  let '(result, params) := duplicateString name in
  let calls := [call_duplicateString name] in
  if negb (result =? UDS_SUCCESS) then (result, layout_ptr, calls)
  else
    let '(result, table) := parseLayoutString params table in
    let calls := calls ++ [call_parseLayoutString params] in
    if negb (result =? UDS_SUCCESS)
    then (result, layout_ptr, calls ++ [call_FREE params])
    else
      let '(result, factory) := makeIOFactory (dev table) in
      let calls :=
        calls ++ [call_makeIOFactory (dev table); call_FREE params] in
      if negb (result =? UDS_SUCCESS) then (result, layout_ptr, calls)
      else
        let '(result, layout) :=
          make_index_layout_from_factory factory (offset table)
                                         (size table) new_layout config in
        let calls :=
          calls ++ [call_make_index_layout_from_factory
                      factory (offset table) (size table) new_layout;
                    call_putIOFactory factory] in
        if negb (result =? UDS_SUCCESS) then (result, layout_ptr, calls)
        else (UDS_SUCCESS, layout, calls).

(** *** Properties *)

Definition is_FREE (c : call) : bool :=
  match c with call_FREE _ => true | _ => false end.

Definition is_putIOFactory (c : call) : bool :=
  match c with call_putIOFactory _ => true | _ => false end.

(** The calls that read the copy of the name, or [dev] inside it. *)
Definition reads_params (c : call) : bool :=
  match c with
  | call_parseLayoutString _ | call_makeIOFactory _ => true
  | _ => false
  end.

Definition uses_factory (c : call) : bool :=
  match c with
  | call_make_index_layout_from_factory _ _ _ _ => true
  | _ => false
  end.

(** No call for which [uses] holds comes after one for which
    [releases] holds. *)
Fixpoint none_after (releases uses : call -> bool) (calls : list call)
  : bool :=
  match calls with
  | [] => true
  | c :: rest =>
      (if releases c then negb (existsb uses rest) else true)
      && none_after releases uses rest
  end.

Definition count (p : call -> bool) (calls : list call) : nat :=
  length (List.filter p calls).

(** X15: [make_index_layout] returns the status of the first of its four
    steps that fails, and [UDS_SUCCESS] when none does; only then does
    it store a layout for the caller.  Whichever way it returns, the
    copy of the name is freed exactly once if it was made and is not
    read afterwards, and the IO factory is put exactly once if it was
    made, after the layout has been made from it. *)
Theorem make_index_layout_releases name new_layout config layout_ptr :
  let '(result, layout, calls) :=
    make_index_layout name new_layout config layout_ptr in
  let duplicated := duplicateString name in
  let parsed :=
    parseLayoutString (snd duplicated)
                      {| dev := None; offset := 0; size := 0 |} in
  let made := makeIOFactory (dev (snd parsed)) in
  let laid_out :=
    make_index_layout_from_factory (snd made) (offset (snd parsed))
                                   (size (snd parsed)) new_layout config in
  count is_FREE calls
  = (if fst duplicated =? UDS_SUCCESS then 1%nat else 0%nat)
  /\ none_after is_FREE reads_params calls = true
  /\ count is_putIOFactory calls
     = (if (fst duplicated =? UDS_SUCCESS) && (fst parsed =? UDS_SUCCESS)
           && (fst made =? UDS_SUCCESS)
        then 1%nat else 0%nat)
  /\ none_after is_putIOFactory uses_factory calls = true
  /\ result
     = (if negb (fst duplicated =? UDS_SUCCESS) then fst duplicated
        else if negb (fst parsed =? UDS_SUCCESS) then fst parsed
        else if negb (fst made =? UDS_SUCCESS) then fst made
        else fst laid_out)
  /\ layout = (if result =? UDS_SUCCESS then snd laid_out else layout_ptr).
Proof.
  unfold make_index_layout.
  destruct (duplicateString name) as [r1 params]. cbn [fst snd].
  destruct (Z.eqb_spec r1 UDS_SUCCESS) as [-> | H1]; cbn [negb andb].
  2: { repeat split. now destruct (Z.eqb_spec r1 UDS_SUCCESS). }
  destruct (parseLayoutString params _) as [r2 table]. cbn [fst snd].
  destruct (Z.eqb_spec r2 UDS_SUCCESS) as [-> | H2]; cbn [negb andb].
  2: { repeat split. now destruct (Z.eqb_spec r2 UDS_SUCCESS). }
  destruct (makeIOFactory (dev table)) as [r3 factory]. cbn [fst snd].
  destruct (Z.eqb_spec r3 UDS_SUCCESS) as [-> | H3]; cbn [negb andb].
  2: { repeat split. now destruct (Z.eqb_spec r3 UDS_SUCCESS). }
  destruct (make_index_layout_from_factory factory _ _ _ _)
    as [r4 layout]. cbn [fst snd].
  destruct (Z.eqb_spec r4 UDS_SUCCESS) as [-> | H4]; cbn [negb].
  - repeat split.
  - repeat split. now destruct (Z.eqb_spec r4 UDS_SUCCESS).
Qed.

End IndexLayout.
End IndexLayout.

(** * src/vdo/kernel/bio.h *)
Module Bio.

(** The operation and flags of a bio, an [unsigned int].  The header
    keeps them in [bi_opf] from Linux 4.10 on and did the same to [bi_rw]
    before; the newer name is used here. *)
Record bio := Build_bio {
  bi_opf : Z
}.

Section Bio.
Set Default Proof Using "Type".

(** The request flags of the kernel (blk_types.h), which are not among
    the sources. *)
Variables REQ_SYNC REQ_FUA REQ_PREFLUSH : Z.

Definition clearBioOperationAndFlags (b : bio) : bio :=
  {| bi_opf := 0 |}.

Definition copyBioOperationAndFlags (to from : bio) : bio :=
  {| bi_opf := bi_opf from |}.

Definition setBioOperationFlag (b : bio) (flag : Z) : bio :=
  {| bi_opf := wrap32 (Z.lor (bi_opf b) flag) |}.

Definition clearBioOperationFlag (b : bio) (flag : Z) : bio :=
  {| bi_opf := Z.land (bi_opf b) (wrap32 (Z.lnot flag)) |}.

Definition setBioOperationFlagPreflush (b : bio) : bio :=
  setBioOperationFlag b REQ_PREFLUSH.

Definition setBioOperationFlagSync (b : bio) : bio :=
  setBioOperationFlag b REQ_SYNC.

Definition clearBioOperationFlagSync (b : bio) : bio :=
  clearBioOperationFlag b REQ_SYNC.

Definition setBioOperationFlagFua (b : bio) : bio :=
  setBioOperationFlag b REQ_FUA.

Definition clearBioOperationFlagFua (b : bio) : bio :=
  clearBioOperationFlag b REQ_FUA.

Definition isFUABio (b : bio) : bool :=
  negb (Z.land (bi_opf b) REQ_FUA =? 0).

(** *** Properties *)

(** A value of an [unsigned int]. *)
Definition is_uint (z : Z) : Prop := 0 <= z < 2 ^ 32.

Lemma wrap32_land z : wrap32 z = Z.land z (Z.ones 32).
Proof. unfold wrap32, wrap. now rewrite Z.land_ones by lia. Qed.

Lemma testbit_uint z i : is_uint z -> 32 <= i -> Z.testbit z i = false.
Proof. intros Hz Hi. apply (testbit_above 32); trivial. lia. Qed.

Lemma testbit_ones32 i :
  0 <= i -> Z.testbit (Z.ones 32) i = (i <? 32).
Proof. intros Hi. apply Z.testbit_ones_nonneg; lia. Qed.

(** The bits of a flag after it was set, after it was cleared, and the
    bits outside it after either. *)
Lemma land_set_flag opf flag :
  is_uint flag ->
  Z.land (wrap32 (Z.lor opf flag)) flag = flag.
Proof.
  intros Hf. rewrite wrap32_land. apply Z.bits_inj'. intros i Hi.
  rewrite !Z.land_spec, Z.lor_spec, testbit_ones32 by exact Hi.
  destruct (Z.ltb_spec i 32) as [Hlt | Hge].
  - destruct (Z.testbit opf i), (Z.testbit flag i); reflexivity.
  - rewrite (testbit_uint flag i Hf Hge). apply andb_false_r.
Qed.

Lemma land_clear_flag opf flag :
  Z.land (Z.land opf (wrap32 (Z.lnot flag))) flag = 0.
Proof.
  rewrite wrap32_land. apply Z.bits_inj'. intros i Hi.
  rewrite !Z.land_spec, Z.lnot_spec, Z.bits_0 by exact Hi.
  destruct (Z.testbit opf i), (Z.testbit flag i), (Z.testbit (Z.ones 32) i);
    reflexivity.
Qed.

Lemma land_set_other opf flag other :
  is_uint other -> Z.land flag other = 0 ->
  Z.land (wrap32 (Z.lor opf flag)) other = Z.land opf other.
Proof.
  intros Ho Hdisjoint. rewrite wrap32_land. apply Z.bits_inj'. intros i Hi.
  rewrite !Z.land_spec, Z.lor_spec, testbit_ones32 by exact Hi.
  assert (Hbit : Z.testbit flag i && Z.testbit other i = false).
  { rewrite <- Z.land_spec, Hdisjoint. apply Z.bits_0. }
  destruct (Z.ltb_spec i 32) as [Hlt | Hge].
  - destruct (Z.testbit opf i), (Z.testbit flag i), (Z.testbit other i);
      try reflexivity; discriminate Hbit.
  - rewrite (testbit_uint other i Ho Hge). now rewrite !andb_false_r.
Qed.

Lemma land_clear_other opf flag other :
  is_uint other -> Z.land flag other = 0 ->
  Z.land (Z.land opf (wrap32 (Z.lnot flag))) other = Z.land opf other.
Proof.
  intros Ho Hdisjoint. rewrite wrap32_land. apply Z.bits_inj'. intros i Hi.
  rewrite !Z.land_spec, Z.lnot_spec, testbit_ones32 by exact Hi.
  assert (Hbit : Z.testbit flag i && Z.testbit other i = false).
  { rewrite <- Z.land_spec, Hdisjoint. apply Z.bits_0. }
  destruct (Z.ltb_spec i 32) as [Hlt | Hge].
  - destruct (Z.testbit opf i), (Z.testbit flag i), (Z.testbit other i);
      try reflexivity; discriminate Hbit.
  - rewrite (testbit_uint other i Ho Hge). now rewrite !andb_false_r.
Qed.

(** X17: [isFUABio] is true after [setBioOperationFlagFua] and false
    after [clearBioOperationFlagFua], whatever the bio held; setting or
    clearing the sync flag does not change what [isFUABio] answers, and
    setting or clearing the FUA flag leaves the sync bits of the bio as
    they were; a bio whose operation and flags were cleared is not an FUA
    bio, and one they were copied to is an FUA bio exactly when the bio
    they were copied from is. *)
Theorem bio_flags_independent (b from : bio) :
  is_uint REQ_FUA -> REQ_FUA <> 0 ->
  is_uint REQ_SYNC ->
  Z.land REQ_SYNC REQ_FUA = 0 ->
  isFUABio (setBioOperationFlagFua b) = true
  /\ isFUABio (clearBioOperationFlagFua b) = false
  /\ isFUABio (setBioOperationFlagSync b) = isFUABio b
  /\ isFUABio (clearBioOperationFlagSync b) = isFUABio b
  /\ Z.land (bi_opf (setBioOperationFlagFua b)) REQ_SYNC
     = Z.land (bi_opf b) REQ_SYNC
  /\ Z.land (bi_opf (clearBioOperationFlagFua b)) REQ_SYNC
     = Z.land (bi_opf b) REQ_SYNC
  /\ isFUABio (clearBioOperationAndFlags b) = false
  /\ isFUABio (copyBioOperationAndFlags b from) = isFUABio from.
Proof.
  intros Hfua Hnz Hsync Hdisjoint.
  assert (Hdisjoint' : Z.land REQ_FUA REQ_SYNC = 0)
    by (now rewrite Z.land_comm).
  unfold isFUABio, setBioOperationFlagFua, clearBioOperationFlagFua,
    setBioOperationFlagSync, clearBioOperationFlagSync,
    setBioOperationFlag, clearBioOperationFlag, clearBioOperationAndFlags,
    copyBioOperationAndFlags.
  cbn [bi_opf].
  rewrite land_set_flag, land_clear_flag by exact Hfua.
  rewrite !land_set_other, !land_clear_other by assumption.
  repeat split.
  now destruct (Z.eqb_spec REQ_FUA 0).
Qed.

End Bio.

(** A bio with the sync flag at bit 11 and the FUA flag at bit 17. *)
Lemma bio_flags_independent_witness :
  let b := {| bi_opf := 2049 |} in
  let from := {| bi_opf := 131072 |} in
  isFUABio 131072 (setBioOperationFlagFua 131072 b) = true
  /\ isFUABio 131072 (clearBioOperationFlagFua 131072 b) = false
  /\ isFUABio 131072 (setBioOperationFlagSync 2048 b) = isFUABio 131072 b
  /\ isFUABio 131072 (clearBioOperationFlagSync 2048 b)
     = isFUABio 131072 b
  /\ Z.land (bi_opf (setBioOperationFlagFua 131072 b)) 2048
     = Z.land (bi_opf b) 2048
  /\ Z.land (bi_opf (clearBioOperationFlagFua 131072 b)) 2048
     = Z.land (bi_opf b) 2048
  /\ isFUABio 131072 (clearBioOperationAndFlags b) = false
  /\ isFUABio 131072 (copyBioOperationAndFlags b from)
     = isFUABio 131072 from.
Proof.
  apply (bio_flags_independent 2048 131072
           {| bi_opf := 2049 |} {| bi_opf := 131072 |}).
  - unfold is_uint. lia.
  - discriminate.
  - unfold is_uint. lia.
  - reflexivity.
Defined.

End Bio.
